(** * json-structgen: Go struct generation from a JSON schema

    A shallow embedding of [structgen.go] (the revision with the [-prefix]
    flag) and the properties of its resolver ([LoadRef]) and of its type
    synthesizer ([GoType]).

    Conventions of the embedding.
    - A Go [string] is a byte string: Rocq's [string], one [ascii] per byte.
    - A value of type [interface{}] that came out of [encoding/json] is a
      [json] tree; the nil interface is [JNull].
    - [map[string]*JsonSchema] and [map[string]string] are [gmap]s.  A nil
      pointer is [None]; the nil map is [None] as well, as [LoadRef] tells
      it apart from the empty map.
    - The methods mutate their receiver in place.  [JsonSchema_LoadRef]
      returns the receiver as the call leaves it.  [JsonSchema_GoType] returns
      the type expression and the registry [GlobalTypes]; the program never
      reads a node again after it has been synthesized.  Where [LoadRef]
      copies the pointers to the items and to the properties of the extended
      node, the children are shared between the two nodes; only one of the
      two is ever synthesized, the extended node is not, so a copy of the
      child stands for the shared child.
    - A panic ends the run: functions return a [result].  The recursion of
      the program follows the documents it loads and need not end, so the
      recursive functions count their call depth down from a bound. *)

From Stdlib Require Import Ascii.
From stdpp Require Import gmap strings list fin_maps sorting.

Set Warnings "-register-all".
Set Default Proof Using "Type".
Local Open Scope string_scope.

(** ** Byte strings *)

Definition nl : string := String (Ascii.ascii_of_nat 10) "".
Definition dquote : string := String (Ascii.ascii_of_nat 34) "".
Definition space : ascii := Ascii.ascii_of_nat 32.

(** [len(s) > 0] *)
Definition nonempty (s : string) : bool :=
  match s with "" => false | String _ _ => true end.

(** The separator of [Capitalize]: the space, U+0020. *)
Definition isSpace (c : ascii) : bool := Ascii.eqb c space.

(** [strings.Split(s, " ")]: the pieces between the spaces, empty pieces
    included; the empty string gives one empty piece. *)
Fixpoint Split (s : string) : list string :=
  match s with
  | "" => [""]
  | String c s' =>
      if isSpace c then "" :: Split s'
      else match Split s' with
           | w :: ws => String c w :: ws
           | [] => [String c ""]
           end
  end.

(** [strings.ToUpper] on the one-byte string [word[0:1]].  An ASCII byte is
    mapped by the ASCII fast path.  A byte from 0x80 on is not valid UTF-8 by
    itself: [strings.Map] replaces it by U+FFFD, three bytes. *)
Definition ToUpper1 (c : ascii) : string :=
  let n := Ascii.nat_of_ascii c in
  if Nat.ltb n 128 then
    if Nat.leb 97 n && Nat.leb n 122 then String (Ascii.ascii_of_nat (n - 32)) ""
    else String c ""
  else String (Ascii.ascii_of_nat 239)
         (String (Ascii.ascii_of_nat 191) (String (Ascii.ascii_of_nat 189) "")).

(** [strings.ToUpper(word[0:1]) + word[1:]], for a non-empty word. *)
Definition upperFirst (word : string) : string :=
  match word with
  | "" => ""
  | String c rest => ToUpper1 c +:+ rest
  end.

Definition Capitalize (s : string) : string :=
  foldl (fun out word => if nonempty word then out +:+ upperFirst word else out)
        "" (Split s).

(** Following the words of the specification: the first letter of each word
    of [s] is capitalized and the words are put together, a word being a
    longest run of bytes that are not separators.  [start] tells whether the
    next byte begins a word. *)
Fixpoint capitalizeWords (sep : ascii -> bool) (start : bool) (s : string)
    : string :=
  match s with
  | "" => ""
  | String c s' =>
      if sep c then capitalizeWords sep true s'
      else (if start then ToUpper1 c else String c "")
             +:+ capitalizeWords sep false s'
  end.


(** ** Decoded JSON *)

Inductive json :=
| JNull
| JBool (b : bool)
| JNumber (literal : string)
| JString (s : string)
| JArray (elems : list json)
| JObject (members : list (string * json)).

(** A JSON object read as a Go map: of several members with one name the
    last one stays. *)
Fixpoint lookupMember (m : list (string * json)) (k : string) : option json :=
  match m with
  | [] => None
  | (k', v) :: m' =>
      match lookupMember m' k with
      | Some w => Some w
      | None => if String.eqb k' k then Some v else None
      end
  end.

(** [in[k]]: nil when the key is missing. *)
Definition index (m : list (string * json)) (k : string) : json :=
  default JNull (lookupMember m k).

(** The entries of that map, one per key. *)
Fixpoint mapEntries (m : list (string * json)) : list (string * json) :=
  match m with
  | [] => []
  | (k, v) :: m' =>
      if existsb (fun kv => String.eqb (fst kv) k) m' then mapEntries m'
      else (k, v) :: mapEntries m'
  end.

(** ** Schema nodes *)

Inductive JsonSchema := mkJsonSchema {
  Schema : string;
  Ref : string;
  Title : string;
  Type_ : json;
  Description : string;
  Extends : option JsonSchema;
  Properties : option (gmap string (option JsonSchema));
  AdditionalInterface : json;
  AdditionalProperties : option JsonSchema;
  Items : option JsonSchema }.

(** The zero value of the struct. *)
Definition zero : JsonSchema :=
  mkJsonSchema "" "" "" JNull "" None None JNull None None.

Definition set_Schema (v : string) (js : JsonSchema) : JsonSchema :=
  let 'mkJsonSchema _ a b c d e f g h i := js in mkJsonSchema v a b c d e f g h i.
Definition set_Ref (v : string) (js : JsonSchema) : JsonSchema :=
  let 'mkJsonSchema a _ b c d e f g h i := js in mkJsonSchema a v b c d e f g h i.
Definition set_Title (v : string) (js : JsonSchema) : JsonSchema :=
  let 'mkJsonSchema a b _ c d e f g h i := js in mkJsonSchema a b v c d e f g h i.
Definition set_Type (v : json) (js : JsonSchema) : JsonSchema :=
  let 'mkJsonSchema a b c _ d e f g h i := js in mkJsonSchema a b c v d e f g h i.
Definition set_Description (v : string) (js : JsonSchema) : JsonSchema :=
  let 'mkJsonSchema a b c d _ e f g h i := js in mkJsonSchema a b c d v e f g h i.
Definition set_Extends (v : option JsonSchema) (js : JsonSchema) : JsonSchema :=
  let 'mkJsonSchema a b c d e _ f g h i := js in mkJsonSchema a b c d e v f g h i.
Definition set_Properties (v : option (gmap string (option JsonSchema)))
    (js : JsonSchema) : JsonSchema :=
  let 'mkJsonSchema a b c d e f _ g h i := js in mkJsonSchema a b c d e f v g h i.
Definition set_AdditionalInterface (v : json) (js : JsonSchema) : JsonSchema :=
  let 'mkJsonSchema a b c d e f g _ h i := js in mkJsonSchema a b c d e f g v h i.
Definition set_AdditionalProperties (v : option JsonSchema) (js : JsonSchema) : JsonSchema :=
  let 'mkJsonSchema a b c d e f g h _ i := js in mkJsonSchema a b c d e f g h v i.
Definition set_Items (v : option JsonSchema) (js : JsonSchema) : JsonSchema :=
  let 'mkJsonSchema a b c d e f g h i _ := js in mkJsonSchema a b c d e f g h i v.

(** Reading a map that may be nil: the nil map reads as the empty one. *)
Definition props (js : JsonSchema) : gmap string (option JsonSchema) :=
  default ∅ (Properties js).

(** ** Outcomes *)

Inductive panic :=
| RefNotFound (ref : string)
| UnmarshalError (ref : string)
| RefWithRef (js : JsonSchema)
| NoArrayItems (js : JsonSchema)
| UnknownTypeString (t : string)
| UnknownType (t : json)
| UnknownSchemaInterface (i : json)
| TypeAssertion (i : json)
| NilDereference.

Inductive result (A : Type) :=
| Ok (a : A)
| Panic (p : panic)
| OutOfFuel.
Arguments Ok {A} a.
Arguments Panic {A} p.
Arguments OutOfFuel {A}.

#[global] Instance result_ret : MRet result := fun A a => Ok a.
#[global] Instance result_bind : MBind result := fun A B f m =>
  match m with
  | Ok a => f a
  | Panic p => Panic p
  | OutOfFuel => OutOfFuel
  end.
#[global] Instance result_fmap : FMap result := fun A B f m =>
  match m with
  | Ok a => Ok (f a)
  | Panic p => Panic p
  | OutOfFuel => OutOfFuel
  end.

(** A [for ... range] loop over a slice whose body may panic. *)
Fixpoint forEach {A S : Type} (body : A -> S -> result S) (l : list A) (s : S)
    : result S :=
  match l with
  | [] => Ok s
  | a :: l' => s' ← body a s; forEach body l' s'
  end.

(** The error kinds of the specification. *)
Inductive ErrorKind := ResolutionError | SchemaError | TypeError | RuntimeError.

Definition errorKind (p : panic) : ErrorKind :=
  match p with
  | RefNotFound _ | UnmarshalError _ | RefWithRef _ => ResolutionError
  | NoArrayItems _ => SchemaError
  | UnknownTypeString _ | UnknownType _ => TypeError
  | UnknownSchemaInterface _ | TypeAssertion _ | NilDereference => RuntimeError
  end.

(** ** [json.Unmarshal] into a [*JsonSchema]

    The decoder of [encoding/json] is directed by the destination.  Into a
    struct, [null] changes nothing and an object sets the fields its
    members name, one member after the other; members with other names are
    skipped.  A member name matches a field tag exactly or up to Unicode's
    simple case folding: up to the case of its ASCII letters, with the
    Kelvin sign U+212A taken for [k] and the long s U+017F taken for [s],
    the only characters outside ASCII that fold to an ASCII letter.  Into a
    string field, a string is stored and [null] changes nothing.  Into an
    [interface{}] field the decoded value is stored, nil for [null], every
    number in it converted by [strconv.ParseFloat], which fails for a
    literal that does not fit a [float64].  Into a pointer field, [null] stores nil and
    an object is decoded into the struct the pointer already has, or into a
    new one.  Into the map field, [null] stores nil and an object stores
    each member under its name in the map the field already has, or in a
    new one, every element decoded from the zero value.  Any other
    combination is an [UnmarshalTypeError]: the call returns an error, the
    caller panics, and the model gives [None].  The field
    [AdditionalProperties] has the tag ["-"] and is never set. *)

Inductive field :=
| F_schema | F_ref | F_title | F_type | F_description
| F_extends | F_properties | F_additionalProperties | F_items.

Definition upperByte (c : ascii) : ascii :=
  let n := Ascii.nat_of_ascii c in
  if Nat.leb 97 n && Nat.leb n 122 then Ascii.ascii_of_nat (n - 32) else c.

(** The bytes of the long s, U+017F, and of the Kelvin sign, U+212A. *)
Definition isLongS (c1 c2 : ascii) : bool :=
  Nat.eqb (Ascii.nat_of_ascii c1) 197 && Nat.eqb (Ascii.nat_of_ascii c2) 191.

Definition isKelvin (c1 c2 c3 : ascii) : bool :=
  Nat.eqb (Ascii.nat_of_ascii c1) 226 && Nat.eqb (Ascii.nat_of_ascii c2) 132
  && Nat.eqb (Ascii.nat_of_ascii c3) 170.

(** A member name folded as the decoder folds it to find the field: the
    ASCII letters in upper case, the long s as [S] and the Kelvin sign as
    [K]; every other byte stays. *)
Fixpoint foldCase (s : string) : string :=
  match s with
  | "" => ""
  | String c1 s1 =>
      match s1 with
      | "" => String (upperByte c1) ""
      | String c2 s2 =>
          if isLongS c1 c2 then String "S" (foldCase s2)
          else
            match s2 with
            | "" => String (upperByte c1) (foldCase s1)
            | String c3 s3 =>
                if isKelvin c1 c2 c3 then String "K" (foldCase s3)
                else String (upperByte c1) (foldCase s1)
            end
      end
  end.

Definition fieldOf (k : string) : option field :=
  let K := foldCase k in
  if String.eqb K "$SCHEMA" then Some F_schema
  else if String.eqb K "$REF" then Some F_ref
  else if String.eqb K "TITLE" then Some F_title
  else if String.eqb K "TYPE" then Some F_type
  else if String.eqb K "DESCRIPTION" then Some F_description
  else if String.eqb K "EXTENDS" then Some F_extends
  else if String.eqb K "PROPERTIES" then Some F_properties
  else if String.eqb K "ADDITIONALPROPERTIES" then Some F_additionalProperties
  else if String.eqb K "ITEMS" then Some F_items
  else None.

(** *** Numbers in an [interface{}]

    A number literal of a document, [-? digits (. digits)? ([eE] [+-]?
    digits)?], has the magnitude [m * 10^e] for the integer [m] that its
    digits spell and a decimal exponent [e].  [convertNumber] gives it to
    [strconv.ParseFloat], which rounds to the nearest [float64] and fails
    when that is infinite: from [2^1024 - 2^970] on, half way between the
    largest [float64] and [2^1024]. *)

Definition digitOf (c : ascii) : option Z :=
  let n := Ascii.nat_of_ascii c in
  if Nat.leb 48 n && Nat.leb n 57 then Some (Z.of_nat (n - 48)) else None.

(** The digits at the start of [s]: their value after the digits [acc],
    their number after [len], and the rest of [s]. *)
Fixpoint readDigits (s : string) (acc : Z) (len : nat) : Z * nat * string :=
  match s with
  | "" => (acc, len, "")
  | String c s' =>
      match digitOf c with
      | Some d => readDigits s' (10 * acc + d)%Z (S len)
      | None => (acc, len, s)
      end
  end.

Definition dropMinus (s : string) : string :=
  match s with
  | String c s' => if Ascii.eqb c "-" then s' else s
  | "" => s
  end.

(** The integer part: digits without a leading zero, or one zero. *)
Definition readInteger (s : string) : option (Z * string) :=
  let '(m, len, rest) := readDigits s 0%Z 0 in
  match len with
  | 0 => None
  | 1 => Some (m, rest)
  | _ => match s with
         | String c _ => if Ascii.eqb c "0" then None else Some (m, rest)
         | "" => None
         end
  end.

(** The fraction, if there is one: the digits go on after [m], and each
    takes one off the exponent. *)
Definition readFraction (m : Z) (s : string) : option (Z * Z * string) :=
  match s with
  | String c s' =>
      if Ascii.eqb c "." then
        let '(m', len, rest) := readDigits s' m 0 in
        match len with
        | 0 => None
        | _ => Some (m', (- Z.of_nat len)%Z, rest)
        end
      else Some (m, 0%Z, s)
  | "" => Some (m, 0%Z, s)
  end.

(** The exponent, if there is one, up to the end of the literal. *)
Definition readExponent (s : string) : option Z :=
  match s with
  | "" => Some 0%Z
  | String c s' =>
      if Ascii.eqb c "e" || Ascii.eqb c "E" then
        let '(negative, s'') :=
          match s' with
          | String c' r =>
              if Ascii.eqb c' "-" then (true, r)
              else if Ascii.eqb c' "+" then (false, r)
              else (false, s')
          | "" => (false, s')
          end in
        let '(e, len, rest) := readDigits s'' 0%Z 0 in
        match len, rest with
        | S _, "" => Some (if negative then (- e)%Z else e)
        | _, _ => None
        end
      else None
  end.

Definition decimalOf (literal : string) : option (Z * Z) :=
  '(m, s) ← readInteger (dropMinus literal);
  '(m, e1, s) ← readFraction m s;
  e2 ← readExponent s;
  Some (m, (e1 + e2)%Z).

(** [m * 10^e] is [2^1024 - 2^970] or more. *)
Definition overflowsFloat64 (m e : Z) : bool :=
  let limit := ((2 ^ 54 - 1) * 2 ^ 970)%Z in
  if (0 <=? e)%Z then (limit <=? m * 10 ^ e)%Z
  else (limit * 10 ^ (- e) <=? m)%Z.

(** Whether [convertNumber] returns a number for the literal. *)
Definition convertNumber (literal : string) : bool :=
  match decimalOf literal with
  | Some (m, e) => negb (overflowsFloat64 m e)
  | None => false
  end.

(** [valueInterface]: a value decoded into an [interface{}]; it is the
    value of the document when every number in it converts. *)
Fixpoint convertible (v : json) : bool :=
  match v with
  | JNumber literal => convertNumber literal
  | JArray elems => forallb convertible elems
  | JObject members => forallb (fun kv => convertible (snd kv)) members
  | _ => true
  end.

Definition valueInterface (v : json) : option json :=
  if convertible v then Some v else None.

Definition decodeString (v : json) (cur : string) : option string :=
  match v with
  | JString s => Some s
  | JNull => Some cur
  | _ => None
  end.

(** One member [k: v] of an object decoded into the struct [js].
    [Unmarshal] is the decoder, for the structs below [js]. *)
Definition decodeMember (Unmarshal : json -> JsonSchema -> option JsonSchema)
    (k : string) (v : json) (js : JsonSchema) : option JsonSchema :=
  match fieldOf k with
  | None => Some js
  | Some F_schema => s ← decodeString v (Schema js); Some (set_Schema s js)
  | Some F_ref => s ← decodeString v (Ref js); Some (set_Ref s js)
  | Some F_title => s ← decodeString v (Title js); Some (set_Title s js)
  | Some F_description =>
      s ← decodeString v (Description js); Some (set_Description s js)
  | Some F_type => v ← valueInterface v; Some (set_Type v js)
  | Some F_additionalProperties =>
      v ← valueInterface v; Some (set_AdditionalInterface v js)
  | Some F_extends =>
      match v with
      | JNull => Some (set_Extends None js)
      | _ => e ← Unmarshal v (default zero (Extends js));
             Some (set_Extends (Some e) js)
      end
  | Some F_items =>
      match v with
      | JNull => Some (set_Items None js)
      | _ => e ← Unmarshal v (default zero (Items js));
             Some (set_Items (Some e) js)
      end
  | Some F_properties =>
      match v with
      | JNull => Some (set_Properties None js)
      | JObject pm =>
          ps ← (fix entries (pm : list (string * json))
                    (acc : gmap string (option JsonSchema)) {struct pm}
                  : option (gmap string (option JsonSchema)) :=
                  match pm with
                  | [] => Some acc
                  | (pk, pv) :: pm' =>
                      e ← match pv with
                          | JNull => Some None
                          | _ => Some <$> Unmarshal pv zero
                          end;
                      entries pm' (<[pk := e]> acc)
                  end) pm (props js);
          Some (set_Properties (Some ps) js)
      | _ => None
      end
  end.

Fixpoint Unmarshal (j : json) (js : JsonSchema) {struct j} : option JsonSchema :=
  match j with
  | JNull => Some js
  | JObject m =>
      (fix members (m : list (string * json)) (js : JsonSchema) {struct m}
           : option JsonSchema :=
         match m with
         | [] => Some js
         | (k, v) :: m' => js' ← decodeMember Unmarshal k v js; members m' js'
         end) m js
  | _ => None
  end.

(** The reference that a document with the members [m] leaves in a node
    whose [Ref] was [cur]: the last ["$ref"] member that is a string. *)
Fixpoint documentRef (m : list (string * json)) (cur : string) : string :=
  match m with
  | [] => cur
  | (k, v) :: m' =>
      documentRef m' match fieldOf k, v with
                     | Some F_ref, JString s => s
                     | _, _ => cur
                     end
  end.

(** ** [SortedKeys] *)

(** [sort.Strings] orders by the bytes of the strings. *)
Definition string_le : relation string := fun s1 s2 => String.leb s1 s2 = true.

#[global] Instance string_le_dec : RelDecision string_le.
Proof. intros s1 s2. unfold string_le. apply _. Defined.

Definition sortStrings (keys : list string) : list string :=
  merge_sort string_le keys.

(** [reflect.ValueOf(in).MapKeys()]: the keys, in no specified order. *)
Definition MapKeys {V : Type} (m : gmap string V) : list string :=
  (map_to_list m).*1.

Definition SortedKeys {V : Type} (m : gmap string V) : list string :=
  sortStrings (MapKeys m).

(** ** The files of the schema set *)

Inductive file :=
| Unreadable
| Malformed
| Document (j : json).

Section structgen.

(** What [ioutil.ReadFile] finds under a path, relative to the directory
    of the entry document, already parsed. *)
Variable ReadFile : string -> file.
(** The flags [-prefix] and [-package]. *)
Variable structPrefix : string.
Variable packageName : string.
(** [format.Source] of [go/format], with its error dropped as [main]
    drops it. *)
Variable format_Source : string -> string.

Definition LoadRef (ref : string) (schema : JsonSchema) : result JsonSchema :=
  match ReadFile ref with
  | Unreadable => Panic (RefNotFound ref)
  | Malformed => Panic (UnmarshalError ref)
  | Document j =>
      match Unmarshal j schema with
      | Some schema' => Ok schema'
      | None => Panic (UnmarshalError ref)
      end
  end.

(** [str.(string)] *)
Definition assertString (v : json) : result string :=
  match v with
  | JString s => Ok s
  | _ => Panic (TypeAssertion v)
  end.

(** [prop.(map[string]interface{})] *)
Definition assertMap (v : json) : result (list (string * json)) :=
  match v with
  | JObject m => Ok m
  | _ => Panic (TypeAssertion v)
  end.

(** Lines 337 to 344 of [LoadRef]: the reference is taken out of the
    node, the document is decoded over the node, and a document that
    brings a reference of its own is refused. *)
Definition resolveRef (js : JsonSchema) : result JsonSchema :=
  js ← (if nonempty (Ref js) then LoadRef (Ref js) (set_Ref "" js) else Ok js);
  if nonempty (Ref js) then Panic (RefWithRef js) else Ok js.

(** Lines 345 to 347 of [LoadRef]: a nil map becomes an empty one. *)
Definition makeProperties (js : JsonSchema) : JsonSchema :=
  match Properties js with
  | None => set_Properties (Some ∅) js
  | Some _ => js
  end.

(** Lines 353 to 366 of [LoadRef]: what the node lacks is taken from the
    node it extends. *)
Definition mergeExtends (js ext : JsonSchema) : JsonSchema :=
  let js := if nonempty (Title js) then js else set_Title (Title ext) js in
  let js := match Type_ js with
            | JNull => set_Type (Type_ ext) js
            | _ => js
            end in
  let js := match Items js with
            | None => set_Items (Items ext) js
            | Some _ => js
            end in
  set_Properties
    (Some (map_fold (fun k v (own : gmap string (option JsonSchema)) =>
                       match own !! k with
                       | Some _ => own
                       | None => <[k := v]> own
                       end)
                    (props js) (props ext)))
    js.

(** The method [LoadRef] and [SchemaFromInterface], which call each other;
    [n] bounds the depth of the calls.  [SchemaFromInterface] ranges over a
    Go map, in no specified order: the model takes the keys as the document
    has them, which only decides which of several panics comes first. *)
Fixpoint JsonSchema_LoadRef (n : nat) (js : JsonSchema) {struct n}
    : result JsonSchema :=
  match n with
  | 0 => OutOfFuel
  | S n =>
      js ← resolveRef js;
      let js := makeProperties js in
      additionalProperties ← SchemaFromInterface n (AdditionalInterface js);
      let js := set_AdditionalProperties additionalProperties js in
      match Extends js with
      | None => Ok js
      | Some ext =>
          ext ← JsonSchema_LoadRef n ext;
          Ok (mergeExtends (set_Extends (Some ext) js) ext)
      end
  end
with SchemaFromInterface (n : nat) (i : json) {struct n}
    : result (option JsonSchema) :=
  match n with
  | 0 => OutOfFuel
  | S n =>
      match i with
      | JNull => Ok None
      | JBool _ => Ok None
      | JObject m =>
          extends ← SchemaFromInterface n (index m "extends");
          items ← SchemaFromInterface n (index m "items");
          let out := set_Type (index m "type")
                       (set_Extends extends (set_Items items zero)) in
          out ← match lookupMember m "$ref" with
                | Some str => s ← assertString str; Ok (set_Ref s out)
                | None => Ok out
                end;
          out ← match lookupMember m "title" with
                | Some str => s ← assertString str; Ok (set_Title s out)
                | None => Ok out
                end;
          out ← match lookupMember m "description" with
                | Some str => s ← assertString str; Ok (set_Description s out)
                | None => Ok out
                end;
          out ← match lookupMember m "properties" with
                | Some prop =>
                    pm ← assertMap prop;
                    ps ← forEach (fun kv (ps : gmap string (option JsonSchema)) =>
                                    c ← SchemaFromInterface n (snd kv);
                                    Ok (<[fst kv := c]> ps))
                                 (mapEntries pm) ∅;
                    Ok (set_Properties (Some ps) out)
                | None => Ok out
                end;
          out ← JsonSchema_LoadRef n out;
          Ok (Some out)
      | _ => Panic (UnknownSchemaInterface i)
      end
  end.

(** One line of a struct body. *)
Definition fieldDecl (n t : string) : string :=
  Capitalize n +:+ " " +:+ t +:+ " `json:" +:+ dquote +:+ n +:+ dquote +:+ "`" +:+ nl.

(** Line 330 of [GoType]: the node [&JsonSchema{Title: js.Title, Type: t[0]}]
    made for a type list of one element. *)
Definition typeListNode (title : string) (t0 : json) : JsonSchema :=
  set_Title title (set_Type t0 zero).

(** Lines 311 to 313 of [GoType], the body of the loop over the sorted
    keys: the field for key [k] is appended to [src].  [GoType] is the
    method, called on the child with [collapse] true; a child that is
    the nil pointer makes [LoadRef] dereference nil. *)
Definition structField
    (GoType : JsonSchema -> bool -> gmap string string ->
              result (string * gmap string string))
    (js : JsonSchema) (k : string) (acc : string * gmap string string)
    : result (string * gmap string string) :=
  let '(src, G) := acc in
  match props js !! k with
  | Some (Some child) =>
      '(t, G) ← GoType child true G;
      Ok (src +:+ fieldDecl k t, G)
  | _ => Panic NilDereference
  end.

(** The method [GoType]; [n] bounds the depth of the calls and
    [GlobalTypes] is the registry, passed in and returned. *)
Fixpoint JsonSchema_GoType (n : nat) (js : JsonSchema) (collapse : bool)
    (GlobalTypes : gmap string string) {struct n}
    : result (string * gmap string string) :=
  match n with
  | 0 => OutOfFuel
  | S n =>
      js ← JsonSchema_LoadRef n js;
      match Type_ js with
      | JString t =>
          if String.eqb t "any" then Ok ("interface{}", GlobalTypes)
          else if String.eqb t "boolean" then Ok ("bool", GlobalTypes)
          else if String.eqb t "integer" then Ok ("int64", GlobalTypes)
          else if String.eqb t "number" then Ok ("float64", GlobalTypes)
          else if String.eqb t "string" then Ok ("string", GlobalTypes)
          else if String.eqb t "array" then
            match Items js with
            | None => Panic (NoArrayItems js)
            | Some items =>
                '(t, G) ← JsonSchema_GoType n items true GlobalTypes;
                Ok ("[]" +:+ t, G)
            end
          else if String.eqb t "object" then
            let name := Capitalize (Title js) in
            if decide (size (props js) = 0) then
              match AdditionalProperties js with
              | Some ap =>
                  '(t, G) ← JsonSchema_GoType n ap true GlobalTypes;
                  Ok ("map[string]" +:+ t, G)
              | None => Ok ("interface{}", GlobalTypes)
              end
            else
              '(src, G) ←
                forEach (structField (JsonSchema_GoType n) js)
                        (SortedKeys (props js))
                        ("struct {" +:+ nl, GlobalTypes);
              let src := src +:+ "}" in
              if nonempty name then
                let G := <[structPrefix +:+ name := src]> G in
                if collapse then Ok (structPrefix +:+ name, G) else Ok (src, G)
              else Ok (src, G)
          else Panic (UnknownTypeString t)
      | JArray t =>
          match t with
          | [t0] =>
              JsonSchema_GoType n (typeListNode (Title js) t0)
                                collapse GlobalTypes
          | _ => Ok ("interface{}", GlobalTypes)
          end
      | _ => Panic (UnknownType (Type_ js))
      end
  end.

(** The call [schema.GoType(true)] of [main] on the entry document. *)
Definition rootType (n : nat) (arg : string)
    : result (string * gmap string string) :=
  schema ← LoadRef arg zero;
  JsonSchema_GoType n schema true ∅.

(** [main] after the flags are parsed and the directory is changed:
    [arg] is the base name of the entry document, the result the lines
    printed. *)
Definition main (n : nat) (arg : string) : result (list string) :=
  '(_, GlobalTypes) ← rootType n arg;
  Ok (app (if nonempty packageName then ["package " +:+ packageName; ""] else [])
          (flat_map (fun name =>
                       [format_Source ("type " +:+ name +:+ " "
                                       +:+ default "" (GlobalTypes !! name)); ""])
                    (SortedKeys GlobalTypes))).

End structgen.

(** The panics of the resolver: a document that is missing or does not
    decode, a second reference, or a value of the wrong dynamic type in an
    [additionalProperties] description. *)
Definition resolverPanic (p : panic) : Prop :=
  match p with
  | RefNotFound _ | UnmarshalError _ | RefWithRef _
  | UnknownSchemaInterface _ | TypeAssertion _ => True
  | _ => False
  end.

(** The five scalar keywords of [GoType] and their Go types. *)
Definition scalarType (t : string) : option string :=
  if String.eqb t "any" then Some "interface{}"
  else if String.eqb t "boolean" then Some "bool"
  else if String.eqb t "integer" then Some "int64"
  else if String.eqb t "number" then Some "float64"
  else if String.eqb t "string" then Some "string"
  else None.

(** What [GoType] does with the result of a nested call: [prefix] is put
    before the type expression, the registry is passed on. *)
Definition wrapType (prefix : string) (r : result (string * gmap string string))
    : result (string * gmap string string) :=
  '(t, G) ← r; Ok (prefix +:+ t, G).

(** ** What a call does, whatever the bound

    [Resolves js r]: the call [js.LoadRef()] ends with [r], on a node that is
    then [js'] for [r = Ok js'], or in a panic.  [Synthesizes js c G r]: the
    call [js.GoType(c)] with registry [G] ends with [r], a type expression
    and the registry, or a panic. *)

Definition Resolves (ReadFile : string -> file) (js : JsonSchema)
    (r : result JsonSchema) : Prop :=
  r <> OutOfFuel /\ exists n, JsonSchema_LoadRef ReadFile n js = r.

Definition Synthesizes (ReadFile : string -> file) (structPrefix : string)
    (js : JsonSchema) (collapse : bool) (G : gmap string string)
    (r : result (string * gmap string string)) : Prop :=
  r <> OutOfFuel /\
  exists n, JsonSchema_GoType ReadFile structPrefix n js collapse G = r.

(** The text of a struct type with the fields [keys] of types [ts]. *)
Definition joinStrings (l : list string) : string := foldr String.append "" l.

Definition structBody (keys ts : list string) : string :=
  ("struct {" +:+ nl +:+ joinStrings (zip_with fieldDecl keys ts)) +:+ "}".

(** [FieldTypes js keys G ts G']: the children of [js] under [keys] are
    synthesized one after the other under [collapse] true, from registry [G]
    on; their types are [ts] and the last call leaves registry [G']. *)
Inductive FieldTypes (ReadFile : string -> file) (structPrefix : string)
    (js : JsonSchema)
    : list string -> gmap string string -> list string -> gmap string string -> Prop :=
| FieldTypes_nil G : FieldTypes ReadFile structPrefix js [] G [] G
| FieldTypes_cons k keys child t ts G G1 G2 :
    props js !! k = Some (Some child) ->
    Synthesizes ReadFile structPrefix child true G (Ok (t, G1)) ->
    FieldTypes ReadFile structPrefix js keys G1 ts G2 ->
    FieldTypes ReadFile structPrefix js (k :: keys) G (t :: ts) G2.

(** [MergedFrom js' js1 ext']: [js'] has title, type, items and properties
    of [js1], and those of [ext'] where [js1] has none. *)
Definition MergedFrom (js' js1 ext' : JsonSchema) : Prop :=
  Title js' = (if nonempty (Title js1) then Title js1 else Title ext') /\
  Type_ js' = match Type_ js1 with JNull => Type_ ext' | t => t end /\
  Items js' = match Items js1 with None => Items ext' | Some it => Some it end /\
  forall k, props js' !! k = match props js1 !! k with
                             | Some child => Some child
                             | None => props ext' !! k
                             end.

(** ** The bound on the call depth

    [r1 ⊑ r2]: [r2] is [r1], or [r1] ran into the bound.  A larger bound
    never changes a result that a smaller one has reached. *)

Definition below {A : Type} (r1 r2 : result A) : Prop :=
  r1 = OutOfFuel \/ r1 = r2.

Infix "⊑" := below (at level 70).

(** ** Statements that the program does not meet, as they are worded *)

(** A node whose synthesis is not the composite branch: a scalar keyword,
    an array, a type list, or an object without properties. *)
Definition nonComposite (js' : JsonSchema) : Prop :=
  (exists t g, Type_ js' = JString t /\ scalarType t = Some g) \/
  Type_ js' = JString "array" \/
  (exists l, Type_ js' = JArray l) \/
  (Type_ js' = JString "object" /\ props js' = ∅).

(** C10 as worded: the synthesis of such a node leaves the registry
    unchanged. *)
Definition C10_as_worded : Prop :=
  forall ReadFile structPrefix js js' c G t G',
    Resolves ReadFile js (Ok js') ->
    nonComposite js' ->
    Synthesizes ReadFile structPrefix js c G (Ok (t, G')) ->
    G' = G.

(** C3 as worded: a type list of one element is synthesized as the node
    itself with that element for its type, everything else kept; any other
    type list gives the untyped value type. *)
Definition C3_as_worded : Prop :=
  forall ReadFile structPrefix js js' c G l,
    Resolves ReadFile js (Ok js') ->
    Type_ js' = JArray l ->
    (forall t0, l = [t0] ->
       forall r, Synthesizes ReadFile structPrefix js c G r <->
                 Synthesizes ReadFile structPrefix (set_Type t0 js') c G r) /\
    (length l <> 1 ->
       Synthesizes ReadFile structPrefix js c G (Ok ("interface{}", G))).

(** C1 as worded: an entry that the registry holds under the name of a
    composite stays as it is when the composite is synthesized, and a
    composite with an empty title is returned as its body and leaves the
    registry to its fields. *)
Definition C1_as_worded : Prop :=
  forall ReadFile structPrefix js js' c G t G',
    Resolves ReadFile js (Ok js') ->
    Type_ js' = JString "object" ->
    props js' <> ∅ ->
    Synthesizes ReadFile structPrefix js c G (Ok (t, G')) ->
    (forall body,
       G !! (structPrefix +:+ Capitalize (Title js')) = Some body ->
       G' !! (structPrefix +:+ Capitalize (Title js')) = Some body) /\
    (Title js' = "" ->
       exists ts,
         FieldTypes ReadFile structPrefix js' (SortedKeys (props js')) G ts G' /\
         t = structBody (SortedKeys (props js')) ts).

(** C2 as worded: the entry document is synthesized with [collapse]
    false. *)
Definition C2_as_worded : Prop :=
  forall ReadFile structPrefix n arg schema,
    LoadRef ReadFile arg zero = Ok schema ->
    rootType ReadFile structPrefix n arg
      = JsonSchema_GoType ReadFile structPrefix n schema false ∅.



(** C9 as worded: the synthesis of a node that resolves to an array fails
    with a Schema Error if and only if the resolved node has no items; with
    items, a synthesis that returns gives the sequence of the type of the
    items. *)
Definition C9_as_worded : Prop :=
  forall ReadFile structPrefix js js' c G,
    Resolves ReadFile js (Ok js') ->
    Type_ js' = JString "array" ->
    ((exists p, Synthesizes ReadFile structPrefix js c G (Panic p) /\
                errorKind p = SchemaError)
     <-> Items js' = None) /\
    (forall items t G',
       Items js' = Some items ->
       Synthesizes ReadFile structPrefix js c G (Ok (t, G')) ->
       exists t0,
         Synthesizes ReadFile structPrefix items true G (Ok (t0, G')) /\
         t = "[]" +:+ t0).

(** ** Schemas used as examples *)

(** A schema set without files. *)
Definition noFiles : string -> file := fun _ => Unreadable.

(** [{"type": t}] *)
Definition ex_scalar (t : string) : JsonSchema := set_Type (JString t) zero.

(** [{"title": title, "type": "object", "properties": ps}] *)
Definition ex_object (title : string) (ps : list (string * JsonSchema)) : JsonSchema :=
  set_Title title
    (set_Type (JString "object")
       (set_Properties (Some (list_to_map (prod_map id Some <$> ps))) zero)).

(** [{"type": "array", "items": items}] *)
Definition ex_array (items : JsonSchema) : JsonSchema :=
  set_Type (JString "array") (set_Items (Some items) zero).

(** [{"title": "T", "type": "object", "properties": {"x": {"type": "string"}}}] *)
Definition ex_T_x : JsonSchema := ex_object "T" [("x", ex_scalar "string")].

(** [{"title": "T", "type": "object", "properties": {"y": {"type": "integer"}}}] *)
Definition ex_T_y : JsonSchema := ex_object "T" [("y", ex_scalar "integer")].

(** [{"title": "Foo", "type": ["object"],
      "properties": {"a": {"type": "string"}}}] *)
Definition ex_list_object : JsonSchema :=
  set_Type (JArray [JString "object"]) (ex_object "Foo" [("a", ex_scalar "string")]).

(** The key [a<TAB>b] and
    [{"type": "object", "properties": {"a<TAB>b": {"type": "string"}}}]. *)
Definition ex_tab_key : string :=
  String "a" (String (Ascii.ascii_of_nat 9) (String "b" "")).


(** The base and the child of the specification's example of [extends]:
    [{"title": "Base", "type": "object", "properties": {"a": integer}}] and
    [{"properties": {"a": string, "b": integer}, "extends": base}]. *)
Definition ex_base : JsonSchema := ex_object "Base" [("a", ex_scalar "integer")].

Definition ex_child : JsonSchema :=
  set_Extends (Some ex_base)
    (set_Properties
       (Some (list_to_map [("a", Some (ex_scalar "string"));
                           ("b", Some (ex_scalar "integer"))])) zero).

(** [{"type": "array", "extends": {"items": {"type": "integer"}}}] *)
Definition ex_array_by_extends : JsonSchema :=
  set_Extends (Some (set_Items (Some (ex_scalar "integer")) zero))
    (ex_scalar "array").

(** [{"type": "array"}] *)
Definition ex_array_no_items : JsonSchema := ex_scalar "array".

(** [{"type": "array", "items": {"type": "array"}}] *)
Definition ex_array_of_array : JsonSchema := ex_array ex_array_no_items.

(** [{"title": "M", "type": "object",
      "additionalProperties": {"type": "string"}}] *)
Definition ex_map : JsonSchema :=
  set_Title "M"
    (set_AdditionalInterface (JObject [("type", JString "string")])
       (ex_scalar "object")).

(** Three documents: a titled object, a string schema, and a document that
    only refers to the string schema. *)
Definition ex_files (path : string) : file :=
  if String.eqb path "root.json" then
    Document (JObject [("title", JString "Foo"); ("type", JString "object");
                       ("properties",
                        JObject [("a", JObject [("type", JString "string")])])])
  else if String.eqb path "str.json" then
    Document (JObject [("type", JString "string")])
  else if String.eqb path "hop.json" then
    Document (JObject [("$ref", JString "str.json")])
  else Unreadable.

(** [{"$ref": "str.json"}] and [{"$ref": "hop.json"}] *)
Definition ex_ref : JsonSchema := set_Ref "str.json" zero.
Definition ex_ref_hop : JsonSchema := set_Ref "hop.json" zero.

(** A node as the resolver leaves it when it has neither a reference nor an
    extended node nor an [additionalProperties] description. *)
Definition plain (js : JsonSchema) : JsonSchema :=
  set_AdditionalProperties None (makeProperties js).

(** [ex_child] and the other examples as the resolver leaves them. *)
Definition ex_child_resolved : JsonSchema :=
  mergeExtends (set_Extends (Some (plain ex_base)) (plain ex_child)) (plain ex_base).

Definition ex_array_by_extends_resolved : JsonSchema :=
  let ext := plain (set_Items (Some (ex_scalar "integer")) zero) in
  mergeExtends (set_Extends (Some ext) (plain ex_array_by_extends)) ext.

Definition ex_map_resolved : JsonSchema :=
  set_AdditionalProperties (Some (plain (ex_scalar "string")))
    (makeProperties ex_map).

(** [{"title": "Two", "type": "object",
      "properties": {"b": {"type": "integer"}, "a c": {"type": "string"}}}] *)
Definition ex_two : JsonSchema :=
  ex_object "Two" [("b", ex_scalar "integer"); ("a c", ex_scalar "string")].

(** The entry document ["root.json"] of [ex_files], decoded. *)
Definition ex_root : JsonSchema := ex_object "Foo" [("a", ex_scalar "string")].

(** The registry after [ex_T_x] has been synthesized. *)
Definition ex_registry_T_x : gmap string string :=
  {[ "JsonT" := structBody ["x"] ["string"] ]}.

(** * More of the program

    Definitions for the properties below that the specification does not
    state. *)

(** The bytes of a Go string. *)
Fixpoint bytes (s : string) : list ascii :=
  match s with
  | "" => []
  | String c s' => c :: bytes s'
  end.

(** The type keywords of [GoType]. *)
Definition typeKeywords : list string :=
  ["any"; "boolean"; "integer"; "number"; "string"; "array"; "object"].

(** The names that a registry holds. *)
Definition registered (G : gmap string string) (name : string) : Prop :=
  is_Some (G !! name).

(** The type expressions of [GoType]: the five scalar types, slices, maps
    with string keys, the names of structs, which are [declared], and
    struct bodies. *)
Inductive TypeExpr (declared : string -> Prop) (structPrefix : string)
    : string -> Prop :=
| TypeExpr_scalar t g :
    scalarType t = Some g -> TypeExpr declared structPrefix g
| TypeExpr_slice t :
    TypeExpr declared structPrefix t ->
    TypeExpr declared structPrefix ("[]" +:+ t)
| TypeExpr_map t :
    TypeExpr declared structPrefix t ->
    TypeExpr declared structPrefix ("map[string]" +:+ t)
| TypeExpr_name title :
    nonempty (Capitalize title) = true ->
    declared (structPrefix +:+ Capitalize title) ->
    TypeExpr declared structPrefix (structPrefix +:+ Capitalize title)
| TypeExpr_struct keys ts :
    keys <> [] -> length ts = length keys ->
    Forall (TypeExpr declared structPrefix) ts ->
    TypeExpr declared structPrefix (structBody keys ts).

(** An entry as [GoType] writes it to the registry: a struct body with at
    least one field, under the prefixed capitalized title, which is not
    empty. *)
Definition Declared (declared : string -> Prop)
    (structPrefix name body : string) : Prop :=
  exists title keys ts,
    nonempty (Capitalize title) = true /\
    name = structPrefix +:+ Capitalize title /\
    keys <> [] /\ length ts = length keys /\
    Forall (TypeExpr declared structPrefix) ts /\
    body = structBody keys ts.

(** What a call of [GoType] keeps when it returns the type expression [t]
    and leaves the registry [G'], called with the registry [G]: the names
    of [G] are names of [G']; [t] is a type expression over the names of
    [G']; and an entry of [G'] is an entry of [G] or an entry as [GoType]
    writes it, over the names of [G']. *)
Definition RegistryKept (structPrefix : string) (G : gmap string string)
    (t : string) (G' : gmap string string) : Prop :=
  (forall name, registered G name -> registered G' name) /\
  TypeExpr (registered G') structPrefix t /\
  (forall name body,
     G' !! name = Some body ->
     G !! name = Some body \/ Declared (registered G') structPrefix name body).

(** [sameRun r1 r2]: the two runs end alike and leave one registry; the
    type expression of the first is that of the second, or a name under
    which the registry holds it. *)
Definition sameRun (r1 r2 : result (string * gmap string string)) : Prop :=
  match r1, r2 with
  | Ok (t1, G1), Ok (t2, G2) => G1 = G2 /\ (t1 = t2 \/ G1 !! t1 = Some t2)
  | Panic p, Panic q => p = q
  | OutOfFuel, OutOfFuel => True
  | _, _ => False
  end.

(** The panics of the synthesizer. *)
Definition synthesizerPanic (p : panic) : Prop :=
  match p with
  | NoArrayItems js => Type_ js = JString "array" /\ Items js = None
  | UnknownTypeString t => t ∉ typeKeywords
  | UnknownType (JString _) | UnknownType (JArray _) => False
  | UnknownType _ => True
  | NilDereference => True
  | p => resolverPanic p
  end.

(** [Ancestor js a]: [a] is the node that [js] extends, or the node that
    one extends, and so on. *)
Inductive Ancestor : JsonSchema -> JsonSchema -> Prop :=
| Ancestor_parent js e : Extends js = Some e -> Ancestor js e
| Ancestor_up js e a : Extends js = Some e -> Ancestor e a -> Ancestor js a.

(** The values that are no schema description: a string, a number or an
    array. *)
Definition noDescription (i : json) : Prop :=
  match i with
  | JString _ | JNumber _ | JArray _ => True
  | _ => False
  end.


(** The nesting depth of a decoded value. *)
Fixpoint jdepth (j : json) : nat :=
  match j with
  | JArray l => S (foldr (fun e acc => Nat.max (jdepth e) acc) 0 l)
  | JObject m => S (foldr (fun kv acc => Nat.max (jdepth (snd kv)) acc) 0 m)
  | _ => 0
  end.

(** No object of the value has a member named ["$ref"]. *)
Fixpoint noRefKey (j : json) : bool :=
  match j with
  | JArray l => forallb noRefKey l
  | JObject m =>
      forallb (fun kv => negb (String.eqb (fst kv) "$ref") && noRefKey (snd kv)) m
  | _ => true
  end.

(** A measure and a test on a pointer to a node: nil counts 0 and passes. *)
Definition depthOpt (d : JsonSchema -> nat) (o : option JsonSchema) : nat :=
  match o with Some js => d js | None => 0 end.

Definition allOpt (p : JsonSchema -> bool) (o : option JsonSchema) : bool :=
  match o with Some js => p js | None => true end.

(** The depth of a schema tree: the nodes below a node are the node it
    extends, its properties, its items and its [additionalProperties]
    node; the type and the [additionalProperties] description count with
    their nesting depth. *)
Fixpoint depth (js : JsonSchema) : nat :=
  S (Nat.max (jdepth (Type_ js))
    (Nat.max (jdepth (AdditionalInterface js))
    (Nat.max (depthOpt depth (Extends js))
    (Nat.max (depthOpt depth (Items js))
    (Nat.max (depthOpt depth (AdditionalProperties js))
             match Properties js with
             | Some ps =>
                 map_fold (fun _ c acc => Nat.max (depthOpt depth c) acc) 0 ps
             | None => 0
             end))))).

(** No node of the tree has a reference, and no description in it
    mentions one. *)
Fixpoint refFree (js : JsonSchema) : bool :=
  negb (nonempty (Ref js)) &&
  noRefKey (AdditionalInterface js) &&
  allOpt refFree (Extends js) &&
  allOpt refFree (Items js) &&
  allOpt refFree (AdditionalProperties js) &&
  match Properties js with
  | Some ps => map_fold (fun _ c acc => allOpt refFree c && acc) true ps
  | None => true
  end.

(** Lines 252 to 271 of [SchemaFromInterface]: the node made of the
    description [m], before [LoadRef] is called on it. *)
Definition descriptionNode (ReadFile : string -> file) (n : nat)
    (m : list (string * json)) : result JsonSchema :=
  extends ← SchemaFromInterface ReadFile n (index m "extends");
  items ← SchemaFromInterface ReadFile n (index m "items");
  let out := set_Type (index m "type")
               (set_Extends extends (set_Items items zero)) in
  out ← match lookupMember m "$ref" with
        | Some str => s ← assertString str; Ok (set_Ref s out)
        | None => Ok out
        end;
  out ← match lookupMember m "title" with
        | Some str => s ← assertString str; Ok (set_Title s out)
        | None => Ok out
        end;
  out ← match lookupMember m "description" with
        | Some str => s ← assertString str; Ok (set_Description s out)
        | None => Ok out
        end;
  match lookupMember m "properties" with
  | Some prop =>
      pm ← assertMap prop;
      ps ← forEach (fun kv (ps : gmap string (option JsonSchema)) =>
                      c ← SchemaFromInterface ReadFile n (snd kv);
                      Ok (<[fst kv := c]> ps))
                   (mapEntries pm) ∅;
      Ok (set_Properties (Some ps) out)
  | None => Ok out
  end.

(** The document [{"type": "array", "items": {"$ref": ref}}], which refers
    to the file it is in when that file is [ref], and a file set in which
    ["loop.json"] is that document. *)
Definition ex_loop_document (ref : string) : json :=
  JObject [("type", JString "array"); ("items", JObject [("$ref", JString ref)])].

Definition ex_loop_files (path : string) : file :=
  if String.eqb path "loop.json" then Document (ex_loop_document "loop.json")
  else Unreadable.

(** The registry [G] after the entries [W] are written to it, one after
    the other. *)
Definition writes (W : list (string * string)) (G : gmap string string)
    : gmap string string :=
  foldl (fun G kv => <[fst kv := snd kv]> G) G W.

(** [sameWrites r W f]: the run [r] returned and wrote [W], and [f] gives,
    for a registry, the same type expression and the registry with [W]
    written to it; or [r] did not return and [f] ends as [r] did. *)
Definition sameWrites {A : Type} (r : result (A * gmap string string))
    (f : gmap string string -> result (A * gmap string string)) : Prop :=
  match r with
  | Ok (a, _) => exists W, forall G0, f G0 = Ok (a, writes W G0)
  | Panic p => forall G0, f G0 = Panic p
  | OutOfFuel => forall G0, f G0 = OutOfFuel
  end.

(** ** More schemas used as examples *)

(** [{"type": "String"}]: the keyword with a capital letter. *)
Definition ex_unknown_keyword : JsonSchema := ex_scalar "String".

(** [{"type": "object", "properties": {"a": null}}] *)
Definition ex_nil_property : JsonSchema :=
  set_Type (JString "object") (set_Properties (Some {[ "a" := None ]}) zero).

(** [{"type": ["array"], "items": {"type": "string"}}] *)
Definition ex_list_array : JsonSchema :=
  set_Type (JArray [JString "array"]) (ex_array (ex_scalar "string")).

(** [{"properties": {"c": {"type": "boolean"}}, "extends": child}], with
    the child [ex_child] that extends [ex_base], and the node as the
    resolver leaves it. *)
Definition ex_grandchild : JsonSchema :=
  set_Extends (Some ex_child)
    (set_Properties (Some {[ "c" := Some (ex_scalar "boolean") ]}) zero).

Definition ex_grandchild_resolved : JsonSchema :=
  mergeExtends (set_Extends (Some ex_child_resolved) (plain ex_grandchild))
    ex_child_resolved.

(** The description
    [{"type": "object", "additionalProperties": {"type": "string"}}]. *)
Definition ex_nested_description : list (string * json) :=
  [("type", JString "object");
   ("additionalProperties", JObject [("type", JString "string")])].

(** [{"type": "object", "additionalProperties": "x"}] *)
Definition ex_bad_additional : JsonSchema :=
  set_AdditionalInterface (JString "x") (ex_scalar "object").

(** [{"$ref": "str.json", "title": "Mine"}], the reference taken out. *)
Definition ex_titled : JsonSchema := set_Title "Mine" zero.

(** The member name [item] followed by the long s, U+017F. *)
Definition ex_long_s_key : string :=
  "item" +:+ String (ascii_of_nat 197) (String (ascii_of_nat 191) "").

(** ["fold.json"] has the one member [ex_long_s_key] with the value
    [{"type": "string"}]; ["big.json"] is [{"type": 1e999}]. *)
Definition ex_decoder_files : string -> file := fun name =>
  if String.eqb name "fold.json" then
    Document (JObject [(ex_long_s_key, JObject [("type", JString "string")])])
  else if String.eqb name "big.json" then
    Document (JObject [("type", JNumber "1e999")])
  else Unreadable.

(** * Properties *)

Lemma below_refl {A} (r : result A) : r ⊑ r.
Proof. by right. Qed.

Lemma below_bind {A B} (m m' : result A) (k k' : A -> result B) :
  m ⊑ m' -> (forall a, k a ⊑ k' a) -> (m ≫= k) ⊑ (m' ≫= k').
Proof.
  intros [->| ->] Hk; [by left |].
  destruct m' as [a| |]; [apply Hk | by right | by left].
Qed.

Lemma forEach_below {A S} (f f' : A -> S -> result S) l s :
  (forall a s, f a s ⊑ f' a s) -> forEach f l s ⊑ forEach f' l s.
Proof.
  intros Hf. revert s. induction l as [|a l IH]; intros s; simpl.
  - apply below_refl.
  - apply below_bind; [apply Hf | apply IH].
Qed.

Ltac below_step :=
  match goal with
  | |- ?r ⊑ ?r => apply below_refl
  | |- (_ ≫= _) ⊑ (_ ≫= _) => apply below_bind; [| intros ?]
  | |- forEach _ _ _ ⊑ forEach _ _ _ =>
      apply forEach_below; intros ? ?; unfold structField
  | |- (let '(_, _) := ?p in _) ⊑ _ => destruct p
  | |- (match ?x with _ => _ end) ⊑ (match ?x with _ => _ end) => destruct x
  | |- (if ?b then _ else _) ⊑ (if ?b then _ else _) => destruct b
  end.

(** ** The order of [sort.Strings] *)

Lemma string_compare_le_trans s1 s2 s3 :
  String.compare s1 s2 <> Gt -> String.compare s2 s3 <> Gt ->
  String.compare s1 s3 <> Gt.
Proof.
  revert s2 s3. induction s1 as [|a s1 IH]; intros [|b s2] [|c s3]; simpl; try done.
  unfold Ascii.compare.
  destruct (N.compare_spec (N_of_ascii a) (N_of_ascii b)) as [Hab|Hab|Hab];
    destruct (N.compare_spec (N_of_ascii b) (N_of_ascii c)) as [Hbc|Hbc|Hbc];
    destruct (N.compare_spec (N_of_ascii a) (N_of_ascii c)) as [Hac|Hac|Hac];
    try done; try lia.
  apply IH.
Qed.

#[global] Instance string_le_trans : Transitive string_le.
Proof.
  intros s1 s2 s3. unfold string_le, String.leb. intros H12 H23.
  pose proof (string_compare_le_trans s1 s2 s3) as H.
  destruct (String.compare s1 s2), (String.compare s2 s3),
    (String.compare s1 s3); try done; exfalso; by apply H.
Qed.

#[global] Instance string_le_total : Total string_le.
Proof. intros s1 s2. apply String.leb_total. Qed.

#[global] Instance string_le_antisym : AntiSymm (=) string_le.
Proof. intros s1 s2. apply String.leb_antisym. Qed.

Lemma sortStrings_Sorted l : Sorted string_le (sortStrings l).
Proof. apply (Sorted_merge_sort string_le). Qed.

Lemma sortStrings_Permutation l : sortStrings l ≡ₚ l.
Proof. apply (merge_sort_Permutation string_le). Qed.

(** The sorted slice does not depend on the order in which the keys came. *)
Lemma sortStrings_unique l1 l2 : l1 ≡ₚ l2 -> sortStrings l1 = sortStrings l2.
Proof.
  intros Hp. apply (Sorted_unique string_le); try apply sortStrings_Sorted.
  by rewrite !sortStrings_Permutation.
Qed.

Lemma MapKeys_NoDup {V} (m : gmap string V) : NoDup (MapKeys m).
Proof. apply NoDup_fst_map_to_list. Qed.

Lemma MapKeys_elem {V} (m : gmap string V) k : k ∈ MapKeys m <-> is_Some (m !! k).
Proof.
  unfold MapKeys. rewrite list_elem_of_fmap. split.
  - intros [[k' v] [-> Hin]]. apply elem_of_map_to_list in Hin. by exists v.
  - intros [v Hv]. exists (k, v). split; [done |]. by apply elem_of_map_to_list.
Qed.

Lemma SortedKeys_Permutation {V} (m : gmap string V) : SortedKeys m ≡ₚ MapKeys m.
Proof. apply sortStrings_Permutation. Qed.

Lemma SortedKeys_elem {V} (m : gmap string V) k :
  k ∈ SortedKeys m <-> is_Some (m !! k).
Proof. by rewrite SortedKeys_Permutation, MapKeys_elem. Qed.

Lemma SortedKeys_NoDup {V} (m : gmap string V) : NoDup (SortedKeys m).
Proof. rewrite SortedKeys_Permutation. apply MapKeys_NoDup. Qed.

Lemma SortedKeys_Sorted {V} (m : gmap string V) : Sorted string_le (SortedKeys m).
Proof. apply sortStrings_Sorted. Qed.

(** Keys are distinct, so the ascending order is strict. *)
Lemma SortedKeys_ascending {V} (m : gmap string V) :
  StronglySorted (fun k1 k2 => String.ltb k1 k2 = true) (SortedKeys m).
Proof.
  pose proof (SortedKeys_NoDup m) as Hnd.
  pose proof (Sorted_StronglySorted string_le _ (SortedKeys_Sorted m)) as Hs.
  induction Hs as [|k l Hs IH Hall]; [constructor |].
  apply NoDup_cons in Hnd as [Hk Hnd]. constructor; [by apply IH |].
  rewrite Forall_forall in Hall |- *. intros k' Hin.
  specialize (Hall k' Hin). unfold string_le, String.leb in Hall.
  unfold String.ltb. destruct (String.compare k k') eqn:Hc; try done.
  apply String.compare_eq_iff in Hc. by subst.
Qed.

(** ** Outcomes of sequenced calls *)

Lemma bind_Ok_inv {A B} (m : result A) (k : A -> result B) b :
  m ≫= k = Ok b -> exists a, m = Ok a /\ k a = Ok b.
Proof. destruct m as [a| |]; [by exists a | done | done]. Qed.

Lemma bind_Panic_inv {A B} (m : result A) (k : A -> result B) p :
  m ≫= k = Panic p -> m = Panic p \/ exists a, m = Ok a /\ k a = Panic p.
Proof.
  destruct m as [a| |]; simpl; [right; by exists a | intros [= <-]; by left | done].
Qed.

Lemma forEach_Panic_inv {A S} (f : A -> S -> result S) l s p :
  forEach f l s = Panic p -> exists a s', a ∈ l /\ f a s' = Panic p.
Proof.
  revert s. induction l as [|a l IH]; intros s; simpl; [done |].
  intros [H|(s' & _ & H)]%bind_Panic_inv.
  - exists a, s. split; [by left | done].
  - destruct (IH _ H) as (a' & s'' & Hin & Hp). exists a', s''. split; [by right | done].
Qed.

Lemma wrapType_OutOfFuel prefix r : wrapType prefix r = OutOfFuel <-> r = OutOfFuel.
Proof. by destruct r as [[t G]| |]. Qed.

Lemma wrapType_Ok prefix r s G :
  wrapType prefix r = Ok (s, G) <-> exists t, r = Ok (t, G) /\ s = prefix +:+ t.
Proof.
  destruct r as [[t G']| |]; simpl; split; try done.
  - intros [= <- <-]. by exists t.
  - by intros (t' & [= <- <-] & ->).
  - by intros (? & ? & _).
  - by intros (? & ? & _).
Qed.

Lemma wrapType_Panic prefix r p : wrapType prefix r = Panic p <-> r = Panic p.
Proof. by destruct r as [[t G]| |]. Qed.

(** ** Appending strings *)

Lemma append_assoc (s1 s2 s3 : string) : (s1 +:+ s2) +:+ s3 = s1 +:+ (s2 +:+ s3).
Proof.
  induction s1 as [|a s1 IH]; [done |].
  change (String a ((s1 +:+ s2) +:+ s3) = String a (s1 +:+ (s2 +:+ s3))).
  by rewrite IH.
Qed.

Lemma append_nil_r (s : string) : s +:+ "" = s.
Proof.
  induction s as [|a s IH]; [done |].
  change (String a (s +:+ "") = String a s). by rewrite IH.
Qed.

(** ** [Capitalize] *)

Lemma Capitalize_foldl_app (out : string) (l : list string) :
  foldl (fun out word => if nonempty word then out +:+ upperFirst word else out)
        out l
  = out +:+ foldl (fun out word =>
                     if nonempty word then out +:+ upperFirst word else out)
                  "" l.
Proof.
  revert out. induction l as [|w l IH]; intros out; simpl.
  - by rewrite append_nil_r.
  - rewrite IH. rewrite (IH (if nonempty w then _ else _)).
    destruct (nonempty w); [| done]. by rewrite append_assoc.
Qed.

Lemma Split_capitalizeWords s w ws :
  Split s = w :: ws ->
  capitalizeWords isSpace false s
    = w +:+ foldl (fun out word =>
                     if nonempty word then out +:+ upperFirst word else out)
                  "" ws /\
  capitalizeWords isSpace true s
    = foldl (fun out word =>
               if nonempty word then out +:+ upperFirst word else out)
            "" (w :: ws).
Proof.
  revert w ws. induction s as [|c s IH]; intros w ws; simpl.
  - by intros [= <- <-].
  - destruct (isSpace c).
    + intros [= <- <-]. destruct (Split s) as [|w' ws'] eqn:Hs.
      { by destruct s as [|c' s']; simpl in Hs; [| destruct (isSpace _), (Split s')]. }
      destruct (IH _ _ eq_refl) as [_ IHt]. by rewrite IHt.
    + destruct (Split s) as [|w' ws'] eqn:Hs.
      { by destruct s as [|c' s']; simpl in Hs; [| destruct (isSpace _), (Split s')]. }
      intros [= <- <-]. destruct (IH _ _ eq_refl) as [IHf _]. rewrite IHf. split.
      * done.
      * simpl. change ("" +:+ ToUpper1 c +:+ w') with (ToUpper1 c +:+ w').
        rewrite (Capitalize_foldl_app (ToUpper1 c +:+ w')).
        by rewrite append_assoc.
Qed.

(** [Capitalize] upper-cases the first byte of every word between spaces
    and puts the words together. *)
Lemma Capitalize_capitalizeWords s : Capitalize s = capitalizeWords isSpace true s.
Proof.
  unfold Capitalize. destruct (Split s) as [|w ws] eqn:Hs.
  - by destruct s as [|c' s']; simpl in Hs; [| destruct (isSpace _), (Split s')].
  - by destruct (Split_capitalizeWords _ _ _ Hs) as [_ ->].
Qed.

(** ** Fields of updated nodes *)

Lemma makeProperties_id js m : Properties js = Some m -> makeProperties js = js.
Proof. unfold makeProperties. by intros ->. Qed.

(** The loop over the properties of the extended node adds what the node
    lacks: the union of the two maps in which the node's own entries win. *)
Lemma merge_fold_union {V} (own ext : gmap string V) :
  map_fold (fun k v (own : gmap string V) =>
              match own !! k with
              | Some _ => own
              | None => <[k := v]> own
              end) own ext = own ∪ ext.
Proof.
  apply (map_fold_weak_ind (fun r m => r = own ∪ m)).
  - by rewrite (right_id_L ∅ (∪)).
  - intros k v m r Hk ->. rewrite lookup_union, Hk, (right_id_L None (∪)).
    destruct (own !! k) as [w|] eqn:Hown.
    + apply map_eq. intros k'. rewrite !lookup_union.
      destruct (decide (k = k')) as [<-|Hne].
      * by rewrite Hown, Hk, lookup_insert_eq.
      * by rewrite lookup_insert_ne.
    + by apply insert_union_r.
Qed.

Lemma Properties_mergeExtends js ext :
  Properties (mergeExtends js ext) = Some (props js ∪ props ext).
Proof.
  unfold mergeExtends. rewrite merge_fold_union.
  destruct js as [? ? t ty ? ? ps ? ? it]; unfold props; simpl.
  by destruct (nonempty t), ty, it.
Qed.

Lemma Title_mergeExtends js ext :
  Title (mergeExtends js ext) = if nonempty (Title js) then Title js else Title ext.
Proof.
  unfold mergeExtends.
  destruct js as [? ? t ty ? ? ps ? ? it]; simpl.
  by destruct (nonempty t), ty, it.
Qed.

Lemma Type_mergeExtends js ext :
  Type_ (mergeExtends js ext) =
    match Type_ js with JNull => Type_ ext | t => t end.
Proof.
  unfold mergeExtends.
  destruct js as [? ? t ty ? ? ps ? ? it]; simpl.
  by destruct (nonempty t), ty, it.
Qed.

Lemma Items_mergeExtends js ext :
  Items (mergeExtends js ext) =
    match Items js with None => Items ext | Some it => Some it end.
Proof.
  unfold mergeExtends.
  destruct js as [? ? t ty ? ? ps ? ? it]; simpl.
  by destruct (nonempty t), ty, it.
Qed.

(** The merge touches nothing but title, type, items and properties. *)
Lemma mergeExtends_frame js ext :
  Schema (mergeExtends js ext) = Schema js /\
  Ref (mergeExtends js ext) = Ref js /\
  Description (mergeExtends js ext) = Description js /\
  Extends (mergeExtends js ext) = Extends js /\
  AdditionalInterface (mergeExtends js ext) = AdditionalInterface js /\
  AdditionalProperties (mergeExtends js ext) = AdditionalProperties js.
Proof.
  unfold mergeExtends.
  destruct js as [? ? t ty ? ? ps ? ? it]; simpl.
  by destruct (nonempty t), ty, it.
Qed.

Lemma JsonSchema_eq js1 js2 :
  Schema js1 = Schema js2 -> Ref js1 = Ref js2 -> Title js1 = Title js2 ->
  Type_ js1 = Type_ js2 -> Description js1 = Description js2 ->
  Extends js1 = Extends js2 -> Properties js1 = Properties js2 ->
  AdditionalInterface js1 = AdditionalInterface js2 ->
  AdditionalProperties js1 = AdditionalProperties js2 ->
  Items js1 = Items js2 -> js1 = js2.
Proof. destruct js1, js2; simpl; congruence. Qed.

(** Merging a second time with the same extended node changes nothing. *)
Lemma mergeExtends_idemp js ext :
  mergeExtends (mergeExtends js ext) ext = mergeExtends js ext.
Proof.
  destruct (mergeExtends_frame (mergeExtends js ext) ext) as (?&?&?&?&?&?).
  apply JsonSchema_eq; try done.
  - rewrite !Title_mergeExtends.
    destruct (nonempty (Title js)) eqn:Ht; [by rewrite Ht |].
    by destruct (nonempty (Title ext)).
  - rewrite !Type_mergeExtends. destruct (Type_ js); try done. by destruct (Type_ ext).
  - rewrite !Properties_mergeExtends. f_equal. unfold props at 1.
    rewrite Properties_mergeExtends. simpl.
    apply map_eq. intros k. rewrite !lookup_union.
    by destruct (props js !! k), (props ext !! k).
  - rewrite !Items_mergeExtends. destruct (Items js); [done |]. by destruct (Items ext).
Qed.

(** A node on which steps 1 to 4 of the resolver have run: its map is
    made and its [AdditionalProperties] is set. *)
Lemma prepared_fields ap js :
  let js' := set_AdditionalProperties ap (makeProperties js) in
  Schema js' = Schema js /\ Ref js' = Ref js /\ Title js' = Title js /\
  Type_ js' = Type_ js /\ Description js' = Description js /\
  Extends js' = Extends js /\ Properties js' = Some (props js) /\
  AdditionalInterface js' = AdditionalInterface js /\
  AdditionalProperties js' = ap /\ Items js' = Items js.
Proof. unfold makeProperties, props. by destruct js as [? ? ? ? ? ? [?|] ? ? ?]. Qed.

Lemma set_Extends_fields e js :
  let js' := set_Extends e js in
  Schema js' = Schema js /\ Ref js' = Ref js /\ Title js' = Title js /\
  Type_ js' = Type_ js /\ Description js' = Description js /\
  Extends js' = e /\ Properties js' = Properties js /\
  AdditionalInterface js' = AdditionalInterface js /\
  AdditionalProperties js' = AdditionalProperties js /\ Items js' = Items js.
Proof. by destruct js. Qed.

Lemma set_AdditionalProperties_id ap js :
  AdditionalProperties js = ap -> set_AdditionalProperties ap js = js.
Proof. destruct js; simpl. by intros ->. Qed.

Lemma set_Extends_id e js : Extends js = e -> set_Extends e js = js.
Proof. destruct js; simpl. by intros ->. Qed.

Lemma props_set_Extends e js : props (set_Extends e js) = props js.
Proof. by destruct js. Qed.

Lemma props_prepared ap js :
  props (set_AdditionalProperties ap (makeProperties js)) = props js.
Proof. unfold makeProperties, props. by destruct js as [? ? ? ? ? ? [?|] ? ? ?]. Qed.

(** ** The reference that a decoded document leaves *)

Lemma decodeMember_Ref U k v js js' :
  decodeMember U k v js = Some js' ->
  Ref js' = match fieldOf k, v with
            | Some F_ref, JString s => s
            | _, _ => Ref js
            end.
Proof.
  unfold decodeMember. destruct (fieldOf k) as [[]|]; intros H;
    repeat match goal with
      | H : Some _ = Some _ |- _ => injection H as <-
      | H : None = Some _ |- _ => discriminate H
      | H : _ ≫= _ = Some _ |- _ =>
          apply bind_Some in H as (? & ? & H)
      | H : decodeString ?v _ = Some _ |- _ => destruct v; simpl in H
      | H : match ?v with _ => _ end = Some _ |- _ => destruct v
      end; by destruct js.
Qed.

Lemma Unmarshal_Ref m js js' :
  Unmarshal (JObject m) js = Some js' -> Ref js' = documentRef m (Ref js).
Proof.
  revert js. induction m as [|[k v] m IH]; intros js; simpl.
  - by intros [= <-].
  - intros (js1 & Hmem & Hrest)%bind_Some.
    apply decodeMember_Ref in Hmem. rewrite <- Hmem. by apply IH.
Qed.

Section structgen_facts.

Variable ReadFile : string -> file.
Variable structPrefix : string.
Variable packageName : string.
Variable format_Source : string -> string.

(** The specification's names for the two methods, over the files and
    the prefix of the section. *)
Local Abbreviation resolve := (JsonSchema_LoadRef ReadFile).
Local Abbreviation fromInterface := (SchemaFromInterface ReadFile).
Local Abbreviation typeOf := (JsonSchema_GoType ReadFile structPrefix).

Lemma resolve_fuel_mono n :
  (forall m js, n <= m -> resolve n js ⊑ resolve m js) /\
  (forall m i, n <= m -> fromInterface n i ⊑ fromInterface m i).
Proof.
  induction n as [|n [IHl IHs]]; [split; intros; by left |].
  split; intros [|m] x Hle; try lia;
    cbn [JsonSchema_LoadRef SchemaFromInterface];
    repeat first [ below_step | apply IHl; lia | apply IHs; lia ].
Qed.

Lemma resolve_mono n m js : n <= m -> resolve n js ⊑ resolve m js.
Proof. apply resolve_fuel_mono. Qed.


Lemma typeOf_mono n m js collapse G :
  n <= m -> typeOf n js collapse G ⊑ typeOf m js collapse G.
Proof.
  revert m js collapse G.
  induction n as [|n IH]; intros m js collapse G Hle; [by left |].
  destruct m as [|m]; [lia |].
  cbn [JsonSchema_GoType].
  repeat first [ below_step | apply resolve_mono; lia | apply IH; lia ].
Qed.

(** *** The resolver *)

Lemma resolveRef_Ref js js1 : resolveRef ReadFile js = Ok js1 -> Ref js1 = "".
Proof.
  unfold resolveRef. intros (a & _ & H)%bind_Ok_inv.
  destruct (nonempty (Ref a)) eqn:Href; [done |].
  injection H as <-. by destruct (Ref a).
Qed.

Lemma resolveRef_id js : Ref js = "" -> resolveRef ReadFile js = Ok js.
Proof. unfold resolveRef. intros Href. rewrite Href. simpl. by rewrite Href. Qed.

(** One call of the resolver, in terms of the calls it makes. *)
Lemma resolve_S n js :
  resolve (S n) js =
    js1 ← resolveRef ReadFile js;
    ap ← fromInterface n (AdditionalInterface js1);
    let js2 := set_AdditionalProperties ap (makeProperties js1) in
    match Extends js1 with
    | None => Ok js2
    | Some ext =>
        ext' ← resolve n ext;
        Ok (mergeExtends (set_Extends (Some ext') js2) ext')
    end.
Proof.
  cbn [JsonSchema_LoadRef].
  destruct (resolveRef ReadFile js) as [js1| |]; [| done | done]. simpl.
  destruct (prepared_fields None js1) as (_&_&_&_&_&_&_&HAI&_).
  replace (AdditionalInterface (makeProperties js1))
    with (AdditionalInterface js1)
    by (unfold makeProperties; by destruct js1 as [? ? ? ? ? ? [?|] ? ? ?]).
  destruct (fromInterface n (AdditionalInterface js1)) as [ap| |]; [| done | done].
  simpl. destruct (prepared_fields ap js1) as (_&_&_&_&_&->&_). done.
Qed.

Lemma resolve_Ok_inv n js js' :
  resolve n js = Ok js' ->
  exists n' js1 ap,
    n = S n' /\ resolveRef ReadFile js = Ok js1 /\
    fromInterface n' (AdditionalInterface js1) = Ok ap /\
    match Extends js1 with
    | None => js' = set_AdditionalProperties ap (makeProperties js1)
    | Some ext =>
        exists ext',
          resolve n' ext = Ok ext' /\
          js' = mergeExtends
                  (set_Extends (Some ext')
                     (set_AdditionalProperties ap (makeProperties js1))) ext'
    end.
Proof.
  destruct n as [|n]; [done |]. rewrite resolve_S.
  intros (js1 & Hjs1 & (ap & Hap & H)%bind_Ok_inv)%bind_Ok_inv.
  exists n, js1, ap. repeat split; try done.
  destruct (Extends js1) as [ext|].
  - apply bind_Ok_inv in H as (ext' & Hext & [= <-]). by exists ext'.
  - by injection H as <-.
Qed.

(** After a call that returns, [Ref] is empty, the map of properties is
    made, and [AdditionalProperties] is what [SchemaFromInterface] makes
    of [AdditionalInterface]. *)
Lemma resolve_Ref n js js' : resolve n js = Ok js' -> Ref js' = "".
Proof.
  intros (n' & js1 & ap & -> & Hjs1 & Hap & H)%resolve_Ok_inv.
  apply resolveRef_Ref in Hjs1.
  destruct (prepared_fields ap js1) as (_&Href&_).
  destruct (Extends js1) as [ext|].
  - destruct H as (ext' & _ & ->).
    destruct (mergeExtends_frame
                (set_Extends (Some ext')
                   (set_AdditionalProperties ap (makeProperties js1))) ext')
      as (_&->&_).
    destruct (set_Extends_fields (Some ext')
                (set_AdditionalProperties ap (makeProperties js1)))
      as (_&->&_). congruence.
  - subst js'. congruence.
Qed.

Lemma resolve_Properties n js js' :
  resolve n js = Ok js' -> Properties js' = Some (props js').
Proof.
  intros (n' & js1 & ap & -> & Hjs1 & Hap & H)%resolve_Ok_inv.
  destruct (Extends js1) as [ext|].
  - destruct H as (ext' & _ & ->). unfold props.
    by rewrite Properties_mergeExtends.
  - subst js'. unfold props.
    by destruct (prepared_fields ap js1) as (_&_&_&_&_&_&->&_).
Qed.

Lemma resolve_idempotent n js js' :
  resolve n js = Ok js' -> resolve n js' = Ok js'.
Proof.
  revert js js'. induction n as [|n IH]; intros js js' Hres; [done |].
  pose proof (resolve_Ref _ _ _ Hres) as Href.
  pose proof (resolve_Properties _ _ _ Hres) as Hprops.
  apply resolve_Ok_inv in Hres as (n' & js1 & ap & [= <-] & Hjs1 & Hap & H).
  set (js2 := set_AdditionalProperties ap (makeProperties js1)) in *.
  destruct (prepared_fields ap js1) as (_&_&_&_&_&Hext2&_&HAI2&HAP2&_).
  fold js2 in Hext2, HAI2, HAP2.
  rewrite resolve_S, (resolveRef_id js') by done. simpl.
  rewrite (makeProperties_id js' _ Hprops).
  destruct (Extends js1) as [ext|].
  - destruct H as (ext' & Hext & ->).
    set (js3 := set_Extends (Some ext') js2) in *.
    destruct (set_Extends_fields (Some ext') js2) as (_&_&_&_&_&Hext3&_&HAI3&HAP3&_).
    fold js3 in Hext3, HAI3, HAP3.
    destruct (mergeExtends_frame js3 ext') as (_&_&_&Hext4&HAI4&HAP4).
    rewrite HAI4, HAI3, HAI2, Hap. simpl.
    rewrite Hext4, Hext3, (IH _ _ Hext). simpl.
    rewrite set_AdditionalProperties_id by congruence.
    rewrite set_Extends_id by congruence.
    by rewrite mergeExtends_idemp.
  - subst js'. rewrite HAI2, Hap. simpl. rewrite Hext2.
    by rewrite set_AdditionalProperties_id.
Qed.

(** *** One call of the synthesizer, case by case

    [js'] is the receiver as [LoadRef] leaves it. *)

Lemma typeOf_scalar n js js' c G t g :
  resolve n js = Ok js' -> Type_ js' = JString t -> scalarType t = Some g ->
  typeOf (S n) js c G = Ok (g, G).
Proof.
  intros Hres Hty Hg. cbn [JsonSchema_GoType]. rewrite Hres. simpl. rewrite Hty.
  unfold scalarType in Hg.
  repeat (destruct (String.eqb t _); [by injection Hg as <- |]). done.
Qed.

Lemma typeOf_array n js js' c G :
  resolve n js = Ok js' -> Type_ js' = JString "array" ->
  typeOf (S n) js c G =
    match Items js' with
    | None => Panic (NoArrayItems js')
    | Some items => wrapType "[]" (typeOf n items true G)
    end.
Proof.
  intros Hres Hty. cbn [JsonSchema_GoType]. rewrite Hres. simpl. by rewrite Hty.
Qed.

Lemma typeOf_object_empty n js js' c G :
  resolve n js = Ok js' -> Type_ js' = JString "object" -> props js' = ∅ ->
  typeOf (S n) js c G =
    match AdditionalProperties js' with
    | Some ap => wrapType "map[string]" (typeOf n ap true G)
    | None => Ok ("interface{}", G)
    end.
Proof.
  intros Hres Hty Hps. cbn [JsonSchema_GoType]. rewrite Hres. simpl.
  rewrite Hty. simpl. rewrite Hps. by rewrite decide_True by apply map_size_empty.
Qed.

Lemma typeOf_object_struct n js js' c G :
  resolve n js = Ok js' -> Type_ js' = JString "object" -> props js' <> ∅ ->
  typeOf (S n) js c G =
    '(src, G1) ← forEach (structField (typeOf n) js') (SortedKeys (props js'))
                         ("struct {" +:+ nl, G);
    let src := src +:+ "}" in
    let name := Capitalize (Title js') in
    if nonempty name then
      Ok (if c then structPrefix +:+ name else src,
          <[structPrefix +:+ name := src]> G1)
    else Ok (src, G1).
Proof.
  intros Hres Hty Hps. cbn [JsonSchema_GoType]. rewrite Hres. simpl.
  rewrite Hty. simpl.
  rewrite decide_False by by rewrite map_size_empty_iff.
  destruct (forEach _ _ _) as [[src G1]| |]; [| done | done]. simpl.
  destruct (nonempty _); [| done]. by destruct c.
Qed.

Lemma typeOf_list n js js' c G l :
  resolve n js = Ok js' -> Type_ js' = JArray l ->
  typeOf (S n) js c G =
    match l with
    | [t0] => typeOf n (typeListNode (Title js') t0) c G
    | _ => Ok ("interface{}", G)
    end.
Proof.
  intros Hres Hty. cbn [JsonSchema_GoType]. rewrite Hres. simpl. by rewrite Hty.
Qed.

(** *** Results do not depend on the bound *)

Lemma resolve_det n m js r1 r2 :
  resolve n js = r1 -> resolve m js = r2 ->
  r1 <> OutOfFuel -> r2 <> OutOfFuel -> r1 = r2.
Proof.
  intros <- <- H1 H2. destruct (Nat.le_ge_cases n m) as [Hle|Hle].
  - by destruct (resolve_mono _ _ js Hle).
  - by destruct (resolve_mono _ _ js Hle).
Qed.

Lemma typeOf_det n m js c G r1 r2 :
  typeOf n js c G = r1 -> typeOf m js c G = r2 ->
  r1 <> OutOfFuel -> r2 <> OutOfFuel -> r1 = r2.
Proof.
  intros <- <- H1 H2. destruct (Nat.le_ge_cases n m) as [Hle|Hle].
  - by destruct (typeOf_mono _ _ js c G Hle).
  - by destruct (typeOf_mono _ _ js c G Hle).
Qed.

Lemma Resolves_det js r1 r2 :
  Resolves ReadFile js r1 -> Resolves ReadFile js r2 -> r1 = r2.
Proof. intros [H1 [n Hn]] [H2 [m Hm]]. by eapply resolve_det. Qed.

Lemma Synthesizes_det js c G r1 r2 :
  Synthesizes ReadFile structPrefix js c G r1 ->
  Synthesizes ReadFile structPrefix js c G r2 -> r1 = r2.
Proof. intros [H1 [n Hn]] [H2 [m Hm]]. by eapply typeOf_det. Qed.

Lemma resolve_ge n m js r :
  resolve n js = r -> r <> OutOfFuel -> n <= m -> resolve m js = r.
Proof.
  intros <- Hr Hle. by destruct (resolve_mono _ _ js Hle) as [?| <-].
Qed.

Lemma typeOf_ge n m js c G r :
  typeOf n js c G = r -> r <> OutOfFuel -> n <= m -> typeOf m js c G = r.
Proof.
  intros <- Hr Hle. by destruct (typeOf_mono _ _ js c G Hle) as [?| <-].
Qed.

(** A call of the synthesizer on a node that resolves to [js'] can be
    read at any bound that lets the resolver finish. *)
Lemma Synthesizes_resolved js js' c G r :
  Resolves ReadFile js (Ok js') ->
  Synthesizes ReadFile structPrefix js c G r <->
  r <> OutOfFuel /\ exists n, resolve n js = Ok js' /\ typeOf (S n) js c G = r.
Proof.
  intros [_ [k Hk]]. split.
  - intros [Hr [[|n] Hn]]; [by subst r |]. split; [done |].
    exists n. split; [| done].
    destruct (resolve n js) as [js''| |] eqn:Hres.
    + eapply (resolve_det n k); done.
    + exfalso. assert (Panic p = Ok js') by (eapply (resolve_det n k); done). done.
    + exfalso. apply Hr. rewrite <- Hn. cbn [JsonSchema_GoType]. by rewrite Hres.
  - intros [Hr (n & _ & Hn)]. split; [done |]. by exists (S n).
Qed.

(** *** Which call raises which panic *)

Lemma resolveRef_Panic js p : resolveRef ReadFile js = Panic p -> resolverPanic p.
Proof.
  unfold resolveRef. intros [H|(a & _ & H)]%bind_Panic_inv.
  - destruct (nonempty (Ref js)); [| done]. unfold LoadRef in H.
    destruct (ReadFile (Ref js)) as [| |j]; try by injection H as <-.
    destruct (Unmarshal j _); [done |]. by injection H as <-.
  - destruct (nonempty (Ref a)); [| done]. by injection H as <-.
Qed.

Ltac panic_step IHl IHs :=
  match goal with
  | H : _ ≫= _ = Panic _ |- _ =>
      apply bind_Panic_inv in H as [H|(? & _ & H)]
  | H : Ok _ = Panic _ |- _ => discriminate H
  | H : Panic _ = Panic _ |- _ => injection H as <-; exact I
  | H : resolveRef _ _ = Panic _ |- _ => exact (resolveRef_Panic _ _ H)
  | H : JsonSchema_LoadRef _ _ _ = Panic _ |- _ => exact (IHl _ _ H)
  | H : SchemaFromInterface _ _ _ = Panic _ |- _ => exact (IHs _ _ H)
  | H : forEach _ _ _ = Panic _ |- _ =>
      apply forEach_Panic_inv in H as (? & ? & _ & H)
  | H : assertString ?v = Panic _ |- _ => destruct v; simpl in H
  | H : assertMap ?v = Panic _ |- _ => destruct v; simpl in H
  | H : match ?x with _ => _ end = Panic _ |- _ => destruct x
  end.

Lemma resolve_Panic_class n :
  (forall js p, resolve n js = Panic p -> resolverPanic p) /\
  (forall i p, fromInterface n i = Panic p -> resolverPanic p).
Proof.
  induction n as [|n [IHl IHs]]; [done |].
  split; intros x p H; cbn [JsonSchema_LoadRef SchemaFromInterface] in H;
    repeat panic_step IHl IHs.
Qed.

(** A panic for missing items names a node that has no items. *)
Lemma typeOf_NoArrayItems n js c G js0 :
  typeOf n js c G = Panic (NoArrayItems js0) -> Items js0 = None.
Proof.
  revert js c G. induction n as [|n IH]; intros js c G H; [done |].
  cbn [JsonSchema_GoType] in H.
  apply bind_Panic_inv in H as [H|(js' & _ & H)].
  { by apply resolve_Panic_class in H. }
  destruct (Type_ js') as [| | |t|l|]; try done.
  - destruct (String.eqb t "any"); [discriminate H |].
    destruct (String.eqb t "boolean"); [discriminate H |].
    destruct (String.eqb t "integer"); [discriminate H |].
    destruct (String.eqb t "number"); [discriminate H |].
    destruct (String.eqb t "string"); [discriminate H |].
    destruct (String.eqb t "array").
    { destruct (Items js') as [it|] eqn:Hit; [| by injection H as <-].
      apply bind_Panic_inv in H as [H|([? ?] & _ & H)];
        [by eapply IH | discriminate H]. }
    destruct (String.eqb t "object"); [| discriminate H].
    destruct (decide (size (props js') = 0)).
    + destruct (AdditionalProperties js'); [| discriminate H].
      apply bind_Panic_inv in H as [H|([? ?] & _ & H)];
        [by eapply IH | discriminate H].
    + apply bind_Panic_inv in H as [H|([? ?] & _ & H)].
      * apply forEach_Panic_inv in H as (k & [src G'] & _ & H).
        unfold structField in H.
        destruct (props js' !! k) as [[child|]|]; try discriminate H.
        apply bind_Panic_inv in H as [H|([? ?] & _ & H)];
          [by eapply IH | discriminate H].
      * simpl in H. destruct (nonempty _); [destruct c |]; discriminate H.
  - destruct l as [|t0 [|? ?]]; try discriminate H. by eapply IH.
Qed.

(** *** Calls that hand over to a nested call *)

Lemma Synthesizes_nested js js' c G child cc
    (f : result (string * gmap string string) ->
         result (string * gmap string string)) :
  Resolves ReadFile js (Ok js') ->
  (forall n, resolve n js = Ok js' ->
             typeOf (S n) js c G = f (typeOf n child cc G)) ->
  (forall r0, f r0 = OutOfFuel <-> r0 = OutOfFuel) ->
  forall r,
    Synthesizes ReadFile structPrefix js c G r <->
    exists r0, Synthesizes ReadFile structPrefix child cc G r0 /\ r = f r0.
Proof.
  intros Hres Hstep Hf r. rewrite (Synthesizes_resolved _ _ _ _ _ Hres). split.
  - intros [Hr (n & Hn & Hty)]. rewrite (Hstep _ Hn) in Hty.
    exists (typeOf n child cc G). split; [| done].
    split; [| by exists n]. intros Hoof. apply Hr. rewrite <- Hty. by apply Hf.
  - intros (r0 & [Hr0 [k Hk]] & ->). destruct Hres as [_ [n Hn]].
    split; [by rewrite Hf |]. exists (n `max` k).
    assert (resolve (n `max` k) js = Ok js') as Hres'
      by (eapply resolve_ge; [done | done | lia]).
    split; [done |]. rewrite (Hstep _ Hres'). f_equal.
    eapply typeOf_ge; [done | done | lia].
Qed.

Lemma Synthesizes_now js js' c G r :
  Resolves ReadFile js (Ok js') ->
  (forall n, resolve n js = Ok js' -> typeOf (S n) js c G = r) ->
  r <> OutOfFuel ->
  Synthesizes ReadFile structPrefix js c G r.
Proof.
  intros [_ [n Hn]] Hstep Hr. split; [done |]. exists (S n). by apply Hstep.
Qed.

Lemma fromInterface_object n m r :
  fromInterface n (JObject m) = Ok r -> exists ap, r = Some ap.
Proof.
  destruct n as [|n]; [done |]. cbn [SchemaFromInterface].
  repeat (intros (? & _ & H)%bind_Ok_inv; revert H).
  intros [= <-]. eauto.
Qed.

Lemma fromInterface_absent n i r :
  i = JNull \/ (exists b, i = JBool b) ->
  fromInterface n i = Ok r -> r = None.
Proof.
  destruct n as [|n]; [done |]. by intros [->|[b ->]] [= <-].
Qed.

(** On a resolved node, [AdditionalProperties] is the node that
    [SchemaFromInterface] makes of [AdditionalInterface]. *)
Lemma resolve_AdditionalProperties n js js' :
  resolve n js = Ok js' ->
  exists n', fromInterface n' (AdditionalInterface js') = Ok (AdditionalProperties js').
Proof.
  intros (n' & js1 & ap & -> & Hjs1 & Hap & H)%resolve_Ok_inv. exists n'.
  destruct (prepared_fields ap js1) as (_&_&_&_&_&_&_&HAI&HAP&_).
  destruct (Extends js1) as [ext|].
  - destruct H as (ext' & _ & ->).
    destruct (mergeExtends_frame
                (set_Extends (Some ext')
                   (set_AdditionalProperties ap (makeProperties js1))) ext')
      as (_&_&_&_& -> & ->).
    destruct (set_Extends_fields (Some ext')
                (set_AdditionalProperties ap (makeProperties js1)))
      as (_&_&_&_&_&_&_& -> & -> &_). congruence.
  - subst js'. congruence.
Qed.

(** The three calls on nodes below the receiver, each with [collapse]
    true whatever the receiver was called with. *)
Lemma Synthesizes_array js js' c G items :
  Resolves ReadFile js (Ok js') ->
  Type_ js' = JString "array" ->
  Items js' = Some items ->
  forall r, Synthesizes ReadFile structPrefix js c G r <->
            exists r0, Synthesizes ReadFile structPrefix items true G r0 /\
                       r = wrapType "[]" r0.
Proof.
  intros Hres Hty Hit. apply (Synthesizes_nested _ _ _ _ _ _ _ Hres).
  - intros n Hn. by rewrite (typeOf_array _ _ _ _ _ Hn Hty), Hit.
  - apply wrapType_OutOfFuel.
Qed.

Lemma Synthesizes_map js js' c G ap :
  Resolves ReadFile js (Ok js') ->
  Type_ js' = JString "object" ->
  props js' = ∅ ->
  AdditionalProperties js' = Some ap ->
  forall r, Synthesizes ReadFile structPrefix js c G r <->
            exists r0, Synthesizes ReadFile structPrefix ap true G r0 /\
                       r = wrapType "map[string]" r0.
Proof.
  intros Hres Hty Hps Hap. apply (Synthesizes_nested _ _ _ _ _ _ _ Hres).
  - intros n Hn. by rewrite (typeOf_object_empty _ _ _ _ _ Hn Hty Hps), Hap.
  - apply wrapType_OutOfFuel.
Qed.

(** *** Arrays *)

(** C9, amended. For a node that resolves to [js'] with type ["array"]:
    the synthesis of the node panics with the Schema Error for missing
    items that names [js'] itself if and only if [js'] has no items, items
    taken over from an extended node counting as items; with items, the
    synthesis ends exactly as the synthesis of the items does under
    [collapse] true, with ["[]"] put before the type when that returns and
    with the same panic when that panics, so that any other panic of the
    synthesis, the Schema Error of an array nested in the items among them,
    is the panic of the synthesis of the items. *)
Theorem C9_array_needs_items js js' c G :
  Resolves ReadFile js (Ok js') ->
  Type_ js' = JString "array" ->
  (Synthesizes ReadFile structPrefix js c G (Panic (NoArrayItems js'))
     <-> Items js' = None) /\
  errorKind (NoArrayItems js') = SchemaError /\
  (forall items, Items js' = Some items ->
     forall r, Synthesizes ReadFile structPrefix js c G r <->
               exists r0, Synthesizes ReadFile structPrefix items true G r0 /\
                          r = wrapType "[]" r0) /\
  (forall p, Synthesizes ReadFile structPrefix js c G (Panic p) ->
             p = NoArrayItems js' /\ Items js' = None \/
             exists items,
               Items js' = Some items /\
               Synthesizes ReadFile structPrefix items true G (Panic p)).
Proof.
  intros Hres Hty.
  assert (Items js' = None ->
          Synthesizes ReadFile structPrefix js c G (Panic (NoArrayItems js')))
    as Hnone.
  { intros Hit. apply (Synthesizes_now _ _ _ _ _ Hres); [| done].
    intros n Hn. by rewrite (typeOf_array _ _ _ _ _ Hn Hty), Hit. }
  assert (forall p, Synthesizes ReadFile structPrefix js c G (Panic p) ->
            p = NoArrayItems js' /\ Items js' = None \/
            exists items,
              Items js' = Some items /\
              Synthesizes ReadFile structPrefix items true G (Panic p))
    as Hpanic.
  { intros p Hp. destruct (Items js') as [items|] eqn:Hit.
    - right. exists items. split; [done |].
      pose proof (proj1 (Synthesizes_array _ _ c G _ Hres Hty Hit _) Hp)
        as (r0 & Hr0 & Heq).
      symmetry in Heq. apply wrapType_Panic in Heq. by rewrite Heq in Hr0.
    - left. split; [| done].
      pose proof (Synthesizes_det _ _ _ _ _ Hp (Hnone eq_refl)) as Heq.
      by injection Heq. }
  split; [| split; [done | split; [| done]]].
  - split; [| done]. intros Hp.
    destruct (Hpanic _ Hp) as [[_ Hit]|(items & Hit & [_ [n Hn]])]; [done |].
    apply typeOf_NoArrayItems in Hn. congruence.
  - intros items. by apply Synthesizes_array.
Qed.

(** *** Objects without properties *)

(** C8. For a node that resolves to [js'] with type ["object"] and no
    properties: when [additionalProperties] is an object description, the
    node [ap] made of it is in [AdditionalProperties] and the synthesis
    ends exactly as the synthesis of [ap] does under [collapse] true, with
    ["map[string]"] put before the type; when it is absent or a boolean,
    the synthesis returns ["interface{}"] and leaves the registry as it
    was. *)
Theorem C8_object_without_properties js js' c G :
  Resolves ReadFile js (Ok js') ->
  Type_ js' = JString "object" ->
  props js' = ∅ ->
  (forall m, AdditionalInterface js' = JObject m ->
     exists ap,
       AdditionalProperties js' = Some ap /\
       (exists n, fromInterface n (JObject m) = Ok (Some ap)) /\
       forall r, Synthesizes ReadFile structPrefix js c G r <->
                 exists r0, Synthesizes ReadFile structPrefix ap true G r0 /\
                            r = wrapType "map[string]" r0) /\
  (AdditionalInterface js' = JNull \/ (exists b, AdditionalInterface js' = JBool b) ->
     AdditionalProperties js' = None /\
     Synthesizes ReadFile structPrefix js c G (Ok ("interface{}", G))).
Proof.
  intros Hres Hty Hps.
  destruct Hres as [Hok [n0 Hn0]].
  destruct (resolve_AdditionalProperties _ _ _ Hn0) as [n' Hap].
  assert (Resolves ReadFile js (Ok js')) as Hres by (split; eauto).
  split.
  - intros m Hm. rewrite Hm in Hap.
    destruct (fromInterface_object _ _ _ Hap) as [ap Hsome].
    exists ap. split; [done |]. split; [exists n'; by rewrite Hap, Hsome |].
    by apply (Synthesizes_map _ js').
  - intros Habs. pose proof (fromInterface_absent _ _ _ Habs Hap) as Hnone.
    split; [done |]. apply (Synthesizes_now _ _ _ _ _ Hres); [| done].
    intros n Hn. by rewrite (typeOf_object_empty _ _ _ _ _ Hn Hty Hps), Hnone.
Qed.

(** *** Type lists *)

Lemma resolve_typeListNode n title t0 :
  resolve (S (S n)) (typeListNode title t0) =
    Ok (set_AdditionalProperties None (makeProperties (typeListNode title t0))).
Proof. by rewrite resolve_S. Qed.

(** The node made for a type list has nothing below it: its synthesis
    never writes the registry. *)
Lemma typeOf_typeListNode_registry n title t0 c G t G' :
  typeOf n (typeListNode title t0) c G = Ok (t, G') -> G' = G.
Proof.
  revert t0. induction n as [|n IH]; intros t0 H; [done |].
  cbn [JsonSchema_GoType] in H.
  destruct n as [|[|n]]; [done | done |].
  rewrite resolve_typeListNode in H. simpl in H.
  destruct t0 as [| | |s|l|]; try done.
  - repeat (destruct (String.eqb s _); [by injection H as _ <- |]).
    destruct (String.eqb s _); [done |].
    destruct (String.eqb s _); [by injection H as _ <- | done].
  - destruct l as [|t1 [|? ?]]; try by injection H as _ <-.
    by apply IH in H.
Qed.

(** *** The registry outside the composite branch *)

(** C10, amended. For a node that resolves to [js'] and whose synthesis
    returns registry [G'] from registry [G]: with a scalar keyword or a
    type list for its type, [G'] is [G]; with type ["array"], [G'] is the
    registry that the synthesis of the items leaves; with type ["object"]
    and no properties, [G'] is the registry that the synthesis of the
    [additionalProperties] node leaves, and [G] when there is no such
    node.  The node writes nothing of its own, so the title of an object
    without properties is never registered by that object. *)
Theorem C10_registry_frame js js' c G t G' :
  Resolves ReadFile js (Ok js') ->
  Synthesizes ReadFile structPrefix js c G (Ok (t, G')) ->
  ((exists s g, Type_ js' = JString s /\ scalarType s = Some g) -> G' = G) /\
  ((exists l, Type_ js' = JArray l) -> G' = G) /\
  (Type_ js' = JString "array" ->
     exists items t0,
       Items js' = Some items /\ t = "[]" +:+ t0 /\
       Synthesizes ReadFile structPrefix items true G (Ok (t0, G'))) /\
  (Type_ js' = JString "object" -> props js' = ∅ ->
     match AdditionalProperties js' with
     | None => G' = G
     | Some ap =>
         exists t0,
           t = "map[string]" +:+ t0 /\
           Synthesizes ReadFile structPrefix ap true G (Ok (t0, G'))
     end).
Proof.
  intros Hres Hsyn.
  apply (Synthesizes_resolved _ _ _ _ _ Hres) in Hsyn as [_ (n & Hn & Hty)].
  repeat split.
  - intros (s & g & Hs & Hg).
    rewrite (typeOf_scalar _ _ _ _ _ _ _ Hn Hs Hg) in Hty. by injection Hty.
  - intros (l & Hl). rewrite (typeOf_list _ _ _ _ _ _ Hn Hl) in Hty.
    destruct l as [|t0 [|? ?]]; try by injection Hty.
    by eapply typeOf_typeListNode_registry.
  - intros Harr. rewrite (typeOf_array _ _ _ _ _ Hn Harr) in Hty.
    destruct (Items js') as [items|]; [| done].
    apply wrapType_Ok in Hty as (t0 & Hit & ->).
    exists items, t0. repeat split; eauto.
  - intros Hobj Hps. rewrite (typeOf_object_empty _ _ _ _ _ Hn Hobj Hps) in Hty.
    destruct (AdditionalProperties js') as [ap|]; [| by injection Hty].
    apply wrapType_Ok in Hty as (t0 & Hap & ->).
    exists t0. repeat split; eauto.
Qed.

(** C3, amended. For a node that resolves to [js'] with a type list: a
    list of one element [t0] is synthesized as the node
    [typeListNode (Title js') t0], which has the title of [js'], the type
    [t0] and nothing else (no items, no properties, no
    [additionalProperties], no extended node), under the same [collapse];
    a list of any other length gives ["interface{}"] and leaves the
    registry as it was. *)
Theorem C3_type_list js js' c G l :
  Resolves ReadFile js (Ok js') ->
  Type_ js' = JArray l ->
  (forall t0, l = [t0] ->
     typeListNode (Title js') t0
       = mkJsonSchema "" "" (Title js') t0 "" None None JNull None None /\
     forall r, Synthesizes ReadFile structPrefix js c G r <->
               Synthesizes ReadFile structPrefix
                 (typeListNode (Title js') t0) c G r) /\
  (length l <> 1 ->
     Synthesizes ReadFile structPrefix js c G (Ok ("interface{}", G))).
Proof.
  intros Hres Hty. split.
  - intros t0 ->. split; [done |]. intros r.
    rewrite (Synthesizes_nested js js' c G (typeListNode (Title js') t0) c id Hres).
    + split; [intros (r0 & H & ->); exact H | intros H; by exists r].
    + intros n Hn. by rewrite (typeOf_list _ _ _ _ _ _ Hn Hty).
    + done.
  - intros Hlen. apply (Synthesizes_now _ _ _ _ _ Hres); [| done].
    intros n Hn. rewrite (typeOf_list _ _ _ _ _ _ Hn Hty).
    by destruct l as [|t0 [|? ?]].
Qed.

(** *** Composite types *)

Lemma forEach_structField_inv n js' keys src0 G0 src G1 :
  forEach (structField (typeOf n) js') keys (src0, G0) = Ok (src, G1) ->
  exists ts,
    FieldTypes ReadFile structPrefix js' keys G0 ts G1 /\
    src = src0 +:+ joinStrings (zip_with fieldDecl keys ts).
Proof.
  revert src0 G0. induction keys as [|k keys IH]; intros src0 G0; simpl.
  - intros [= <- <-]. exists []. split; [constructor |].
    by rewrite append_nil_r.
  - intros ([src1 G'] & Hfield & Hrest)%bind_Ok_inv.
    unfold structField in Hfield.
    destruct (props js' !! k) as [[child|]|] eqn:Hk; try done.
    apply bind_Ok_inv in Hfield as ([t Gt] & Ht & [= <- <-]).
    destruct (IH _ _ Hrest) as (ts & Hts & ->).
    exists (t :: ts). split.
    + econstructor; [done | | done]. split; [done | by exists n].
    + simpl. by rewrite append_assoc.
Qed.

Lemma forEach_structField_intro js' keys G0 ts G1 :
  FieldTypes ReadFile structPrefix js' keys G0 ts G1 ->
  exists n, forall m src0,
    n <= m ->
    forEach (structField (typeOf m) js') keys (src0, G0)
      = Ok (src0 +:+ joinStrings (zip_with fieldDecl keys ts), G1).
Proof.
  induction 1 as [G|k keys child t ts G G1 G2 Hk [_ [n1 Hn1]] _ [n2 IH]].
  - exists 0. intros m src0 _. simpl. by rewrite append_nil_r.
  - exists (n1 `max` n2). intros m src0 Hle. cbn [forEach].
    assert (structField (typeOf m) js' k (src0, G)
            = Ok (src0 +:+ fieldDecl k t, G1)) as ->.
    { unfold structField. rewrite Hk.
      by rewrite (typeOf_ge _ m _ _ _ _ Hn1) by (done || lia). }
    simpl. rewrite IH by lia. by rewrite append_assoc.
Qed.

(** The composite branch: the fields are synthesized in the order of the
    sorted keys; then the body is stored under the prefixed name, whatever
    the registry held under it, unless the name is empty. *)
Lemma Synthesizes_struct js js' c G t G' :
  Resolves ReadFile js (Ok js') ->
  Type_ js' = JString "object" ->
  props js' <> ∅ ->
  Synthesizes ReadFile structPrefix js c G (Ok (t, G')) <->
  exists ts G1,
    FieldTypes ReadFile structPrefix js' (SortedKeys (props js')) G ts G1 /\
    let src := structBody (SortedKeys (props js')) ts in
    let name := Capitalize (Title js') in
    if nonempty name then
      t = (if c then structPrefix +:+ name else src) /\
      G' = <[structPrefix +:+ name := src]> G1
    else t = src /\ G' = G1.
Proof.
  intros Hres Hty Hps. split.
  - intros Hsyn.
    apply (Synthesizes_resolved _ _ _ _ _ Hres) in Hsyn as [_ (n & Hn & Hsyn)].
    rewrite (typeOf_object_struct _ _ _ _ _ Hn Hty Hps) in Hsyn.
    apply bind_Ok_inv in Hsyn as ([src G1] & Hloop & Hfin).
    apply forEach_structField_inv in Hloop as (ts & Hts & ->).
    exists ts, G1. split; [done |]. unfold structBody. simpl in *.
    rewrite <- append_assoc.
    destruct (nonempty (Capitalize (Title js'))); by injection Hfin as <- <-.
  - intros (ts & G1 & Hts & Hfin).
    destruct (forEach_structField_intro _ _ _ _ _ Hts) as [n1 Hloop].
    destruct Hres as [_ [n0 Hn0]]. split; [done |].
    exists (S (n0 `max` n1)).
    erewrite typeOf_object_struct;
      [| eapply resolve_ge; [exact Hn0 | done | lia] | done | done].
    rewrite Hloop by lia. simpl in *. unfold structBody in Hfin.
    rewrite <- append_assoc in Hfin.
    destruct (nonempty (Capitalize (Title js'))); by destruct Hfin as [-> ->].
Qed.


(** C1, amended. For a node that resolves to [js'] with type ["object"]
    and properties, whose fields are synthesized with types [ts] and leave
    registry [G1]: when the capitalized title is not empty, the synthesis
    stores the body under the prefixed name, replacing whatever [G1] held
    under it, so the last registration of a name is the one that stays and
    no other name is touched, and it returns the name under [collapse]
    true and the body otherwise; when the capitalized title is empty, as
    it is for an empty title, the synthesis returns the body and the
    registry is [G1]: the node is not registered. *)
Theorem C1_last_registration_stays js js' c G ts G1 :
  Resolves ReadFile js (Ok js') ->
  Type_ js' = JString "object" ->
  props js' <> ∅ ->
  FieldTypes ReadFile structPrefix js' (SortedKeys (props js')) G ts G1 ->
  let src := structBody (SortedKeys (props js')) ts in
  let name := Capitalize (Title js') in
  (nonempty name = true ->
     Synthesizes ReadFile structPrefix js c G
       (Ok (if c then structPrefix +:+ name else src,
            <[structPrefix +:+ name := src]> G1)) /\
     forall t G',
       Synthesizes ReadFile structPrefix js c G (Ok (t, G')) ->
       G' !! (structPrefix +:+ name) = Some src /\
       forall k, k <> structPrefix +:+ name -> G' !! k = G1 !! k) /\
  (nonempty name = false ->
     Synthesizes ReadFile structPrefix js c G (Ok (src, G1))) /\
  (Title js' = "" -> nonempty name = false).
Proof.
  intros Hres Hty Hps Hts src name.
  assert (forall t G',
            (if nonempty name
             then t = (if c then structPrefix +:+ name else src) /\
                  G' = <[structPrefix +:+ name := src]> G1
             else t = src /\ G' = G1) ->
            Synthesizes ReadFile structPrefix js c G (Ok (t, G'))) as Hintro.
  { intros t G' Hfin. apply (Synthesizes_struct _ _ _ _ _ _ Hres Hty Hps).
    by exists ts, G1. }
  split; [| split].
  - intros Hname.
    assert (Synthesizes ReadFile structPrefix js c G
              (Ok (if c then structPrefix +:+ name else src,
                   <[structPrefix +:+ name := src]> G1))) as Hsyn
      by (apply Hintro; by rewrite Hname).
    split; [done |]. intros t G' Hsyn'.
    pose proof (Synthesizes_det _ _ _ _ _ Hsyn Hsyn') as [= _ <-].
    split; [apply lookup_insert_eq |]. intros k Hk. by apply lookup_insert_ne.
  - intros Hname. apply Hintro. by rewrite Hname.
  - intros Htitle. subst name. by rewrite Htitle.
Qed.

(** C2, amended. [main] synthesizes the entry document with [collapse]
    true.  When the document resolves to a composite with a name, the type
    expression computed for it is the reference to that name, and the
    registry holds under the name the body that [collapse] false would
    have returned.  The nodes below a node, its items, its
    [additionalProperties] node and its fields, are synthesized with
    [collapse] true whatever the node was called with. *)
Theorem C2_root_is_collapsed n arg schema :
  LoadRef ReadFile arg zero = Ok schema ->
  rootType ReadFile structPrefix n arg = typeOf n schema true ∅ /\
  (forall js' t G',
     Resolves ReadFile schema (Ok js') ->
     Type_ js' = JString "object" ->
     props js' <> ∅ ->
     nonempty (Capitalize (Title js')) = true ->
     rootType ReadFile structPrefix n arg = Ok (t, G') ->
     t = structPrefix +:+ Capitalize (Title js') /\
     exists src,
       G' !! t = Some src /\
       Synthesizes ReadFile structPrefix schema false ∅ (Ok (src, G'))) /\
  (forall js js' c G,
     Resolves ReadFile js (Ok js') ->
     (forall items,
        Type_ js' = JString "array" -> Items js' = Some items ->
        forall r, Synthesizes ReadFile structPrefix js c G r <->
                  exists r0, Synthesizes ReadFile structPrefix items true G r0 /\
                             r = wrapType "[]" r0) /\
     (forall ap,
        Type_ js' = JString "object" -> props js' = ∅ ->
        AdditionalProperties js' = Some ap ->
        forall r, Synthesizes ReadFile structPrefix js c G r <->
                  exists r0, Synthesizes ReadFile structPrefix ap true G r0 /\
                             r = wrapType "map[string]" r0) /\
     (forall t G',
        Type_ js' = JString "object" -> props js' <> ∅ ->
        Synthesizes ReadFile structPrefix js c G (Ok (t, G')) ->
        exists ts G1,
          FieldTypes ReadFile structPrefix js' (SortedKeys (props js')) G ts G1)).
Proof.
  intros Hload.
  assert (rootType ReadFile structPrefix n arg = typeOf n schema true ∅) as Hroot
    by (unfold rootType; by rewrite Hload).
  split; [done |]. split.
  - intros js' t G' Hres Hty Hps Hname Hrun. rewrite Hroot in Hrun.
    assert (Synthesizes ReadFile structPrefix schema true ∅ (Ok (t, G'))) as Hsyn
      by (split; [done | by exists n]).
    apply (Synthesizes_struct _ _ _ _ _ _ Hres Hty Hps) in Hsyn
      as (ts & G1 & Hts & Hfin).
    simpl in Hfin. rewrite Hname in Hfin. destruct Hfin as [-> ->].
    split; [done |]. exists (structBody (SortedKeys (props js')) ts).
    split; [apply lookup_insert_eq |].
    apply (Synthesizes_struct _ _ _ _ _ _ Hres Hty Hps).
    exists ts, G1. split; [done |]. simpl. by rewrite Hname.
  - intros js js' c G Hres. split; [| split].
    + intros items Hty Hit. by apply (Synthesizes_array _ js').
    + intros ap Hty Hps Hap. by apply (Synthesizes_map _ js').
    + intros t G' Hty Hps Hsyn.
      apply (Synthesizes_struct _ _ _ _ _ _ Hres Hty Hps) in Hsyn
        as (ts & G1 & Hts & _). by exists ts, G1.
Qed.


(** *** The resolver: extended nodes *)

Lemma MergedFrom_mergeExtends ap js1 ext' :
  let js' := mergeExtends
               (set_Extends (Some ext')
                  (set_AdditionalProperties ap (makeProperties js1))) ext' in
  Extends js' = Some ext' /\ MergedFrom js' js1 ext'.
Proof.
  set (js2 := set_AdditionalProperties ap (makeProperties js1)).
  set (js3 := set_Extends (Some ext') js2). intros js'. subst js'.
  destruct (prepared_fields ap js1) as (_&_&Ht2&Hty2&_&_&_&_&_&Hit2).
  destruct (set_Extends_fields (Some ext') js2) as (_&_&Ht3&Hty3&_&He3&_&_&_&Hit3).
  fold js2 in Ht2, Hty2, Hit2. fold js3 in Ht3, Hty3, He3, Hit3.
  destruct (mergeExtends_frame js3 ext') as (_&_&_&He&_).
  split; [congruence |]. repeat split.
  - by rewrite Title_mergeExtends, Ht3, Ht2.
  - by rewrite Type_mergeExtends, Hty3, Hty2.
  - by rewrite Items_mergeExtends, Hit3, Hit2.
  - intros k. unfold props at 1. rewrite Properties_mergeExtends. simpl.
    subst js3 js2. rewrite props_set_Extends, props_prepared, lookup_union.
    by destruct (props js1 !! k), (props ext' !! k).
Qed.



(** *** The resolver: references *)

Lemma resolve_Panic_intro js p :
  resolveRef ReadFile js = Panic p -> Resolves ReadFile js (Panic p).
Proof.
  intros Hp. split; [done |]. exists 1. by rewrite resolve_S, Hp.
Qed.

(** C6. After a resolution that returns, [Ref] is empty.  For a node with
    a reference to a document that decodes over the node, reference
    cleared, to [js1]: when [js1] has no reference, the resolution goes on
    as the resolution of [js1]; when [js1] has one, the resolution panics
    with that node, a Resolution Error, and loads nothing more.  A
    document that is an object and carries a reference of its own always
    ends the resolution in a Resolution Error. *)
Theorem C6_single_redirect js :
  nonempty (Ref js) = true ->
  (forall js0 js', Resolves ReadFile js0 (Ok js') -> Ref js' = "") /\
  (forall j js1,
     ReadFile (Ref js) = Document j ->
     Unmarshal j (set_Ref "" js) = Some js1 ->
     (Ref js1 = "" -> forall n, resolve n js = resolve n js1) /\
     (Ref js1 <> "" ->
        Resolves ReadFile js (Panic (RefWithRef js1)) /\
        errorKind (RefWithRef js1) = ResolutionError)) /\
  (forall m,
     ReadFile (Ref js) = Document (JObject m) ->
     documentRef m "" <> "" ->
     exists p, Resolves ReadFile js (Panic p) /\ errorKind p = ResolutionError).
Proof.
  intros Href.
  assert (forall j js1,
            ReadFile (Ref js) = Document j ->
            Unmarshal j (set_Ref "" js) = Some js1 ->
            resolveRef ReadFile js
            = if nonempty (Ref js1) then Panic (RefWithRef js1) else Ok js1)
    as Hstep.
  { intros j js1 Hfile Hdec. unfold resolveRef, LoadRef.
    by rewrite Href, Hfile, Hdec. }
  split; [| split].
  - intros js0 js' [_ [n Hn]]. by eapply resolve_Ref.
  - intros j js1 Hfile Hdec. specialize (Hstep _ _ Hfile Hdec). split.
    + intros Href1 [|n]; [done |]. rewrite !resolve_S, Hstep, Href1. simpl.
      by rewrite (resolveRef_id js1).
    + intros Href1. split; [| done]. apply resolve_Panic_intro.
      rewrite Hstep. by destruct (Ref js1).
  - intros m Hfile Hdoc.
    destruct (Unmarshal (JObject m) (set_Ref "" js)) as [js1|] eqn:Hdec.
    + exists (RefWithRef js1). split; [| done]. apply resolve_Panic_intro.
      rewrite (Hstep _ _ Hfile Hdec).
      apply Unmarshal_Ref in Hdec.
      replace (Ref (set_Ref "" js)) with "" in Hdec by by destruct js.
      rewrite Hdec. by destruct (documentRef m "").
    + exists (UnmarshalError (Ref js)). split; [| done].
      apply resolve_Panic_intro. unfold resolveRef, LoadRef.
      by rewrite Href, Hfile, Hdec.
Qed.

(** C7. When the resolution of a node returns and leaves it as [js'], a
    second resolution, of [js'], returns as well, within the same bound,
    and leaves [js'] as it is; it has no other outcome. *)
Theorem C7_resolve_idempotent js js' :
  Resolves ReadFile js (Ok js') ->
  Resolves ReadFile js' (Ok js') /\
  (forall n, resolve n js = Ok js' -> resolve n js' = Ok js') /\
  (forall r, Resolves ReadFile js' r -> r = Ok js').
Proof.
  intros [_ [n Hn]].
  assert (Resolves ReadFile js' (Ok js')) as Hres
    by (split; [done | exists n; by eapply resolve_idempotent]).
  split; [done |]. split.
  - intros m Hm. by eapply resolve_idempotent.
  - intros r Hr. by eapply Resolves_det.
Qed.

End structgen_facts.

(** * Properties that the specification does not state *)

(** ** Capitalize *)

Lemma bytes_app s1 s2 : bytes (s1 +:+ s2) = app (bytes s1) (bytes s2).
Proof.
  induction s1 as [|c s1 IH]; [done|].
  change (String c s1 +:+ s2) with (String c (s1 +:+ s2)).
  simpl. by rewrite IH.
Qed.

Lemma isSpace_spec c : isSpace c = true <-> c = space.
Proof. unfold isSpace. apply Ascii.eqb_eq. Qed.

Lemma ToUpper1_no_space c : c <> space -> space ∉ bytes (ToUpper1 c).
Proof.
  intros Hc Hin. unfold ToUpper1 in Hin.
  destruct (Nat.ltb (nat_of_ascii c) 128) eqn:E1.
  - destruct (Nat.leb 97 (nat_of_ascii c) && Nat.leb (nat_of_ascii c) 122) eqn:E2.
    + apply andb_prop in E2 as [Ha Hb].
      apply Nat.leb_le in Ha, Hb.
      apply list_elem_of_singleton in Hin.
      apply (f_equal nat_of_ascii) in Hin.
      rewrite nat_ascii_embedding in Hin by lia.
      unfold space in Hin. rewrite nat_ascii_embedding in Hin by lia. lia.
    + apply list_elem_of_singleton in Hin. by subst.
  - vm_compute in Hin. 
    repeat (apply elem_of_cons in Hin as [Hin|Hin]; [discriminate Hin|]).
    by apply elem_of_nil in Hin.
Qed.

Lemma capitalizeWords_no_space start s :
  space ∉ bytes (capitalizeWords isSpace start s).
Proof.
  revert start. induction s as [|c s IH]; intros start; simpl.
  - apply not_elem_of_nil.
  - destruct (isSpace c) eqn:E; [apply IH|].
    assert (c <> space) as Hc by (intros ->; by rewrite (proj2 (isSpace_spec _)) in E).
    rewrite bytes_app. intros [Hin|Hin]%elem_of_app; [|by eapply IH].
    destruct start; [by eapply ToUpper1_no_space|].
    apply list_elem_of_singleton in Hin. by subst.
Qed.

(** X1. The result of [Capitalize] holds no space, whatever the input:
    the spaces of a title or of a property key never reach the type name or
    the field name made of it. *)
Theorem X1_Capitalize_no_space s : space ∉ bytes (Capitalize s).
Proof. rewrite Capitalize_capitalizeWords. apply capitalizeWords_no_space. Qed.

Lemma capitalizeWords_app start s1 s2 :
  capitalizeWords isSpace start (s1 +:+ String space s2)
  = capitalizeWords isSpace start s1 +:+ capitalizeWords isSpace true s2.
Proof.
  revert start. induction s1 as [|c s1 IH]; intros start.
  - done.
  - change (String c s1 +:+ String space s2) with (String c (s1 +:+ String space s2)).
    simpl. destruct (isSpace c); [apply IH|].
    by rewrite IH, append_assoc.
Qed.

(** X2. [Capitalize] of two strings joined by a space is [Capitalize] of
    the first followed by [Capitalize] of the second. *)
Theorem X2_Capitalize_app_space s1 s2 :
  Capitalize (s1 +:+ " " +:+ s2) = Capitalize s1 +:+ Capitalize s2.
Proof.
  rewrite !Capitalize_capitalizeWords.
  change (" " +:+ s2) with (String space s2). apply capitalizeWords_app.
Qed.

Lemma capitalizeWords_word s :
  space ∉ bytes s -> capitalizeWords isSpace false s = s.
Proof.
  induction s as [|c s IH]; [done|]. intros Hs. simpl.
  destruct (isSpace c) eqn:E.
  - apply isSpace_spec in E. subst. destruct Hs. unfold bytes. simpl. left.
  - change (String c "" +:+ capitalizeWords isSpace false s)
      with (String c (capitalizeWords isSpace false s)).
    rewrite IH; [done|]. intros Hin. apply Hs. unfold bytes in *. simpl. by right.
Qed.

(** X3. On a string without a space [Capitalize] changes the first byte
    only: the result is [strings.ToUpper] of the first byte followed by the
    rest, and the empty string stays empty. *)
Theorem X3_Capitalize_word w :
  space ∉ bytes w -> Capitalize w = upperFirst w.
Proof.
  intros Hw. rewrite Capitalize_capitalizeWords.
  destruct w as [|c w]; [done|]. simpl.
  destruct (isSpace c) eqn:E.
  - apply isSpace_spec in E. subst. destruct Hw. unfold bytes. simpl. left.
  - rewrite capitalizeWords_word; [done|].
    intros Hin. apply Hw. unfold bytes in *. simpl. by right.
Qed.

Lemma append_eq_nil (s1 s2 : string) : s1 +:+ s2 = "" -> s1 = "" /\ s2 = "".
Proof. destruct s1; [done|]. intros [=]. Qed.

Lemma ToUpper1_nonempty c : ToUpper1 c <> "".
Proof.
  unfold ToUpper1.
  destruct (Nat.ltb _ _); [|done].
  by destruct (_ && _).
Qed.

Lemma capitalizeWords_nil start s :
  capitalizeWords isSpace start s = "" <-> Forall (fun b => b = space) (bytes s).
Proof.
  revert start. induction s as [|c s IH]; intros start; simpl.
  - split; [constructor|done].
  - unfold bytes. simpl. fold (bytes s). rewrite Forall_cons.
    destruct (isSpace c) eqn:E.
    + rewrite IH. apply isSpace_spec in E. tauto.
    + split.
      * intros [H _]%append_eq_nil. destruct start; [by apply ToUpper1_nonempty in H|done].
      * intros [-> _]. by rewrite (proj2 (isSpace_spec space) eq_refl) in E.
Qed.

(** X4. [Capitalize] gives the empty string exactly for the strings that
    hold nothing but spaces, the empty string among them: these are the
    titles under which [GoType] registers nothing. *)
Theorem X4_Capitalize_empty s :
  Capitalize s = "" <-> Forall (fun b => b = space) (bytes s).
Proof. rewrite Capitalize_capitalizeWords. apply capitalizeWords_nil. Qed.

(** ** The synthesizer *)

Lemma TypeExpr_mono (P Q : string -> Prop) structPrefix t :
  (forall name, P name -> Q name) ->
  TypeExpr P structPrefix t -> TypeExpr Q structPrefix t.
Proof.
  intros HPQ. revert t. fix IH 2. intros t [t0 g Hg|t0 Ht|t0 Ht|title Hn Hd|keys ts Hk Hl Hts].
  - by econstructor.
  - constructor. by apply IH.
  - constructor. by apply IH.
  - constructor; [done|by apply HPQ].
  - apply TypeExpr_struct; [done..|].
    clear Hl. revert ts Hts. fix IHl 2. intros ts [|t0 ts0 Ht Hts]; constructor.
    + by apply IH.
    + by apply IHl.
Qed.

Lemma Declared_mono (P Q : string -> Prop) structPrefix name body :
  (forall x, P x -> Q x) ->
  Declared P structPrefix name body -> Declared Q structPrefix name body.
Proof.
  intros HPQ (title & keys & ts & Hn & Hname & Hk & Hl & Hts & Hb).
  exists title, keys, ts. repeat (split; [done|]). split; [|done].
  eapply Forall_impl; [exact Hts|]. intros t. by apply TypeExpr_mono.
Qed.

Lemma scalarType_None t :
  scalarType t = None ->
  String.eqb t "any" = false /\ String.eqb t "boolean" = false /\
  String.eqb t "integer" = false /\ String.eqb t "number" = false /\
  String.eqb t "string" = false.
Proof.
  unfold scalarType.
  destruct (String.eqb t "any"); [done|].
  destruct (String.eqb t "boolean"); [done|].
  destruct (String.eqb t "integer"); [done|].
  destruct (String.eqb t "number"); [done|].
  destruct (String.eqb t "string"); done.
Qed.

Lemma SortedKeys_nil {V} (m : gmap string V) : SortedKeys m = [] -> m = ∅.
Proof.
  intros H. apply map_eq. intros k. rewrite lookup_empty.
  apply eq_None_not_Some. rewrite <- SortedKeys_elem, H. apply not_elem_of_nil.
Qed.

Lemma sameRun_refl r : sameRun r r.
Proof. destruct r as [[t G]| |]; simpl; auto. Qed.


Lemma not_keyword t :
  scalarType t = None -> String.eqb t "array" = false ->
  String.eqb t "object" = false -> t ∉ typeKeywords.
Proof.
  intros (E1 & E2 & E3 & E4 & E5)%scalarType_None Ea Eo Hin.
  unfold typeKeywords in Hin.
  repeat (apply elem_of_cons in Hin as [->|Hin]; [done|]).
  by apply elem_of_nil in Hin.
Qed.

Lemma not_keyword_inv t :
  t ∉ typeKeywords ->
  scalarType t = None /\ String.eqb t "array" = false /\
  String.eqb t "object" = false.
Proof.
  intros Hnot.
  assert (forall k, k ∈ typeKeywords -> String.eqb t k = false) as H.
  { intros k Hk. apply String.eqb_neq. by intros ->. }
  unfold scalarType.
  rewrite !H; [done|unfold typeKeywords; set_solver..].
Qed.

Lemma SortedKeys_head {V} (m : gmap string V) k :
  is_Some (m !! k) ->
  (forall k', is_Some (m !! k') -> String.leb k k' = true) ->
  exists rest, SortedKeys m = k :: rest.
Proof.
  intros Hk Hmin.
  pose proof (SortedKeys_Sorted m) as Hsorted.
  pose proof (SortedKeys_elem m) as Helem.
  destruct (SortedKeys m) as [|h rest].
  { apply Helem in Hk. by apply elem_of_nil in Hk. }
  exists rest. f_equal.
  assert (string_le k h) as Hkh.
  { apply Hmin, Helem. left. }
  assert (string_le h k) as Hhk.
  { apply Helem in Hk. apply elem_of_cons in Hk as [->|Hk]; [by destruct (total string_le h h)|].
    apply Sorted_StronglySorted in Hsorted; [|apply _].
    apply StronglySorted_inv in Hsorted as [_ Hall].
    by eapply Forall_forall in Hall. }
  by apply (anti_symm string_le).
Qed.

Section structgen_more.

Variable ReadFile : string -> file.
Variable structPrefix : string.
Variable packageName : string.
Variable format_Source : string -> string.

Local Abbreviation resolve := (JsonSchema_LoadRef ReadFile).
Local Abbreviation fromInterface := (SchemaFromInterface ReadFile).
Local Abbreviation typeOf := (JsonSchema_GoType ReadFile structPrefix).


Lemma typeOf_cases n js js' c G :
  resolve n js = Ok js' ->
  typeOf (S n) js c G =
    match Type_ js' with
    | JString t =>
        match scalarType t with
        | Some g => Ok (g, G)
        | None =>
            if String.eqb t "array" then
              match Items js' with
              | None => Panic (NoArrayItems js')
              | Some items => wrapType "[]" (typeOf n items true G)
              end
            else if String.eqb t "object" then
              if decide (props js' = ∅) then
                match AdditionalProperties js' with
                | Some ap => wrapType "map[string]" (typeOf n ap true G)
                | None => Ok ("interface{}", G)
                end
              else
                '(src, G1) ← forEach (structField (typeOf n) js')
                                     (SortedKeys (props js'))
                                     ("struct {" +:+ nl, G);
                let src := src +:+ "}" in
                let name := Capitalize (Title js') in
                if nonempty name then
                  Ok (if c then structPrefix +:+ name else src,
                      <[structPrefix +:+ name := src]> G1)
                else Ok (src, G1)
            else Panic (UnknownTypeString t)
        end
    | JArray [t0] => typeOf n (typeListNode (Title js') t0) c G
    | JArray _ => Ok ("interface{}", G)
    | j => Panic (UnknownType j)
    end.
Proof.
  intros Hres.
  destruct (Type_ js') as [|b|x|t|l|m] eqn:Hty;
    try (cbn [JsonSchema_GoType]; rewrite Hres; simpl; by rewrite Hty).
  destruct (scalarType t) as [g|] eqn:Hg; [by eapply typeOf_scalar|].
    destruct (String.eqb t "array") eqn:Ea.
    { apply String.eqb_eq in Ea as ->. by eapply typeOf_array. }
    destruct (String.eqb t "object") eqn:Eo.
    { apply String.eqb_eq in Eo as ->.
      destruct (decide (props js' = ∅)).
      - by eapply typeOf_object_empty.
      - by eapply typeOf_object_struct. }
    apply scalarType_None in Hg as (E1 & E2 & E3 & E4 & E5).
    cbn [JsonSchema_GoType]. rewrite Hres. simpl. rewrite Hty.
    by rewrite E1, E2, E3, E4, E5, Ea, Eo.
Qed.

Lemma forEach_structField_kept n js' :
  (forall child c G t G',
     typeOf n child c G = Ok (t, G') -> RegistryKept structPrefix G t G') ->
  forall keys src0 G0 src G1,
    forEach (structField (typeOf n) js') keys (src0, G0) = Ok (src, G1) ->
    (forall name, registered G0 name -> registered G1 name) /\
    (forall name body,
       G1 !! name = Some body ->
       G0 !! name = Some body \/
       Declared (registered G1) structPrefix name body) /\
    exists ts,
      Forall (TypeExpr (registered G1) structPrefix) ts /\
      length ts = length keys /\
      src = src0 +:+ joinStrings (zip_with fieldDecl keys ts).
Proof.
  intros IH keys. induction keys as [|k keys IHk]; intros src0 G0 src G1; simpl.
  - intros [= <- <-]. split; [done|]. split; [by left|].
    exists []. by rewrite append_nil_r.
  - intros ([src1 G'] & Hfield & Hrest)%bind_Ok_inv.
    unfold structField in Hfield.
    destruct (props js' !! k) as [[child|]|]; try done.
    apply bind_Ok_inv in Hfield as ([t Gt] & Ht & [= <- <-]).
    destruct (IH _ _ _ _ _ Ht) as (K1 & T1 & D1).
    destruct (IHk _ _ _ _ Hrest) as (K2 & D2 & ts & F2 & Hlen & ->).
    split; [by intros name ?; apply K2, K1|]. split.
    + intros name body Hin. destruct (D2 _ _ Hin) as [Hin'|Hd]; [|by right].
      destruct (D1 _ _ Hin') as [?|Hd]; [by left|].
      right. by eapply Declared_mono.
    + exists (t :: ts). split; [constructor; [by eapply TypeExpr_mono|done]|].
      split; [simpl; by rewrite Hlen|]. simpl. by rewrite append_assoc.
Qed.

Lemma typeOf_kept n js c G t G' :
  typeOf n js c G = Ok (t, G') -> RegistryKept structPrefix G t G'.
Proof.
  revert js c G t G'. induction n as [|n IH]; intros js c G t G' H; [done|].
  pose proof H as H0. cbn [JsonSchema_GoType] in H0.
  apply bind_Ok_inv in H0 as (js' & Hres & _).
  rewrite (typeOf_cases _ _ _ _ _ Hres) in H.
  assert (forall g, scalarType "any" = Some g ->
                    RegistryKept structPrefix G g G) as Hany.
  { intros g Hg. split; [done|]. split; [by econstructor|by left]. }
  destruct (Type_ js') as [|b|x|s|l|m]; try done.
  - destruct (scalarType s) as [g|] eqn:Hs.
    { injection H as <- <-. split; [done|]. split; [by econstructor|by left]. }
    destruct (String.eqb s "array").
    { destruct (Items js'); [|done].
      apply wrapType_Ok in H as (t0 & H & ->).
      destruct (IH _ _ _ _ _ H) as (K & T & D).
      split; [done|]. split; [by constructor|done]. }
    destruct (String.eqb s "object"); [|done].
    destruct (decide (props js' = ∅)) as [|Hne].
    { destruct (AdditionalProperties js').
      - apply wrapType_Ok in H as (t0 & H & ->).
        destruct (IH _ _ _ _ _ H) as (K & T & D).
        split; [done|]. split; [by constructor|done].
      - injection H as <- <-. by apply Hany. }
    apply bind_Ok_inv in H as ([src G1] & Hloop & Hfin).
    apply (forEach_structField_kept n js' IH) in Hloop
      as (K & D & ts & Hts & Hlen & ->).
    assert (SortedKeys (props js') <> []) as Hkeys
      by (intros Hnil; by apply SortedKeys_nil in Hnil).
    rewrite append_assoc in Hfin.
    change (("struct {" +:+ nl) +:+ ?x) with ("struct {" +:+ nl +:+ x) in Hfin.
    simpl in Hfin. fold (structBody (SortedKeys (props js')) ts) in Hfin.
    destruct (nonempty (Capitalize (Title js'))) eqn:Hname.
    + set (name := structPrefix +:+ Capitalize (Title js')) in *.
      set (body := structBody (SortedKeys (props js')) ts) in *.
      assert (G' = <[name := body]> G1) as -> by (by injection Hfin as _ <-).
      assert (forall x, registered G1 x -> registered (<[name := body]> G1) x)
        as Kins.
      { intros x Hx. unfold registered.
        destruct (decide (name = x)) as [->|];
          [by rewrite lookup_insert_eq|by rewrite lookup_insert_ne]. }
      assert (TypeExpr (registered (<[name := body]> G1)) structPrefix body)
        as Hbody.
      { apply TypeExpr_struct; [done..|].
        eapply Forall_impl; [exact Hts|]. intros t0. by apply TypeExpr_mono. }
      split; [by intros x ?; apply Kins, K|]. split.
      * destruct c; injection Hfin as <-; [|done].
        apply TypeExpr_name; [done|]. unfold registered.
        by rewrite lookup_insert_eq.
      * intros x bx Hx. destruct (decide (name = x)) as [<-|Hne'].
        -- rewrite lookup_insert_eq in Hx. injection Hx as <-. right.
           exists (Title js'), (SortedKeys (props js')), ts.
           repeat (split; [done|]). split; [|done].
           eapply Forall_impl; [exact Hts|]. intros t0. by apply TypeExpr_mono.
        -- rewrite lookup_insert_ne in Hx by done.
           destruct (D _ _ Hx) as [?|Hd]; [by left|].
           right. by eapply Declared_mono.
    + injection Hfin as <- <-. split; [done|]. split; [|done].
      by apply TypeExpr_struct.
  - destruct l as [|t0 [|? ?]]; try (injection H as <- <-; by apply Hany).
    by eapply IH.
Qed.

(** X5. A type expression that [GoType] returns is one of the five scalar
    types, a slice or a map with string keys of a type expression, the
    prefix followed by a capitalized title that is not empty, or a struct
    body with at least one field whose field types are type expressions;
    and every type name in it is a name of the registry that the call
    leaves. *)
Theorem X5_result_is_type_expression js c G t G' :
  Synthesizes ReadFile structPrefix js c G (Ok (t, G')) ->
  TypeExpr (registered G') structPrefix t.
Proof. intros [_ [n Hn]]. by destruct (typeOf_kept _ _ _ _ _ _ Hn) as (_ & ? & _). Qed.

(** X6. [GoType] never takes a name out of the registry: a name that the
    registry holds before a call that returns is held after it, under the
    same body or under another one. *)
Theorem X6_registry_keeps_names js c G t G' :
  Synthesizes ReadFile structPrefix js c G (Ok (t, G')) ->
  forall name, is_Some (G !! name) -> is_Some (G' !! name).
Proof. intros [_ [n Hn]]. by destruct (typeOf_kept _ _ _ _ _ _ Hn) as (? & _). Qed.

(** X7. Every entry of the registry after a call of [GoType] that returns
    is an entry that the registry held before the call, or a struct body
    with at least one field under the prefix followed by a capitalized
    title that is not empty; the field types of that body are type
    expressions, and every type name in them is a name of the registry
    that the call leaves. *)
Theorem X7_registry_entries_declared js c G t G' :
  Synthesizes ReadFile structPrefix js c G (Ok (t, G')) ->
  forall name body,
    G' !! name = Some body ->
    G !! name = Some body \/
    Declared (registered G') structPrefix name body.
Proof. intros [_ [n Hn]]. by destruct (typeOf_kept _ _ _ _ _ _ Hn) as (_ & _ & ?). Qed.

Lemma typeOf_collapse n js G :
  sameRun (typeOf n js true G) (typeOf n js false G).
Proof.
  revert js G. induction n as [|n IH]; intros js G; [done|].
  destruct (resolve n js) as [js'| |] eqn:Hres;
    [|cbn [JsonSchema_GoType]; rewrite Hres; done..].
  rewrite !(typeOf_cases _ _ _ _ _ Hres).
  destruct (Type_ js') as [|b|x|s|l|m]; try done.
  - destruct (scalarType s); [apply sameRun_refl|].
    destruct (String.eqb s "array"); [apply sameRun_refl|].
    destruct (String.eqb s "object"); [|done].
    destruct (decide (props js' = ∅)); [apply sameRun_refl|].
    destruct (forEach _ _ _) as [[src G1]| |]; [|done..]. simpl.
    destruct (nonempty _); [|apply sameRun_refl].
    split; [done|]. right. apply lookup_insert_eq.
  - destruct l as [|t0 [|? ?]]; [apply sameRun_refl|apply IH|apply sameRun_refl].
Qed.

(** X8. The argument [collapse] decides the type expression that [GoType]
    returns and nothing else: with [true] and with [false] the call returns
    for the same nodes and leaves the same registry, or panics with the same
    panic; the expression returned with [true] is the one returned with
    [false], or a name under which the registry holds it. *)
Theorem X8_collapse_changes_expression_only js G :
  (forall t G',
     Synthesizes ReadFile structPrefix js true G (Ok (t, G')) ->
     exists t', Synthesizes ReadFile structPrefix js false G (Ok (t', G')) /\
                (t = t' \/ G' !! t = Some t')) /\
  (forall t' G',
     Synthesizes ReadFile structPrefix js false G (Ok (t', G')) ->
     exists t, Synthesizes ReadFile structPrefix js true G (Ok (t, G')) /\
               (t = t' \/ G' !! t = Some t')) /\
  (forall p,
     Synthesizes ReadFile structPrefix js true G (Panic p) <->
     Synthesizes ReadFile structPrefix js false G (Panic p)).
Proof.
  split; [|split].
  - intros t G' [_ [n Hn]]. pose proof (typeOf_collapse n js G) as H.
    rewrite Hn in H. destruct (typeOf n js false G) as [[t' G2]| |] eqn:E; try done.
    destruct H as [<- H]. exists t'. split; [|done]. split; [done|by exists n].
  - intros t' G' [_ [n Hn]]. pose proof (typeOf_collapse n js G) as H.
    rewrite Hn in H. destruct (typeOf n js true G) as [[t G1]| |] eqn:E; try done.
    destruct H as [-> H]. exists t. split; [|done]. split; [done|by exists n].
  - intros p. split; intros [_ [n Hn]]; pose proof (typeOf_collapse n js G) as H;
      rewrite Hn in H.
    + destruct (typeOf n js false G) as [[t' G2]| |] eqn:E; try done.
      simpl in H. subst. split; [done|by exists n].
    + destruct (typeOf n js true G) as [[t' G2]| |] eqn:E; try done.
      simpl in H. subst. split; [done|by exists n].
Qed.



Lemma typeOf_Panic_class n js c G p :
  typeOf n js c G = Panic p -> synthesizerPanic p.
Proof.
  revert js c G. induction n as [|n IH]; intros js c G H; [done|].
  destruct (resolve n js) as [js'|q|] eqn:Hres;
    [|cbn [JsonSchema_GoType] in H; rewrite Hres in H..]; [| |done].
  2:{ injection H as <-. apply resolve_Panic_class in Hres. by destruct q. }
  rewrite (typeOf_cases _ _ _ _ _ Hres) in H.
  destruct (Type_ js') as [|b|x|s|l|m] eqn:Hty; try by injection H as <-.
  - destruct (scalarType s) eqn:Hs; [done|].
    destruct (String.eqb s "array") eqn:Ea.
    { apply String.eqb_eq in Ea as ->.
      destruct (Items js') eqn:Hit; [|by injection H as <-].
      apply wrapType_Panic in H. by eapply IH. }
    destruct (String.eqb s "object") eqn:Eo;
      [|injection H as <-; by apply not_keyword].
    destruct (decide (props js' = ∅)).
    { destruct (AdditionalProperties js'); [|done].
      apply wrapType_Panic in H. by eapply IH. }
    apply bind_Panic_inv in H as [H|([? ?] & _ & H)].
    + apply forEach_Panic_inv in H as (k & [src G'] & _ & H).
      unfold structField in H.
      destruct (props js' !! k) as [[child|]|]; try by injection H as <-.
      apply bind_Panic_inv in H as [H|([? ?] & _ & H)]; [by eapply IH|done].
    + simpl in H. by destruct (nonempty _).
  - destruct l as [|t0 [|? ?]]; try done. by eapply IH.
Qed.

(** X9. The method [LoadRef] panics only for a document that is missing
    or does not decode, for a second reference, or for a value of the wrong
    dynamic type in an [additionalProperties] description.  [GoType] panics
    with one of these, or for missing items on a node of type ["array"]
    that has none, for a type string that is no keyword, for a type that
    is neither a string nor a list, or on a nil property. *)
Theorem X9_panics_classified :
  (forall js p, Resolves ReadFile js (Panic p) -> resolverPanic p) /\
  (forall js c G p,
     Synthesizes ReadFile structPrefix js c G (Panic p) -> synthesizerPanic p).
Proof.
  split.
  - intros js p [_ [n Hn]]. by apply resolve_Panic_class in Hn.
  - intros js c G p [_ [n Hn]]. by eapply typeOf_Panic_class.
Qed.

(** X10. On a node that resolves with a type string [t], [GoType] panics
    with [Unknown type string: t] exactly when [t] is none of the seven
    keywords, compared byte by byte; the panic is a Type Error. *)
Theorem X10_unknown_type_string js js' c G t :
  Resolves ReadFile js (Ok js') ->
  Type_ js' = JString t ->
  (Synthesizes ReadFile structPrefix js c G (Panic (UnknownTypeString t))
     <-> t ∉ typeKeywords) /\
  errorKind (UnknownTypeString t) = TypeError.
Proof.
  intros Hres Hty. split; [|done]. split.
  - intros [_ [n Hn]]. by apply typeOf_Panic_class in Hn.
  - intros (Hs & Ea & Eo)%not_keyword_inv.
    apply (Synthesizes_now _ _ _ _ _ _ _ Hres); [|done].
    intros n Hn. rewrite (typeOf_cases _ _ _ _ _ Hn), Hty, Hs, Ea, Eo. done.
Qed.

(** X11. On a node that resolves, [GoType] panics with [Unknown type]
    and the type of the node exactly when that type is neither a string
    nor a list: absent, a boolean, a number or an object; the panic is a
    Type Error. *)
Theorem X11_unknown_type_shape js js' c G :
  Resolves ReadFile js (Ok js') ->
  (Synthesizes ReadFile structPrefix js c G (Panic (UnknownType (Type_ js')))
     <-> (forall t, Type_ js' <> JString t) /\ (forall l, Type_ js' <> JArray l)) /\
  errorKind (UnknownType (Type_ js')) = TypeError.
Proof.
  intros Hres. split; [|done]. split.
  - intros [_ [n Hn]]. apply typeOf_Panic_class in Hn. simpl in Hn.
    by destruct (Type_ js').
  - intros [Hs Hl].
    apply (Synthesizes_now _ _ _ _ _ _ _ Hres); [|done].
    intros n Hn. rewrite (typeOf_cases _ _ _ _ _ Hn).
    destruct (Type_ js') as [|b|x|s|l|m]; try done.
    + by destruct (Hs s).
    + by destruct (Hl l).
Qed.


(** X12. An object node one of whose properties is the nil pointer, as
    [null] decodes, is never given a type: no call of [GoType] on it
    returns.  When the key of that property is the least key of the node,
    the call panics on the nil pointer. *)
Theorem X12_nil_property_fails js js' c G k :
  Resolves ReadFile js (Ok js') ->
  Type_ js' = JString "object" ->
  props js' !! k = Some None ->
  (forall t G', ~ Synthesizes ReadFile structPrefix js c G (Ok (t, G'))) /\
  ((forall k', is_Some (props js' !! k') -> String.leb k k' = true) ->
   Synthesizes ReadFile structPrefix js c G (Panic NilDereference)).
Proof.
  intros Hres Hty Hk.
  assert (props js' <> ∅) as Hne by (intros E; by rewrite E, lookup_empty in Hk).
  split.
  - intros t G' Hsyn.
    apply (Synthesizes_struct _ _ _ _ _ _ _ _ Hres Hty Hne) in Hsyn
      as (ts & G1 & Hts & _).
    assert (k ∈ SortedKeys (props js')) as Hin by (by apply SortedKeys_elem).
    induction Hts as [|k0 keys0 child t0 ts G0 G2 G3 Hk0 _ _ IH].
    + by apply elem_of_nil in Hin.
    + apply elem_of_cons in Hin as [->|Hin]; [congruence|by apply IH].
  - intros Hmin.
    destruct (SortedKeys_head (props js') k) as [rest Hkeys]; [done..|].
    apply (Synthesizes_now _ _ _ _ _ _ _ Hres); [|done].
    intros n Hn. rewrite (typeOf_object_struct _ _ _ _ _ _ _ Hn Hty Hne), Hkeys.
    simpl. by rewrite Hk.
Qed.

(** X13. A node whose type is a list of one type string [t] is given the
    scalar type of [t] when [t] is a scalar keyword and ["interface{}"]
    when [t] is ["object"], whatever properties the node has; with [t]
    ["array"] the call panics for missing items, whatever items the node
    has; with any other [t] it panics for an unknown type string.  The
    registry stays as it is. *)
Theorem X13_type_list_of_keyword js js' c G t :
  Resolves ReadFile js (Ok js') ->
  Type_ js' = JArray [JString t] ->
  (forall g, scalarType t = Some g ->
     Synthesizes ReadFile structPrefix js c G (Ok (g, G))) /\
  (t = "object" ->
     Synthesizes ReadFile structPrefix js c G (Ok ("interface{}", G))) /\
  (t = "array" ->
     Synthesizes ReadFile structPrefix js c G
       (Panic (NoArrayItems (plain (typeListNode (Title js') (JString t)))))) /\
  (t ∉ typeKeywords ->
     Synthesizes ReadFile structPrefix js c G (Panic (UnknownTypeString t))).
Proof.
  intros Hres Hty.
  assert (forall r, r <> OutOfFuel ->
            (forall n, typeOf (S (S (S n))) (typeListNode (Title js') (JString t)) c G = r) ->
            Synthesizes ReadFile structPrefix js c G r) as Hrun.
  { intros r Hr Hn.
    apply (Synthesizes_nested ReadFile structPrefix js js' c G
             (typeListNode (Title js') (JString t)) c id Hres).
    - intros n Hres'. by rewrite (typeOf_list _ _ _ _ _ _ _ _ Hres' Hty).
    - done.
    - exists r. split; [|done]. split; [done|]. exists 3. apply Hn. }
  assert (forall n, resolve (S (S n)) (typeListNode (Title js') (JString t))
                    = Ok (plain (typeListNode (Title js') (JString t)))) as Hplain.
  { intros n. apply resolve_typeListNode. }
  assert (forall n, typeOf (S (S (S n))) (typeListNode (Title js') (JString t)) c G
                    = match scalarType t with
                      | Some g => Ok (g, G)
                      | None =>
                          if String.eqb t "array" then
                            Panic (NoArrayItems
                                     (plain (typeListNode (Title js') (JString t))))
                          else if String.eqb t "object" then Ok ("interface{}", G)
                          else Panic (UnknownTypeString t)
                      end) as Hcases.
  { intros n. rewrite (typeOf_cases _ _ _ _ _ (Hplain n)).
    change (Type_ (plain (typeListNode (Title js') (JString t)))) with (JString t).
    cbv beta iota.
    destruct (scalarType t); [done|].
    destruct (String.eqb t "array"); [done|].
    destruct (String.eqb t "object"); [|done].
    by rewrite decide_True by done. }
  split; [|split; [|split]].
  - intros g Hg. apply Hrun; [done|]. intros n. by rewrite Hcases, Hg.
  - intros ->. apply Hrun; [done|]. intros n. by rewrite Hcases.
  - intros ->. apply Hrun; [done|]. intros n. by rewrite Hcases.
  - intros (Hs & Ea & Eo)%not_keyword_inv. apply Hrun; [done|]. intros n.
    by rewrite Hcases, Hs, Ea, Eo.
Qed.

End structgen_more.

(** ** The resolver *)

Section structgen_resolver.

Variable ReadFile : string -> file.
Variable structPrefix : string.

Local Abbreviation resolve := (JsonSchema_LoadRef ReadFile).
Local Abbreviation fromInterface := (SchemaFromInterface ReadFile).
Local Abbreviation typeOf := (JsonSchema_GoType ReadFile structPrefix).

(** The fields of a node without a reference after [LoadRef]. *)
Lemma resolve_frame n js js' :
  Ref js = "" -> resolve n js = Ok js' ->
  Schema js' = Schema js /\ Description js' = Description js /\
  AdditionalInterface js' = AdditionalInterface js /\
  match Extends js with
  | None =>
      Extends js' = None /\ Title js' = Title js /\ Type_ js' = Type_ js /\
      Items js' = Items js /\ props js' = props js
  | Some ext =>
      exists n' ext', n = S n' /\ resolve n' ext = Ok ext' /\
        Extends js' = Some ext' /\ MergedFrom js' js ext'
  end.
Proof.
  intros Href (n' & js1 & ap & -> & Hjs1 & Hap & H)%resolve_Ok_inv.
  rewrite resolveRef_id in Hjs1 by done. injection Hjs1 as <-.
  destruct (prepared_fields ap js) as (HS&_&HT&HTy&HD&HE&HP&HAI&_&HI).
  destruct (Extends js) as [ext|].
  - destruct H as (ext' & Hext & ->).
    destruct (MergedFrom_mergeExtends ap js ext') as [HE' HM].
    destruct (mergeExtends_frame
                (set_Extends (Some ext')
                   (set_AdditionalProperties ap (makeProperties js))) ext')
      as (-> & _ & -> & _ & -> & _).
    destruct (set_Extends_fields (Some ext')
                (set_AdditionalProperties ap (makeProperties js)))
      as (-> & _ & _ & _ & -> & _ & _ & -> & _).
    repeat split; try done. by exists n', ext'.
  - subst js'. repeat split; try done. unfold props. by rewrite HP.
Qed.

(** The node that a resolved node extends is the result of a call. *)
Lemma resolve_Extends n js js' e :
  resolve n js = Ok js' -> Extends js' = Some e ->
  exists n' e0 js1,
    resolve n' e0 = Ok e /\ MergedFrom js' js1 e.
Proof.
  intros (n' & js1 & ap & -> & Hjs1 & Hap & H)%resolve_Ok_inv He.
  destruct (Extends js1) as [ext|] eqn:Hext.
  - destruct H as (ext' & Hres & ->).
    destruct (MergedFrom_mergeExtends ap js1 ext') as [HE' HM].
    rewrite HE' in He. injection He as <-. by exists n', ext, js1.
  - subst js'.
    destruct (prepared_fields ap js1) as (_&_&_&_&_&HE&_). congruence.
Qed.

Lemma fromInterface_Some_inv n i out :
  fromInterface n i = Ok (Some out) ->
  exists n' m out0,
    n = S n' /\ i = JObject m /\ resolve n' out0 = Ok out /\
    (lookupMember m "$ref" = None -> Ref out0 = "") /\
    AdditionalInterface out0 = JNull.
Proof.
  destruct n as [|n]; [done|]. destruct i as [| | | | |m]; try done.
  cbn [SchemaFromInterface].
  intros (ext & _ & (items & _ & H)%bind_Ok_inv)%bind_Ok_inv.
  apply bind_Ok_inv in H as (out1 & H1 & H).
  apply bind_Ok_inv in H as (out2 & H2 & H).
  apply bind_Ok_inv in H as (out3 & H3 & H).
  apply bind_Ok_inv in H as (out4 & H4 & H).
  apply bind_Ok_inv in H as (out5 & H5 & [= <-]).
  exists n, m, out4. repeat split; try done.
  - intros Hnoref. rewrite Hnoref in H1. injection H1 as <-.
    destruct (lookupMember m "title") as [str|].
    + apply bind_Ok_inv in H2 as (s & _ & [= <-]).
      destruct (lookupMember m "description") as [str'|].
      * apply bind_Ok_inv in H3 as (s' & _ & [= <-]).
        destruct (lookupMember m "properties") as [prop|].
        -- apply bind_Ok_inv in H4 as (pm & _ & (ps & _ & [= <-])%bind_Ok_inv). done.
        -- by injection H4 as <-.
      * injection H3 as <-.
        destruct (lookupMember m "properties") as [prop|].
        -- apply bind_Ok_inv in H4 as (pm & _ & (ps & _ & [= <-])%bind_Ok_inv). done.
        -- by injection H4 as <-.
    + injection H2 as <-.
      destruct (lookupMember m "description") as [str'|].
      * apply bind_Ok_inv in H3 as (s' & _ & [= <-]).
        destruct (lookupMember m "properties") as [prop|].
        -- apply bind_Ok_inv in H4 as (pm & _ & (ps & _ & [= <-])%bind_Ok_inv). done.
        -- by injection H4 as <-.
      * injection H3 as <-.
        destruct (lookupMember m "properties") as [prop|].
        -- apply bind_Ok_inv in H4 as (pm & _ & (ps & _ & [= <-])%bind_Ok_inv). done.
        -- by injection H4 as <-.
  - assert (AdditionalInterface out1 = JNull) as A1.
    { destruct (lookupMember m "$ref"); [|by injection H1 as <-].
      by apply bind_Ok_inv in H1 as (s & _ & [= <-]). }
    assert (AdditionalInterface out2 = JNull) as A2.
    { destruct (lookupMember m "title"); [|by injection H2 as <-].
      apply bind_Ok_inv in H2 as (s & _ & [= <-]). by destruct out1. }
    assert (AdditionalInterface out3 = JNull) as A3.
    { destruct (lookupMember m "description"); [|by injection H3 as <-].
      apply bind_Ok_inv in H3 as (s & _ & [= <-]). by destruct out2. }
    destruct (lookupMember m "properties"); [|by injection H4 as <-].
    apply bind_Ok_inv in H4 as (pm & _ & (ps & _ & [= <-])%bind_Ok_inv).
    by destruct out3.
Qed.

(** X14. After a call of [LoadRef] that returns, the node has no
    reference and its map of properties is made, also when it had none;
    the node it extends and its [additionalProperties] node are resolved
    themselves, a call of [LoadRef] on them returns and changes nothing;
    and it has an [additionalProperties] node exactly when its
    [additionalProperties] is neither absent nor a boolean. *)
Theorem X14_resolved_node_shape js js' :
  Resolves ReadFile js (Ok js') ->
  Ref js' = "" /\
  is_Some (Properties js') /\
  (forall e, Extends js' = Some e -> Resolves ReadFile e (Ok e)) /\
  (forall ap, AdditionalProperties js' = Some ap -> Resolves ReadFile ap (Ok ap)) /\
  (AdditionalProperties js' = None <->
     AdditionalInterface js' = JNull \/ exists b, AdditionalInterface js' = JBool b).
Proof.
  intros [_ [n Hn]].
  split; [by eapply resolve_Ref|].
  split; [by erewrite resolve_Properties|].
  destruct (resolve_AdditionalProperties _ _ _ _ Hn) as [n1 Hap].
  split; [|split; [|split]].
  - intros e He.
    destruct (resolve_Extends _ _ _ _ Hn He) as (n' & e0 & _ & He0 & _).
    split; [done|]. exists n'. by eapply resolve_idempotent.
  - intros ap Heq. rewrite Heq in Hap.
    apply fromInterface_Some_inv in Hap as (n' & m & out0 & _ & _ & Hout & _).
    split; [done|]. exists n'. by eapply resolve_idempotent.
  - intros Hnone. rewrite Hnone in Hap.
    destruct (AdditionalInterface js') as [|b| | | |m]; eauto;
      try (by destruct n1).
    by apply fromInterface_object in Hap as [? ?].
  - intros Habs. by eapply fromInterface_absent.
Qed.

(** X15. Inheritance goes up the whole chain: for every node that a
    resolved node extends, directly or through other nodes, the resolved
    node has a property for each key of that node, a title if that node
    has one, a type if that node has one, and items if that node has
    some. *)
Theorem X15_ancestors_are_inherited js js' a :
  Resolves ReadFile js (Ok js') ->
  Ancestor js' a ->
  (forall k, is_Some (props a !! k) -> is_Some (props js' !! k)) /\
  (Title a <> "" -> Title js' <> "") /\
  (Type_ a <> JNull -> Type_ js' <> JNull) /\
  (is_Some (Items a) -> is_Some (Items js')).
Proof.
  intros [_ [n Hn]] Hanc. revert js n Hn.
  assert (forall js' e n js,
            resolve n js = Ok js' -> Extends js' = Some e ->
            (exists n' e0, resolve n' e0 = Ok e) /\
            (forall k, is_Some (props e !! k) -> is_Some (props js' !! k)) /\
            (Title e <> "" -> Title js' <> "") /\
            (Type_ e <> JNull -> Type_ js' <> JNull) /\
            (is_Some (Items e) -> is_Some (Items js'))) as Hstep.
  { clear. intros js' e n js Hn He.
    destruct (resolve_Extends _ _ _ _ Hn He)
      as (n' & e0 & js1 & He0 & HT & HTy & HI & HP).
    split; [by exists n', e0|]. split; [|split; [|split]].
    - intros k Hk. rewrite HP. by destruct (props js1 !! k).
    - intros Ht. rewrite HT. by destruct (Title js1).
    - intros Ht. rewrite HTy. by destruct (Type_ js1).
    - intros Hi. rewrite HI. by destruct (Items js1). }
  induction Hanc as [js' e He|js' e a He Hanc IH]; intros js n Hn.
  - by destruct (Hstep _ _ _ _ Hn He) as [_ H].
  - destruct (Hstep _ _ _ _ Hn He) as ([n' [e0 He0]] & HP & HT & HTy & HI).
    destruct (IH _ _ He0) as (HP' & HT' & HTy' & HI').
    repeat split; eauto.
Qed.


(** X17. A node that [SchemaFromInterface] returns is resolved: a call of
    [LoadRef] on it returns and leaves it as it is, so it has no reference
    and its map of properties is made. *)
Theorem X17_description_node_is_resolved i out :
  (exists n, fromInterface n i = Ok (Some out)) ->
  Resolves ReadFile out (Ok out) /\ Ref out = "" /\ is_Some (Properties out).
Proof.
  intros [n (n' & m & out0 & _ & -> & Hout & _)%fromInterface_Some_inv].
  split; [|split].
  - split; [done|]. exists n'. by eapply resolve_idempotent.
  - by eapply resolve_Ref.
  - by erewrite resolve_Properties.
Qed.

(** X18. [SchemaFromInterface] reads no [additionalProperties] member of a
    description: the node made of a description without a reference has no
    [additionalProperties] description and no [additionalProperties] node,
    whatever the description says. *)
Theorem X18_nested_additionalProperties_dropped n m out :
  lookupMember m "$ref" = None ->
  fromInterface n (JObject m) = Ok (Some out) ->
  AdditionalInterface out = JNull /\ AdditionalProperties out = None.
Proof.
  intros Hnoref (n' & m' & out0 & _ & [= <-] & Hout & Href & HAI)%fromInterface_Some_inv.
  destruct (resolve_frame _ _ _ (Href Hnoref) Hout) as (_ & _ & HAI' & _).
  rewrite HAI in HAI'. split; [done|].
  destruct (resolve_AdditionalProperties _ _ _ _ Hout) as [n1 Hap].
  rewrite HAI' in Hap. eapply fromInterface_absent; [|exact Hap]. by left.
Qed.

(** X19. A node whose [additionalProperties], after its reference is
    loaded, is a string, a number or an array makes [LoadRef] panic with
    [Unknown schema interface], and [GoType] with it, whatever the type of
    the node is. *)
Theorem X19_bad_additionalProperties js js1 :
  resolveRef ReadFile js = Ok js1 ->
  noDescription (AdditionalInterface js1) ->
  let p := UnknownSchemaInterface (AdditionalInterface js1) in
  Resolves ReadFile js (Panic p) /\
  (forall c G, Synthesizes ReadFile structPrefix js c G (Panic p)) /\
  errorKind p = RuntimeError.
Proof.
  intros Hjs1 Hno p.
  assert (resolve 2 js = Panic p) as Hres.
  { rewrite resolve_S, Hjs1. simpl. by destruct (AdditionalInterface js1). }
  split; [|split; [|done]].
  - split; [done|]. by exists 2.
  - intros c G. split; [done|]. exists 3.
    cbn [JsonSchema_GoType]. by rewrite Hres.
Qed.

End structgen_resolver.

(** ** The decoder and main *)





Section main_facts.

Variable ReadFile : string -> file.
Variable structPrefix : string.
Variable packageName : string.
Variable format_Source : string -> string.

Local Abbreviation typeOf := (JsonSchema_GoType ReadFile structPrefix).


Lemma SortedKeys_length {V} (m : gmap string V) : length (SortedKeys m) = size m.
Proof.
  rewrite (Permutation_length (SortedKeys_Permutation m)).
  unfold MapKeys. by rewrite length_fmap, length_map_to_list.
Qed.

(** X21. What [main] prints when it returns: two lines for the package
    when there is a package name, then two lines for each entry of the
    registry that the synthesis of the entry document leaves.  Every line is
    empty, or the package line, or the formatted declaration of an entry of
    that registry: a struct body with at least one field under the prefix
    followed by a capitalized title that is not empty, in which every type
    name is a name of that registry, so that nothing is used that is not
    declared. *)
Theorem X21_main_declares_structs n arg lines :
  main ReadFile structPrefix packageName format_Source n arg = Ok lines ->
  exists t G,
    rootType ReadFile structPrefix n arg = Ok (t, G) /\
    length lines = (if nonempty packageName then 2 else 0) + 2 * size G /\
    forall line,
      line ∈ lines ->
      line = "" \/
      (nonempty packageName = true /\ line = "package " +:+ packageName) \/
      exists name body,
        G !! name = Some body /\
        Declared (registered G) structPrefix name body /\
        line = format_Source ("type " +:+ name +:+ " " +:+ body).
Proof.
  unfold main. intros ([t G] & Hroot & [= <-])%bind_Ok_inv.
  exists t, G. split; [done|]. split.
  - rewrite length_app. f_equal.
    + by destruct (nonempty packageName).
    + rewrite <- SortedKeys_length.
      induction (SortedKeys G) as [|k ks IH]; [done|]. simpl. rewrite IH. lia.
  - intros line [Hin|Hin]%elem_of_app.
    + destruct (nonempty packageName); [|by apply elem_of_nil in Hin].
      apply elem_of_cons in Hin as [->|Hin]; [by right; left|].
      apply list_elem_of_singleton in Hin. by left.
    + apply list_elem_of_In, in_flat_map in Hin as (name & Hname & Hin).
      apply list_elem_of_In in Hname, Hin.
      apply elem_of_cons in Hin as [->|Hin];
        [|apply list_elem_of_singleton in Hin; by left].
      right; right.
      apply SortedKeys_elem in Hname as [body Hbody]. rewrite Hbody. simpl.
      exists name, body. split; [done|]. split; [|done].
      unfold rootType in Hroot.
      apply bind_Ok_inv in Hroot as (schema & _ & Hroot).
      destruct (typeOf_kept _ _ _ _ _ _ _ _ Hroot) as (_ & _ & D).
      destruct (D _ _ Hbody) as [H|H]; [|done].
      by rewrite lookup_empty in H.
Qed.

(** X22. The entry document of [main]: a file that cannot be read makes
    [main] panic with [Ref not found]; a file that is not JSON, or is JSON
    but neither an object nor [null], makes it panic on decoding; the
    document [null] decodes to the empty schema, which has no type, and
    [main] panics with [Unknown type].  [main] panics exactly when the
    synthesis of the entry document does. *)
Theorem X22_main_entry_document n arg :
  (ReadFile arg = Unreadable ->
     main ReadFile structPrefix packageName format_Source n arg
     = Panic (RefNotFound arg)) /\
  (ReadFile arg = Malformed ->
     main ReadFile structPrefix packageName format_Source n arg
     = Panic (UnmarshalError arg)) /\
  (forall j,
     ReadFile arg = Document j -> j <> JNull -> (forall m, j <> JObject m) ->
     main ReadFile structPrefix packageName format_Source n arg
     = Panic (UnmarshalError arg)) /\
  (ReadFile arg = Document JNull ->
     main ReadFile structPrefix packageName format_Source (S (S (S n))) arg
     = Panic (UnknownType JNull)) /\
  (forall p,
     main ReadFile structPrefix packageName format_Source n arg = Panic p <->
     rootType ReadFile structPrefix n arg = Panic p).
Proof.
  split; [|split; [|split; [|split]]].
  - unfold main, rootType, LoadRef. by intros ->.
  - unfold main, rootType, LoadRef. by intros ->.
  - unfold main, rootType, LoadRef.
    intros j -> Hnull Hobj. destruct j; try done. by destruct (Hobj members).
  - unfold main, rootType, LoadRef. intros ->. simpl Unmarshal. cbv beta iota.
    change (Ok zero ≫= _) with (typeOf (S (S (S n))) zero true ∅).
    rewrite (typeOf_cases ReadFile structPrefix (S (S n)) zero (plain zero)); [done|].
    by rewrite resolve_S.
  - intros p. unfold main.
    destruct (rootType ReadFile structPrefix n arg) as [[t G]| |];
      simpl; split; intros H; try done; by injection H as ->.
Qed.

End main_facts.

(** ** Schema trees without references *)

(** ** The measures, by their parts *)

Lemma map_fold_max_le {A} (f : A -> nat) (m : gmap string A) B :
  map_fold (fun _ c acc => Nat.max (f c) acc) 0 m <= B <->
  forall k c, m !! k = Some c -> f c <= B.
Proof.
  apply (map_fold_weak_ind
           (fun r m => r <= B <-> forall k c, m !! k = Some c -> f c <= B)).
  - split; [intros _ k c; by rewrite lookup_empty | lia].
  - intros i x m0 r Hi IH.
    change (forall k c, <[i:=x]> m0 !! k = Some c -> f c <= B)
      with (map_Forall (fun _ c => f c <= B) (<[i:=x]> m0)).
    rewrite map_Forall_insert by done. unfold map_Forall. rewrite <- IH. lia.
Qed.

Lemma map_fold_and_true {A} (p : A -> bool) (m : gmap string A) :
  map_fold (fun _ c acc => p c && acc) true m = true <->
  forall k c, m !! k = Some c -> p c = true.
Proof.
  apply (map_fold_weak_ind
           (fun r m => r = true <-> forall k c, m !! k = Some c -> p c = true)).
  - split; [intros _ k c; by rewrite lookup_empty | done].
  - intros i x m0 r Hi IH.
    change (forall k c, <[i:=x]> m0 !! k = Some c -> p c = true)
      with (map_Forall (fun _ c => p c = true) (<[i:=x]> m0)).
    rewrite map_Forall_insert by done. unfold map_Forall. rewrite <- IH.
    apply andb_true_iff.
Qed.

Lemma depth_le js B :
  depth js <= S B <->
  jdepth (Type_ js) <= B /\ jdepth (AdditionalInterface js) <= B /\
  depthOpt depth (Extends js) <= B /\ depthOpt depth (Items js) <= B /\
  depthOpt depth (AdditionalProperties js) <= B /\
  forall k c, props js !! k = Some c -> depthOpt depth c <= B.
Proof.
  destruct js as [sc rf ti ty de ex [ps|] ai ap it]; cbn [depth]; unfold props;
    cbn [Type_ AdditionalInterface Extends Items AdditionalProperties Properties default].
  - rewrite <- (map_fold_max_le (depthOpt depth) ps B). lia.
  - split; [|lia]. intros H. repeat split; try lia.
    intros k c. by rewrite lookup_empty.
Qed.

Lemma depth_S js : exists B, depth js = S B.
Proof. destruct js. cbn [depth]. eauto. Qed.

Lemma refFree_spec js :
  refFree js = true <->
  Ref js = "" /\ noRefKey (AdditionalInterface js) = true /\
  allOpt refFree (Extends js) = true /\ allOpt refFree (Items js) = true /\
  allOpt refFree (AdditionalProperties js) = true /\
  forall k c, props js !! k = Some c -> allOpt refFree c = true.
Proof.
  destruct js as [sc rf ti ty de ex [ps|] ai ap it]; cbn [refFree]; unfold props;
    cbn [Ref AdditionalInterface Extends Items AdditionalProperties Properties default];
    rewrite !andb_true_iff, negb_true_iff.
  - rewrite (map_fold_and_true (allOpt refFree) ps). change (id ps) with ps.
    destruct rf; simpl; intuition (done || congruence).
  - assert (forall (k : string) (c : option JsonSchema),
              (∅ : gmap string (option JsonSchema)) !! k = Some c ->
              allOpt refFree c = true) as He
      by (intros k c; by rewrite lookup_empty).
    destruct rf; simpl; intuition (done || congruence).
Qed.

(** ** Decoded values *)

Lemma lookupMember_elem m k v : lookupMember m k = Some v -> (k, v) ∈ m.
Proof.
  induction m as [|[k' v'] m IH]; [done|]. simpl.
  destruct (lookupMember m k) as [w|].
  - intros [= ->]. right. by apply IH.
  - destruct (String.eqb k' k) eqn:E; [|done].
    apply String.eqb_eq in E as ->. intros [= ->]. left.
Qed.

Lemma mapEntries_elem m k v : (k, v) ∈ mapEntries m -> (k, v) ∈ m.
Proof.
  induction m as [|[k' v'] m IH]; [done|]. simpl.
  destruct (existsb _ m).
  - intros H. right. by apply IH.
  - intros [[= -> ->]|H]%elem_of_cons; [left|right; by apply IH].
Qed.

Lemma jdepth_elem m k v : (k, v) ∈ m -> jdepth v < jdepth (JObject m).
Proof.
  cbn [jdepth]. induction m as [|[k' v'] m IH].
  - by intros ?%elem_of_nil.
  - intros [[= -> ->]|H]%elem_of_cons; simpl; [lia|]. apply IH in H. lia.
Qed.

Lemma jdepth_index m k : jdepth (index m k) < jdepth (JObject m).
Proof.
  unfold index. destruct (lookupMember m k) as [v|] eqn:E; simpl; [|lia].
  by eapply (jdepth_elem m k), lookupMember_elem.
Qed.

Lemma noRefKey_elem m k v :
  noRefKey (JObject m) = true -> (k, v) ∈ m -> k <> "$ref" /\ noRefKey v = true.
Proof.
  cbn [noRefKey]. rewrite forallb_forall. intros H Hin.
  apply list_elem_of_In, H in Hin. simpl in Hin.
  apply andb_true_iff in Hin as [Hk Hv]. split; [|done].
  apply negb_true_iff in Hk. by apply String.eqb_neq.
Qed.

Lemma noRefKey_lookup m :
  noRefKey (JObject m) = true -> lookupMember m "$ref" = None.
Proof.
  intros H. destruct (lookupMember m "$ref") as [v|] eqn:E; [|done].
  apply lookupMember_elem in E. by destruct (noRefKey_elem _ _ _ H E).
Qed.

Lemma noRefKey_index m k :
  noRefKey (JObject m) = true -> noRefKey (index m k) = true.
Proof.
  intros H. unfold index. destruct (lookupMember m k) as [v|] eqn:E; [|done].
  apply lookupMember_elem in E. by destruct (noRefKey_elem _ _ _ H E).
Qed.

Lemma bind_OutOfFuel_inv {A B} (m : result A) (k : A -> result B) :
  m ≫= k = OutOfFuel -> m = OutOfFuel \/ exists a, m = Ok a /\ k a = OutOfFuel.
Proof. destruct m as [a| |]; simpl; eauto. discriminate. Qed.

Lemma forEach_OutOfFuel_inv {A S} (f : A -> S -> result S) l s :
  forEach f l s = OutOfFuel -> exists a s', a ∈ l /\ f a s' = OutOfFuel.
Proof.
  revert s. induction l as [|a l IH]; intros s; [done|]. simpl.
  intros [H|(s' & _ & H)]%bind_OutOfFuel_inv.
  - exists a, s. split; [left|done].
  - destruct (IH _ H) as (a' & s'' & Hin & H'). exists a', s''. split; [by right|done].
Qed.

Section structgen_termination.

Variable ReadFile : string -> file.
Variable structPrefix : string.
Variable packageName : string.
Variable format_Source : string -> string.

Local Abbreviation resolve := (JsonSchema_LoadRef ReadFile).
Local Abbreviation fromInterface := (SchemaFromInterface ReadFile).
Local Abbreviation typeOf := (JsonSchema_GoType ReadFile structPrefix).

Lemma fromInterface_S n m :
  fromInterface (S n) (JObject m) =
    out ← descriptionNode ReadFile n m; out ← resolve n out; Ok (Some out).
Proof.
  cbn [SchemaFromInterface]. unfold descriptionNode.
  destruct (fromInterface n (index m "extends")) as [ext| |]; [|done..].
  destruct (fromInterface n (index m "items")) as [items| |]; [|done..].
  cbn [mbind result_bind].
  destruct (match lookupMember m "$ref" with Some _ => _ | None => _ end)
    as [out1| |]; [|done..]. cbn [mbind result_bind].
  destruct (match lookupMember m "title" with Some _ => _ | None => _ end)
    as [out2| |]; [|done..]. cbn [mbind result_bind].
  destruct (match lookupMember m "description" with Some _ => _ | None => _ end)
    as [out3| |]; [|done..]. cbn [mbind result_bind].
  done.
Qed.

Lemma forEach_properties n l ps0 ps :
  forEach (fun kv (ps : gmap string (option JsonSchema)) =>
             c ← fromInterface n (snd kv); Ok (<[fst kv := c]> ps)) l ps0 = Ok ps ->
  forall k c, ps !! k = Some c ->
    ps0 !! k = Some c \/ exists v, (k, v) ∈ l /\ fromInterface n v = Ok c.
Proof.
  revert ps0. induction l as [|[k0 v0] l IH]; intros ps0; simpl.
  - intros [= <-]. eauto.
  - intros (ps1 & (c0 & Hc0 & [= <-])%bind_Ok_inv & Hrest)%bind_Ok_inv k c Hk.
    destruct (IH _ Hrest _ _ Hk) as [H|(v & Hin & Hv)].
    + destruct (decide (k0 = k)) as [->|Hne].
      * rewrite lookup_insert_eq in H. injection H as ->.
        right. exists v0. split; [left|done].
      * rewrite lookup_insert_ne in H by done. by left.
    + right. exists v. split; [by right|done].
Qed.

Lemma descriptionNode_inv n m out0 :
  descriptionNode ReadFile n m = Ok out0 ->
  (lookupMember m "$ref" = None -> Ref out0 = "") /\
  Type_ out0 = index m "type" /\
  AdditionalInterface out0 = JNull /\ AdditionalProperties out0 = None /\
  fromInterface n (index m "extends") = Ok (Extends out0) /\
  fromInterface n (index m "items") = Ok (Items out0) /\
  forall k c, props out0 !! k = Some c ->
    exists pm v, lookupMember m "properties" = Some (JObject pm) /\
                 (k, v) ∈ pm /\ fromInterface n v = Ok c.
Proof.
  unfold descriptionNode.
  intros (ext & Hext & (items & Hitems & H)%bind_Ok_inv)%bind_Ok_inv.
  apply bind_Ok_inv in H as (out1 & H1 & H).
  apply bind_Ok_inv in H as (out2 & H2 & H).
  apply bind_Ok_inv in H as (out3 & H3 & H).
  assert (exists r, out1 = set_Ref r (set_Type (index m "type")
                         (set_Extends ext (set_Items items zero))) /\
                    (lookupMember m "$ref" = None -> r = "")) as (r & -> & Hr).
  { destruct (lookupMember m "$ref") as [str|].
    - apply bind_Ok_inv in H1 as (s & _ & [= <-]). by exists s.
    - injection H1 as <-. by exists "". }
  assert (exists t, out2 = set_Title t (set_Ref r (set_Type (index m "type")
                         (set_Extends ext (set_Items items zero))))) as (t & ->).
  { destruct (lookupMember m "title") as [str|].
    - apply bind_Ok_inv in H2 as (s & _ & [= <-]). by exists s.
    - injection H2 as <-. by exists "". }
  assert (exists d, out3 = set_Description d (set_Title t (set_Ref r
                         (set_Type (index m "type")
                            (set_Extends ext (set_Items items zero)))))) as (d & ->).
  { destruct (lookupMember m "description") as [str|].
    - apply bind_Ok_inv in H3 as (s & _ & [= <-]). by exists s.
    - injection H3 as <-. by exists "". }
  destruct (lookupMember m "properties") as [prop|].
  - apply bind_Ok_inv in H as (pm & Hpm & (ps & Hps & [= <-])%bind_Ok_inv).
    destruct prop; try done. injection Hpm as ->.
    repeat split; try done.
    intros k c Hk. change (ps !! k = Some c) in Hk.
    destruct (forEach_properties _ _ _ _ Hps _ _ Hk) as [H|(v & Hin & Hv)].
    + by rewrite lookup_empty in H.
    + exists pm, v. repeat split; [|done]. by apply mapEntries_elem.
  - injection H as <-. by repeat split.
Qed.

Lemma resolve_fields n js js' :
  Ref js = "" -> resolve (S n) js = Ok js' ->
  exists ap,
    fromInterface n (AdditionalInterface js) = Ok ap /\
    Ref js' = "" /\ AdditionalInterface js' = AdditionalInterface js /\
    AdditionalProperties js' = ap /\
    match Extends js with
    | None =>
        Extends js' = None /\ Type_ js' = Type_ js /\ Items js' = Items js /\
        props js' = props js
    | Some ext =>
        exists ext', resolve n ext = Ok ext' /\
          Extends js' = Some ext' /\ MergedFrom js' js ext'
    end.
Proof.
  intros Href Hres. pose proof (resolve_Ref _ _ _ _ Hres) as Href'.
  apply resolve_Ok_inv in Hres as (n' & js1 & ap & [= <-] & Hjs1 & Hap & H).
  rewrite resolveRef_id in Hjs1 by done. injection Hjs1 as <-.
  exists ap. split; [done|]. split; [done|].
  destruct (prepared_fields ap js) as (HS&_&HT&HTy&HD&HE&HP&HAI&HAP&HI).
  destruct (Extends js) as [ext|].
  - destruct H as (ext' & Hext & ->).
    destruct (MergedFrom_mergeExtends ap js ext') as [HE' HM].
    destruct (mergeExtends_frame
                (set_Extends (Some ext')
                   (set_AdditionalProperties ap (makeProperties js))) ext')
      as (_ & _ & _ & _ & -> & ->).
    destruct (set_Extends_fields (Some ext')
                (set_AdditionalProperties ap (makeProperties js)))
      as (_ & _ & _ & _ & _ & _ & _ & -> & -> & _).
    repeat split; try done. by exists ext'.
  - subst js'. repeat split; try done. unfold props. by rewrite HP.
Qed.

(** The node made of a description without references is free of
    references and no deeper than the description, if the nodes made of the
    descriptions in it are. *)
Lemma descriptionNode_refFree n m out0 :
  (forall i o, noRefKey i = true -> fromInterface n i = Ok o ->
     allOpt refFree o = true /\ depthOpt depth o <= jdepth i) ->
  noRefKey (JObject m) = true ->
  descriptionNode ReadFile n m = Ok out0 ->
  refFree out0 = true /\ depth out0 <= jdepth (JObject m).
Proof.
  intros Hinv Hno (Href & HTy & HAI & HAP & Hext & Hitems & Hps)%descriptionNode_inv.
  specialize (Href (noRefKey_lookup _ Hno)).
  destruct (Hinv _ _ (noRefKey_index m "extends" Hno) Hext) as [Fext Dext].
  destruct (Hinv _ _ (noRefKey_index m "items" Hno) Hitems) as [Fit Dit].
  pose proof (jdepth_index m "extends") as J1.
  pose proof (jdepth_index m "items") as J2.
  pose proof (jdepth_index m "type") as J3.
  assert (forall k c, props out0 !! k = Some c ->
            allOpt refFree c = true /\ S (depthOpt depth c) < jdepth (JObject m))
    as Hprops.
  { intros k c Hk. destruct (Hps _ _ Hk) as (pm & v & Hpm & Hin & Hv).
    apply lookupMember_elem in Hpm.
    destruct (noRefKey_elem _ _ _ Hno Hpm) as [_ Hnopm].
    destruct (noRefKey_elem _ _ _ Hnopm Hin) as [_ Hnov].
    destruct (Hinv _ _ Hnov Hv) as [Fc Dc]. split; [done|].
    pose proof (jdepth_elem _ _ _ Hpm). pose proof (jdepth_elem _ _ _ Hin). lia. }
  split.
  - apply refFree_spec. rewrite HAI, HAP. repeat split; try done.
    intros k c Hk. by apply Hprops in Hk as [? ?].
  - destruct (jdepth (JObject m)) as [|B] eqn:HB; [lia|].
    apply depth_le. rewrite HTy, HAI, HAP. simpl. repeat split; try lia.
    intros k c Hk. apply Hprops in Hk as [_ ?]. lia.
Qed.

(** [LoadRef] and [SchemaFromInterface] keep a tree free of references and
    make it no deeper. *)
Lemma resolve_refFree n :
  (forall js js', refFree js = true -> resolve n js = Ok js' ->
     refFree js' = true /\ depth js' <= depth js) /\
  (forall i o, noRefKey i = true -> fromInterface n i = Ok o ->
     allOpt refFree o = true /\ depthOpt depth o <= jdepth i).
Proof.
  induction n as [|n [IH1 IH2]]; [done|]. split.
  - intros js js' (Href & HAI & HE & HI & HAP & HP)%refFree_spec Hres.
    destruct (resolve_fields _ _ _ Href Hres) as (ap & Hap & Href' & HAI' & HAP' & Hext).
    destruct (depth_S js) as [B HB]. rewrite HB.
    assert (depth js <= S B) as (D1 & D2 & D3 & D4 & D5 & D6)%depth_le by lia.
    destruct (IH2 _ _ HAI Hap) as [Fap Dap].
    rewrite refFree_spec, depth_le, Href', HAI', HAP'.
    destruct (Extends js) as [ext|].
    + destruct Hext as (ext' & Hext' & -> & HT & HTy & HIt & HPr).
      destruct (IH1 _ _ HE Hext') as [Fext Dext]. simpl in D3.
      pose proof Fext as (_ & _ & _ & FI & _ & FP)%refFree_spec.
      destruct (depth_S ext') as [B' HB'].
      assert (depth ext' <= S B') as (E1 & _ & _ & E4 & _ & E6)%depth_le by lia.
      assert (B' < B) as HBB by lia.
      rewrite HTy, HIt. simpl.
      assert (forall k c, props js' !! k = Some c ->
                allOpt refFree c = true /\ depthOpt depth c <= B) as Hprops.
      { intros k c. rewrite HPr.
        destruct (props js !! k) as [c0|] eqn:Hk.
        - intros [= <-]. split; [by eapply HP|by eapply D6].
        - intros Hk'. split; [by eapply FP|]. specialize (E6 _ _ Hk'). lia. }
      split; [repeat split; try done|repeat split; try done; try lia].
      * by destruct (Items js).
      * intros k c Hk. by apply Hprops in Hk as [? ?].
      * destruct (Type_ js); simpl in *; lia.
      * destruct (Items js); simpl in *; lia.
      * intros k c Hk. by apply Hprops in Hk as [? ?].
    + destruct Hext as (-> & -> & -> & ->).
      split; [repeat split; try done|repeat split; try done; try lia].
  - intros i o Hno Hfi. destruct i as [| | | | |m]; try done;
      try (injection Hfi as <-; simpl; split; [done|lia]).
    rewrite fromInterface_S in Hfi.
    apply bind_Ok_inv in Hfi as (out0 & Hnode & (out & Hout & [= <-])%bind_Ok_inv).
    destruct (descriptionNode_refFree _ _ _ IH2 Hno Hnode) as [Ffree Fdepth].
    destruct (IH1 _ _ Ffree Hout) as [Fout Dout]. split; [done|]. simpl in *. lia.
Qed.

(** The bound that is enough for a tree without references. *)
Lemma resolve_ends n :
  (forall js, refFree js = true -> 2 * depth js <= n ->
     resolve n js <> OutOfFuel) /\
  (forall i, noRefKey i = true -> 2 * jdepth i + 1 <= n ->
     fromInterface n i <> OutOfFuel).
Proof.
  induction n as [|n [IH1 IH2]].
  { split; [intros js _ Hn|intros i _ Hn; lia].
    destruct (depth_S js) as [B HB]. lia. }
  split.
  - intros js Hfree Hn.
    pose proof Hfree as (Href & HAI & HE & HI & HAP & HP)%refFree_spec.
    destruct (depth_S js) as [B HB].
    assert (depth js <= S B) as (D1 & D2 & D3 & D4 & D5 & D6)%depth_le by lia.
    rewrite resolve_S, resolveRef_id by done. cbn [mbind result_bind].
    intros [H|(ap & Hap & H)]%bind_OutOfFuel_inv.
    { revert H. apply IH2; [done|lia]. }
    cbv zeta in H. destruct (Extends js) as [ext|]; [|done].
    apply bind_OutOfFuel_inv in H as [H|(ext' & _ & H)]; [|done].
    revert H. apply IH1; [done|simpl in D3; lia].
  - intros i Hno Hn. destruct i as [| | | | |m]; try done.
    rewrite fromInterface_S.
    intros [H|(out0 & Hnode & H)]%bind_OutOfFuel_inv.
    + unfold descriptionNode in H.
      pose proof (jdepth_index m "extends") as J1.
      pose proof (jdepth_index m "items") as J2.
      apply bind_OutOfFuel_inv in H as [H|(ext & _ & H)].
      { revert H. apply IH2; [by apply noRefKey_index|lia]. }
      apply bind_OutOfFuel_inv in H as [H|(items & _ & H)].
      { revert H. apply IH2; [by apply noRefKey_index|lia]. }
      apply bind_OutOfFuel_inv in H as [H|(out1 & _ & H)].
      { destruct (lookupMember m "$ref") as [[]|]; done. }
      apply bind_OutOfFuel_inv in H as [H|(out2 & _ & H)].
      { destruct (lookupMember m "title") as [[]|]; done. }
      apply bind_OutOfFuel_inv in H as [H|(out3 & _ & H)].
      { destruct (lookupMember m "description") as [[]|]; done. }
      destruct (lookupMember m "properties") as [prop|] eqn:Hprop; [|done].
      apply bind_OutOfFuel_inv in H as [H|(pm & Hpm & H)]; [by destruct prop|].
      destruct prop; try done. injection Hpm as ->.
      apply bind_OutOfFuel_inv in H as [H|(ps & _ & H)]; [|done].
      apply forEach_OutOfFuel_inv in H as ([k v] & ps & Hin & H).
      apply bind_OutOfFuel_inv in H as [H|(c & _ & H)]; [|done].
      apply mapEntries_elem in Hin. apply lookupMember_elem in Hprop.
      destruct (noRefKey_elem _ _ _ Hno Hprop) as [_ Hnopm].
      destruct (noRefKey_elem _ _ _ Hnopm Hin) as [_ Hnov].
      pose proof (jdepth_elem _ _ _ Hprop). pose proof (jdepth_elem _ _ _ Hin).
      revert H. apply IH2; [done|simpl in *; lia].
    + apply bind_OutOfFuel_inv in H as [H|(out & _ & H)]; [|done].
      destruct (descriptionNode_refFree _ _ _ (proj2 (resolve_refFree n)) Hno Hnode)
        as [Ffree Fdepth].
      revert H. apply IH1; [done|]. simpl in *. lia.
Qed.

Lemma typeOf_ends n js c G :
  refFree js = true -> 2 * depth js + 1 <= n -> typeOf n js c G <> OutOfFuel.
Proof.
  revert js c G. induction n as [|n IH]; intros js c G Hfree Hn; [lia|].
  destruct (resolve n js) as [js'|p|] eqn:Hres.
  - destruct (proj1 (resolve_refFree n) _ _ Hfree Hres) as [Hfree' Hdepth].
    apply refFree_spec in Hfree' as (Href & HAI & HE & HI & HAP & HP).
    destruct (depth_S js') as [B HB].
    assert (depth js' <= S B) as (D1 & D2 & D3 & D4 & D5 & D6)%depth_le by lia.
    rewrite (typeOf_cases _ _ _ _ _ _ _ Hres).
    destruct (Type_ js') as [|b|x|s|l|m]; try done.
    + destruct (scalarType s); [done|].
      destruct (String.eqb s "array").
      { destruct (Items js') as [items|]; [|done].
        rewrite wrapType_OutOfFuel. apply IH; [done|simpl in D4; lia]. }
      destruct (String.eqb s "object"); [|done].
      destruct (decide (props js' = ∅)).
      { destruct (AdditionalProperties js') as [ap|]; [|done].
        rewrite wrapType_OutOfFuel. apply IH; [done|simpl in D5; lia]. }
      intros [H|([src G1] & _ & H)]%bind_OutOfFuel_inv.
      * apply forEach_OutOfFuel_inv in H as (k & [src G1] & _ & H).
        unfold structField in H.
        destruct (props js' !! k) as [[child|]|] eqn:Hk; try done.
        apply bind_OutOfFuel_inv in H as [H|([t G2] & _ & H)]; [|done].
        revert H. apply IH; [by apply (HP _ _ Hk)|].
        specialize (D6 _ _ Hk). simpl in D6. lia.
      * simpl in H. by destruct (nonempty _).
    + destruct l as [|t0 [|? ?]]; try done.
      apply IH; [done|]. simpl in D1.
      change (depth (typeListNode (Title js') t0))
        with (S (Nat.max (jdepth t0) 0)). lia.
  - cbn [JsonSchema_GoType]. by rewrite Hres.
  - exfalso. revert Hres. apply resolve_ends; [done|lia].
Qed.

(** X23. On a schema tree without references, no node with a [$ref] and
    no description with a member of that name, every call ends: [LoadRef]
    returns or panics within a call depth of twice the depth of the tree,
    [GoType] within one more, and so does [main] on an entry document that
    decodes to such a tree. *)
Theorem X23_ends_without_references js :
  refFree js = true ->
  JsonSchema_LoadRef ReadFile (2 * depth js) js <> OutOfFuel /\
  (forall c G,
     JsonSchema_GoType ReadFile structPrefix (2 * depth js + 1) js c G
     <> OutOfFuel) /\
  (exists r, Resolves ReadFile js r) /\
  (forall c G, exists r, Synthesizes ReadFile structPrefix js c G r) /\
  (forall arg,
     LoadRef ReadFile arg zero = Ok js ->
     main ReadFile structPrefix packageName format_Source (2 * depth js + 1) arg
     <> OutOfFuel).
Proof.
  intros Hfree.
  assert (resolve (2 * depth js) js <> OutOfFuel) as H1
    by (by apply resolve_ends).
  assert (forall c G, typeOf (2 * depth js + 1) js c G <> OutOfFuel) as H2
    by (intros c G; by apply typeOf_ends).
  split; [done|]. split; [done|]. split; [|split].
  - eexists. split; [exact H1|]. by eexists.
  - intros c G. eexists. split; [exact (H2 c G)|]. by eexists.
  - intros arg Harg. unfold main, rootType. rewrite Harg.
    cbn [mbind result_bind]. specialize (H2 true ∅).
    by destruct (typeOf _ js true ∅) as [[t G]| |].
Qed.

End structgen_termination.

(** ** The files of a tree without references *)

Lemma forEach_ext {A S} (f g : A -> S -> result S) l s :
  (forall a s, a ∈ l -> f a s = g a s) -> forEach f l s = forEach g l s.
Proof.
  revert s. induction l as [|a l IH]; intros s H; [done|]. simpl.
  rewrite (H a s) by left. destruct (g a s) as [s'| |]; [|done..]. simpl.
  apply IH. intros a' s'' Hin. apply H. by right.
Qed.

Section two_file_sets.

Variable ReadFile1 ReadFile2 : string -> file.
Variable structPrefix : string.

Lemma descriptionNode_any_files n m :
  (forall i, noRefKey i = true ->
     SchemaFromInterface ReadFile1 n i = SchemaFromInterface ReadFile2 n i) ->
  noRefKey (JObject m) = true ->
  descriptionNode ReadFile1 n m = descriptionNode ReadFile2 n m.
Proof.
  intros IH Hno. unfold descriptionNode.
  rewrite (IH _ (noRefKey_index m "extends" Hno)).
  rewrite (IH _ (noRefKey_index m "items" Hno)).
  destruct (SchemaFromInterface ReadFile2 n (index m "extends")) as [ext| |]; [|done..].
  destruct (SchemaFromInterface ReadFile2 n (index m "items")) as [items| |]; [|done..].
  cbn [mbind result_bind].
  destruct (match lookupMember m "$ref" with Some _ => _ | None => _ end)
    as [out1| |]; [|done..]. cbn [mbind result_bind].
  destruct (match lookupMember m "title" with Some _ => _ | None => _ end)
    as [out2| |]; [|done..]. cbn [mbind result_bind].
  destruct (match lookupMember m "description" with Some _ => _ | None => _ end)
    as [out3| |]; [|done..]. cbn [mbind result_bind].
  destruct (lookupMember m "properties") as [prop|] eqn:Hprop; [|done].
  destruct prop as [| | | | |pm]; try done. cbn [assertMap mbind result_bind].
  erewrite forEach_ext; [done|].
  intros [k v] ps Hin. simpl. rewrite IH; [done|].
  apply mapEntries_elem in Hin. apply lookupMember_elem in Hprop.
  destruct (noRefKey_elem _ _ _ Hno Hprop) as [_ Hnopm].
  by destruct (noRefKey_elem _ _ _ Hnopm Hin).
Qed.

Lemma resolve_any_files n :
  (forall js, refFree js = true ->
     JsonSchema_LoadRef ReadFile1 n js = JsonSchema_LoadRef ReadFile2 n js) /\
  (forall i, noRefKey i = true ->
     SchemaFromInterface ReadFile1 n i = SchemaFromInterface ReadFile2 n i).
Proof.
  induction n as [|n [IH1 IH2]]; [done|]. split.
  - intros js (Href & HAI & HE & HI & HAP & HP)%refFree_spec.
    rewrite !resolve_S, !resolveRef_id by done. cbn [mbind result_bind].
    rewrite (IH2 _ HAI).
    destruct (SchemaFromInterface ReadFile2 n _) as [ap| |]; [|done..].
    cbn [mbind result_bind]. cbv zeta.
    destruct (Extends js) as [ext|]; [|done]. by rewrite (IH1 _ HE).
  - intros i Hno. destruct i as [| | | | |m]; try done.
    rewrite !fromInterface_S, (descriptionNode_any_files _ _ IH2 Hno).
    destruct (descriptionNode ReadFile2 n m) as [out0| |] eqn:Hnode; [|done..].
    cbn [mbind result_bind].
    destruct (descriptionNode_refFree _ _ _ _ (proj2 (resolve_refFree ReadFile2 n))
                Hno Hnode) as [Ffree _].
    by rewrite (IH1 _ Ffree).
Qed.

Lemma typeOf_any_files n js c G :
  refFree js = true ->
  JsonSchema_GoType ReadFile1 structPrefix n js c G
  = JsonSchema_GoType ReadFile2 structPrefix n js c G.
Proof.
  revert js c G. induction n as [|n IH]; intros js c G Hfree; [done|].
  pose proof (proj1 (resolve_any_files n) _ Hfree) as Hsame.
  destruct (JsonSchema_LoadRef ReadFile2 n js) as [js'|p|] eqn:Hres.
  2,3: cbn [JsonSchema_GoType]; by rewrite Hsame, Hres.
  rewrite (typeOf_cases _ _ _ _ _ _ _ Hres), (typeOf_cases _ _ _ _ _ _ _ Hsame).
  destruct (proj1 (resolve_refFree ReadFile2 n) _ _ Hfree Hres) as [Hfree' _].
  apply refFree_spec in Hfree' as (Href & HAI & HE & HI & HAP & HP).
  destruct (Type_ js') as [|b|x|s|l|m]; try done.
  - destruct (scalarType s); [done|].
    destruct (String.eqb s "array").
    { destruct (Items js') as [items|]; [|done]. by rewrite IH. }
    destruct (String.eqb s "object"); [|done].
    destruct (decide (props js' = ∅)).
    { destruct (AdditionalProperties js') as [ap|]; [|done]. by rewrite IH. }
    erewrite forEach_ext; [done|].
    intros k [src G1] _. unfold structField.
    destruct (props js' !! k) as [[child|]|] eqn:Hk; try done.
    rewrite IH; [done|]. by apply (HP _ _ Hk).
  - destruct l as [|t0 [|? ?]]; try done. by apply IH.
Qed.

(** X24. On a schema tree without references the files do not matter:
    [LoadRef] and [GoType] end with the same result whatever files there
    are. *)
Theorem X24_no_reference_no_file js :
  refFree js = true ->
  (forall r, Resolves ReadFile1 js r <-> Resolves ReadFile2 js r) /\
  (forall c G r,
     Synthesizes ReadFile1 structPrefix js c G r <->
     Synthesizes ReadFile2 structPrefix js c G r).
Proof.
  intros Hfree. split.
  - intros r. split; intros [Hr [n Hn]]; (split; [done|]); exists n;
      by rewrite <- Hn, (proj1 (resolve_any_files n) _ Hfree).
  - intros c G r. split; intros [Hr [n Hn]]; (split; [done|]); exists n;
      by rewrite <- Hn, (typeOf_any_files n _ _ _ Hfree).
Qed.

End two_file_sets.

(** ** The keys, the registry and reference cycles *)

Lemma writes_app W1 W2 G : writes (app W1 W2) G = writes W2 (writes W1 G).
Proof. unfold writes. by rewrite foldl_app. Qed.

(** X28. [SortedKeys] returns every key of the map once, in ascending
    order of the bytes: the list is as long as the map has keys, it has no
    duplicates and holds the keys of the map and nothing else, each key is
    less than those after it, and the order in which the keys of the map are
    listed before sorting does not matter.  Writing a key that the map has
    changes nothing in the list. *)
Theorem X28_SortedKeys_lists_the_keys {V} (m : gmap string V) :
  length (SortedKeys m) = size m /\
  NoDup (SortedKeys m) /\
  (forall k, k ∈ SortedKeys m <-> is_Some (m !! k)) /\
  StronglySorted (fun k1 k2 => String.ltb k1 k2 = true) (SortedKeys m) /\
  (forall l, l ≡ₚ MapKeys m -> sortStrings l = SortedKeys m) /\
  (forall k v, is_Some (m !! k) -> SortedKeys (<[k := v]> m) = SortedKeys m).
Proof.
  split; [apply SortedKeys_length|]. split; [apply SortedKeys_NoDup|].
  split; [apply SortedKeys_elem|]. split; [apply SortedKeys_ascending|].
  split; [intros l Hl; by apply sortStrings_unique|].
  intros k v Hk. apply sortStrings_unique, NoDup_Permutation.
  - apply MapKeys_NoDup.
  - apply MapKeys_NoDup.
  - intros k'. rewrite !MapKeys_elem.
    destruct (decide (k = k')) as [<-|Hne].
    + rewrite lookup_insert_eq. split; [done|by eauto].
    + by rewrite lookup_insert_ne.
Qed.

Lemma sameWrites_ext {A} (r : result (A * gmap string string)) f g :
  (forall G0, g G0 = f G0) -> sameWrites r f -> sameWrites r g.
Proof.
  intros Hfg. destruct r as [[a G]|p|]; simpl.
  - intros [W HW]. exists W. intros G0. by rewrite Hfg.
  - intros H G0. by rewrite Hfg.
  - intros H G0. by rewrite Hfg.
Qed.

Lemma sameWrites_wrap prefix r f :
  sameWrites r f -> sameWrites (wrapType prefix r) (fun G0 => wrapType prefix (f G0)).
Proof.
  destruct r as [[t G]|p|]; simpl.
  - intros [W HW]. exists W. intros G0. by rewrite HW.
  - intros H G0. by rewrite H.
  - intros H G0. by rewrite H.
Qed.

Section structgen_cycles.

Variable ReadFile : string -> file.
Variable structPrefix : string.

Local Abbreviation resolve := (JsonSchema_LoadRef ReadFile).
Local Abbreviation fromInterface := (SchemaFromInterface ReadFile).
Local Abbreviation typeOf := (JsonSchema_GoType ReadFile structPrefix).

(** X25. [GoType] resolves its receiver first and [LoadRef] changes nothing
    on a resolved node: the synthesis of a node and the synthesis of the
    node as [LoadRef] leaves it end alike, with the same type expression
    and registry or the same panic. *)
Theorem X25_synthesis_of_resolved_node js js' :
  Resolves ReadFile js (Ok js') ->
  forall c G r,
    Synthesizes ReadFile structPrefix js c G r <->
    Synthesizes ReadFile structPrefix js' c G r.
Proof.
  intros Hres c G r.
  assert (Resolves ReadFile js' (Ok js')) as Hres'.
  { destruct Hres as [_ [n Hn]]. split; [done|]. exists n.
    by eapply resolve_idempotent. }
  assert (forall n, resolve n js = Ok js' -> resolve n js' = Ok js' ->
                    typeOf (S n) js c G = typeOf (S n) js' c G) as Hsame.
  { intros n H1 H2. cbn [JsonSchema_GoType]. by rewrite H1, H2. }
  rewrite (Synthesizes_resolved _ _ _ _ _ _ _ Hres).
  rewrite (Synthesizes_resolved _ _ _ _ _ _ _ Hres').
  split; intros [Hr (n & Hn & Hty)]; (split; [done|]).
  - pose proof (resolve_idempotent _ _ _ _ Hn) as Hn'.
    exists n. split; [done|]. by rewrite <- (Hsame n Hn Hn').
  - destruct Hres as [_ [n0 Hn0]].
    exists (n `max` n0).
    assert (resolve (n `max` n0) js = Ok js') as H1
      by (eapply resolve_ge; [exact Hn0|done|lia]).
    assert (resolve (n `max` n0) js' = Ok js') as H2
      by (eapply resolve_ge; [exact Hn|done|lia]).
    split; [done|]. rewrite (Hsame _ H1 H2).
    eapply typeOf_ge; [exact Hty|done|lia].
Qed.

Lemma forEach_structField_cons
    (f : JsonSchema -> bool -> gmap string string ->
         result (string * gmap string string)) js' k keys src G :
  forEach (structField f js') (k :: keys) (src, G) =
    match props js' !! k with
    | Some (Some child) =>
        '(t, G1) ← f child true G;
        forEach (structField f js') keys (src +:+ fieldDecl k t, G1)
    | _ => Panic NilDereference
    end.
Proof.
  cbn [forEach]. unfold structField.
  destruct (props js' !! k) as [[child|]|]; [|done..].
  by destruct (f child true G) as [[t G1]| |].
Qed.

Lemma forEach_structField_writes n js' :
  (forall child c G, sameWrites (typeOf n child c G) (typeOf n child c)) ->
  forall keys src0 G r,
    forEach (structField (typeOf n) js') keys (src0, G) = r ->
    match r with
    | Ok _ =>
        exists tail W, forall src1 G0,
          forEach (structField (typeOf n) js') keys (src1, G0)
          = Ok (src1 +:+ tail, writes W G0)
    | Panic p =>
        forall src1 G0,
          forEach (structField (typeOf n) js') keys (src1, G0) = Panic p
    | OutOfFuel =>
        forall src1 G0,
          forEach (structField (typeOf n) js') keys (src1, G0) = OutOfFuel
    end.
Proof.
  intros IH keys. induction keys as [|k keys IHk]; intros src0 G r <-.
  - simpl. exists "", []. intros src1 G0. by rewrite append_nil_r.
  - rewrite forEach_structField_cons.
    destruct (props js' !! k) as [[child|]|] eqn:Hk.
    2,3: intros src1 G0; by rewrite forEach_structField_cons, Hk.
    pose proof (IH child true G) as Hchild.
    destruct (typeOf n child true G) as [[t G1]|p|]; cbn [mbind result_bind].
    + destruct Hchild as [W1 HW1].
      specialize (IHk (src0 +:+ fieldDecl k t) G1 _ eq_refl).
      destruct (forEach _ keys _) as [[src G2]|p|].
      * destruct IHk as (tail & W2 & Hrest).
        exists (fieldDecl k t +:+ tail), (app W1 W2). intros src1 G0.
        rewrite forEach_structField_cons, Hk, HW1. cbn [mbind result_bind].
        by rewrite Hrest, writes_app, append_assoc.
      * intros src1 G0.
        rewrite forEach_structField_cons, Hk, HW1. cbn [mbind result_bind].
        apply IHk.
      * intros src1 G0.
        rewrite forEach_structField_cons, Hk, HW1. cbn [mbind result_bind].
        apply IHk.
    + intros src1 G0. by rewrite forEach_structField_cons, Hk, Hchild.
    + intros src1 G0. by rewrite forEach_structField_cons, Hk, Hchild.
Qed.

Lemma typeOf_writes n js c G : sameWrites (typeOf n js c G) (typeOf n js c).
Proof.
  revert js c G. induction n as [|n IH]; intros js c G; [done|].
  destruct (resolve n js) as [js'|p|] eqn:Hres.
  2,3: cbn [JsonSchema_GoType]; rewrite Hres; simpl; by intros G0.
  pose proof (fun G0 => typeOf_cases ReadFile structPrefix n js js' c G0 Hres)
    as Hcases.
  rewrite (Hcases G). apply (sameWrites_ext _ _ _ Hcases). clear Hcases.
  destruct (Type_ js') as [|b|x|s|l|m]; try done.
  - destruct (scalarType s) as [g|]; [by exists []|].
    destruct (String.eqb s "array").
    { destruct (Items js') as [items|]; [|done].
      apply sameWrites_wrap, IH. }
    destruct (String.eqb s "object"); [|done].
    destruct (decide (props js' = ∅)).
    { destruct (AdditionalProperties js') as [ap|]; [|by exists []].
      apply sameWrites_wrap, IH. }
    pose proof (forEach_structField_writes n js' IH (SortedKeys (props js'))
                  ("struct {" +:+ nl) G _ eq_refl) as Hloop.
    destruct (forEach _ _ _) as [[src G1]|p|] eqn:E; cbn [mbind result_bind].
    + destruct Hloop as (tail & W & Hloop). cbv zeta.
      rewrite Hloop in E. injection E as <- <-.
      destruct (nonempty (Capitalize (Title js'))) eqn:Hname.
      * exists (app W [(structPrefix +:+ Capitalize (Title js'),
                        (("struct {" +:+ nl) +:+ tail) +:+ "}")]).
        intros G0. rewrite Hloop. cbn [mbind result_bind].
        by rewrite writes_app.
      * exists W. intros G0. by rewrite Hloop.
    + intros G0. by rewrite Hloop.
    + intros G0. by rewrite Hloop.
  - destruct l as [|t0 [|? ?]]; [by exists []|apply IH|by exists []].
Qed.

(** X27. [GoType] never reads the registry.  A call that returns writes
    a list of entries, one after the other, that does not depend on what
    the registry holds: called with any other registry it returns the same
    type expression and leaves that registry with the same entries written
    to it, so a name that is taken is written again.  A call that panics
    panics alike whatever the registry holds. *)
Theorem X27_registry_is_never_read js c G :
  (forall t G',
     Synthesizes ReadFile structPrefix js c G (Ok (t, G')) ->
     exists W,
       G' = writes W G /\
       forall G0,
         Synthesizes ReadFile structPrefix js c G0 (Ok (t, writes W G0))) /\
  (forall p,
     Synthesizes ReadFile structPrefix js c G (Panic p) ->
     forall G0, Synthesizes ReadFile structPrefix js c G0 (Panic p)).
Proof.
  split.
  - intros t G' [_ [n Hn]]. pose proof (typeOf_writes n js c G) as H.
    rewrite Hn in H. destruct H as [W HW]. exists W. split.
    + rewrite HW in Hn. by injection Hn as <-.
    + intros G0. split; [done|]. exists n. apply HW.
  - intros p [_ [n Hn]] G0. pose proof (typeOf_writes n js c G) as H.
    rewrite Hn in H. split; [done|]. exists n. apply H.
Qed.

Lemma resolve_self_extends js js1 :
  resolveRef ReadFile js = Ok js1 ->
  Extends js1 = Some js ->
  forall n r, resolve n js = r -> r = OutOfFuel \/ exists p, r = Panic p.
Proof.
  intros Hjs1 Hext n. induction n as [|n IH]; intros r <-; [by left|].
  rewrite resolve_S, Hjs1. cbn [mbind result_bind].
  destruct (fromInterface n (AdditionalInterface js1)) as [ap|p|]; [|eauto..].
  cbn [mbind result_bind]. cbv zeta. rewrite Hext.
  destruct (IH _ eq_refl) as [->|[p ->]]; eauto.
Qed.

Lemma typeOf_self_items js js' :
  Resolves ReadFile js (Ok js') ->
  Type_ js' = JString "array" ->
  Items js' = Some js ->
  forall n c G, typeOf n js c G = OutOfFuel.
Proof.
  intros Hres Hty Hit n. induction n as [|n IH]; intros c G; [done|].
  destruct (resolve n js) as [js''|p|] eqn:Hn.
  - assert (Ok js'' = Ok js') as [= ->].
    { apply (Resolves_det ReadFile js); [|done]. split; [done|by exists n]. }
    rewrite (typeOf_array _ _ _ _ _ _ _ Hn Hty), Hit.
    by apply wrapType_OutOfFuel.
  - assert (Panic p = Ok js') as [=].
    { apply (Resolves_det ReadFile js); [|done]. split; [done|by exists n]. }
  - cbn [JsonSchema_GoType]. by rewrite Hn.
Qed.

(** X26. References that come back to the node they start from are not
    detected.  A node whose document extends the node again is never
    resolved: no call of [LoadRef] on it returns.  A node that resolves to
    an array of itself is never given a type: no call of [GoType] on it
    returns or panics, it only goes deeper. *)
Theorem X26_reference_cycle_never_ends js :
  (forall js1,
     resolveRef ReadFile js = Ok js1 ->
     Extends js1 = Some js ->
     forall js', ~ Resolves ReadFile js (Ok js')) /\
  (forall js',
     Resolves ReadFile js (Ok js') ->
     Type_ js' = JString "array" ->
     Items js' = Some js ->
     forall c G r, ~ Synthesizes ReadFile structPrefix js c G r).
Proof.
  split.
  - intros js1 Hjs1 Hext js' [_ [n Hn]].
    destruct (resolve_self_extends _ _ Hjs1 Hext _ _ Hn) as [|[p ?]]; done.
  - intros js' Hres Hty Hit c G r [Hr [n Hn]].
    by rewrite (typeOf_self_items _ _ Hres Hty Hit) in Hn.
Qed.

End structgen_cycles.


(** * The theorems on the example schemas *)

Lemma lookup_nonempty {V} (m : gmap string V) k v : m !! k = Some v -> m <> ∅.
Proof. intros Hk ->. by rewrite lookup_empty in Hk. Qed.

(** [n] calls deep, the run ends with the result stated. *)
Ltac run n := split; [discriminate | exists n; vm_compute; reflexivity].

Example Capitalize_words : Capitalize "foo  bar baz" = "FooBarBaz".
Proof. vm_compute. reflexivity. Qed.

(** A tab does not end a word. *)
Example Capitalize_tab :
  Capitalize ex_tab_key = String "A" (String (Ascii.ascii_of_nat 9) "b").
Proof. vm_compute. reflexivity. Qed.

(** ** C1 *)

(** The registry holds under ["JsonT"] the body of [ex_T_x]; then [ex_T_y],
    which has the same title, is synthesized: the entry becomes the body of
    [ex_T_y]. *)
Lemma C1_counterexample : ~ C1_as_worded.
Proof.
  intros H.
  destruct (H noFiles "Json" ex_T_y (plain ex_T_y) true ex_registry_T_x
              "JsonT" (<["JsonT" := structBody ["y"] ["int64"]]> ex_registry_T_x))
    as [Hkeep _].
  - run 8.
  - reflexivity.
  - apply (lookup_nonempty _ "y" (Some (ex_scalar "integer"))).
    vm_compute. reflexivity.
  - run 8.
  - specialize (Hkeep (structBody ["x"] ["string"])).
    vm_compute in Hkeep. specialize (Hkeep eq_refl). discriminate Hkeep.
Qed.

(** The same run, by the theorem. *)
Lemma C1_witness :
  Synthesizes noFiles "Json" ex_T_y true ex_registry_T_x
    (Ok ("JsonT", <["JsonT" := structBody ["y"] ["int64"]]> ex_registry_T_x)).
Proof.
  apply (C1_last_registration_stays noFiles "Json" ex_T_y (plain ex_T_y) true
           ex_registry_T_x ["int64"] ex_registry_T_x).
  - run 8.
  - reflexivity.
  - apply (lookup_nonempty _ "y" (Some (ex_scalar "integer"))).
    vm_compute. reflexivity.
  - change (SortedKeys (props (plain ex_T_y))) with ["y"].
    apply (FieldTypes_cons _ _ _ "y" [] (ex_scalar "integer") "int64" []
             ex_registry_T_x ex_registry_T_x ex_registry_T_x).
    + vm_compute. reflexivity.
    + run 8.
    + apply FieldTypes_nil.
  - vm_compute. reflexivity.
Defined.

(** ** C2 *)

(** The entry document ["root.json"] is a composite with the title [Foo]:
    [main] computes the reference ["JsonFoo"] for it, [collapse] false would
    give the body. *)
Lemma C2_counterexample : ~ C2_as_worded.
Proof.
  intros H. specialize (H ex_files "Json" 4 "root.json" ex_root).
  vm_compute in H. specialize (H eq_refl). discriminate H.
Qed.

(** ["root.json"] decodes to [ex_root]. *)
Lemma C2_witness :
  rootType ex_files "Json" 4 "root.json"
  = JsonSchema_GoType ex_files "Json" 4 ex_root true ∅.
Proof.
  apply (C2_root_is_collapsed ex_files "Json" 4 "root.json" ex_root).
  vm_compute. reflexivity.
Defined.

(** ** C3 *)

(** [ex_list_object] has the type list [["object"]] and a property: the
    program gives ["interface{}"] and registers nothing; the same node with
    the type ["object"] gives the struct ["JsonFoo"]. *)
Lemma C3_counterexample : ~ C3_as_worded.
Proof.
  intros H.
  destruct (H noFiles "Json" ex_list_object (plain ex_list_object) true ∅
              [JString "object"]) as [Hone _].
  - run 8.
  - reflexivity.
  - destruct (Hone (JString "object") eq_refl (Ok ("interface{}", ∅)))
      as [Hdir _].
    assert (Synthesizes noFiles "Json" ex_list_object true ∅
              (Ok ("interface{}", ∅))) as Hcode by run 8.
    apply Hdir in Hcode.
    assert (Synthesizes noFiles "Json"
              (set_Type (JString "object") (plain ex_list_object)) true ∅
              (Ok ("JsonFoo", {[ "JsonFoo" := structBody ["a"] ["string"] ]})))
      as Hworded by run 8.
    pose proof (Synthesizes_det _ _ _ _ _ _ _ Hcode Hworded) as Heq.
    discriminate Heq.
Qed.

(** The same node, by the theorem. *)
Lemma C3_witness :
  Synthesizes noFiles "Json" ex_list_object true ∅ (Ok ("interface{}", ∅)).
Proof.
  destruct (C3_type_list noFiles "Json" ex_list_object (plain ex_list_object)
              true ∅ [JString "object"]) as [Hone _].
  - run 8.
  - reflexivity.
  - destruct (Hone (JString "object") eq_refl) as [_ Hiff].
    apply Hiff. run 8.
Defined.

(** ** C4 *)



(** A word that begins with a letter outside ASCII: of the two bytes
    C3 A9 of the letter e with an acute accent, the first is replaced by
    the three bytes EF BF BD and the second stays. *)
Example Capitalize_non_ASCII :
  Capitalize (String (ascii_of_nat 195) (String (ascii_of_nat 169) "cole"))
  = String (ascii_of_nat 239)
      (String (ascii_of_nat 191)
         (String (ascii_of_nat 189) (String (ascii_of_nat 169) "cole"))).
Proof. vm_compute. reflexivity. Qed.

(** The body of [ex_two]: the keys in the order of their bytes, the spaces
    of a key dropped from the field name and kept in the tag. *)
Example body_of_ex_two :
  structBody ["a c"; "b"] ["string"; "int64"]
  = "struct {" +:+ nl
    +:+ "AC string `json:" +:+ dquote +:+ "a c" +:+ dquote +:+ "`" +:+ nl
    +:+ "B int64 `json:" +:+ dquote +:+ "b" +:+ dquote +:+ "`" +:+ nl
    +:+ "}".
Proof. vm_compute. reflexivity. Qed.

(** What [main] prints for ["root.json"] with package [gen]. *)
Example main_prints :
  main ex_files "Json" "gen" id 8 "root.json"
  = Ok ["package gen"; "";
        "type JsonFoo " +:+ structBody ["a"] ["string"]; ""].
Proof. vm_compute. reflexivity. Qed.

(** ** C5 *)


(** ** C6 *)

(** ["hop.json"] only refers to another document. *)
Lemma C6_witness :
  exists p, Resolves ex_files ex_ref_hop (Panic p) /\ errorKind p = ResolutionError.
Proof.
  apply (C6_single_redirect ex_files ex_ref_hop)
    with (m := [("$ref", JString "str.json")]).
  - reflexivity.
  - vm_compute. reflexivity.
  - vm_compute. discriminate.
Defined.

(** A reference to a document [{"type": "string"}] gives the string type
    and leaves no reference on the node. *)
Example ref_to_string :
  JsonSchema_GoType ex_files "Json" 8 ex_ref true ∅ = Ok ("string", ∅) /\
  (Ref <$> JsonSchema_LoadRef ex_files 8 ex_ref) = Ok "".
Proof. split; vm_compute; reflexivity. Qed.

(** ** C7 *)

(** [ex_child], resolved, resolves to itself. *)
Lemma C7_witness : Resolves noFiles ex_child_resolved (Ok ex_child_resolved).
Proof.
  apply (C7_resolve_idempotent noFiles ex_child ex_child_resolved).
  run 8.
Defined.

(** ** C8 *)

(** [ex_map] has no properties and describes its additional properties
    as strings. *)
Lemma C8_witness :
  exists ap,
    AdditionalProperties ex_map_resolved = Some ap /\
    (exists n,
       SchemaFromInterface noFiles n (JObject [("type", JString "string")])
       = Ok (Some ap)) /\
    forall r,
      Synthesizes noFiles "Json" ex_map true ∅ r <->
      exists r0, Synthesizes noFiles "Json" ap true ∅ r0 /\
                 r = wrapType "map[string]" r0.
Proof.
  apply (C8_object_without_properties noFiles "Json" ex_map ex_map_resolved true ∅).
  - run 8.
  - reflexivity.
  - vm_compute. reflexivity.
  - reflexivity.
Defined.

(** ** C9 *)

(** An array of arrays whose inner array has no items: the node has items,
    and its synthesis fails with the Schema Error of the inner array. *)
Lemma C9_counterexample : ~ C9_as_worded.
Proof.
  intros H.
  destruct (H noFiles "Json" ex_array_of_array (plain ex_array_of_array) true ∅)
    as [[Hiff _] _].
  - run 8.
  - reflexivity.
  - assert (Items (plain ex_array_of_array) = None) as Heq.
    { apply Hiff. exists (NoArrayItems (plain ex_array_no_items)).
      split; [run 8 | reflexivity]. }
    vm_compute in Heq. discriminate Heq.
Qed.

(** The panic of that array names the inner array, not the array. *)
Example array_of_array :
  JsonSchema_GoType noFiles "Json" 8 ex_array_of_array true ∅
  = Panic (NoArrayItems (plain ex_array_no_items)) /\
  Items (plain ex_array_of_array) = Some ex_array_no_items.
Proof. split; vm_compute; reflexivity. Qed.

(** [ex_array_by_extends] has no items of its own and takes them from the
    node it extends. *)
Lemma C9_witness :
  Synthesizes noFiles "Json" ex_array_by_extends true ∅ (Ok ("[]int64", ∅)).
Proof.
  destruct (C9_array_needs_items noFiles "Json" ex_array_by_extends
              ex_array_by_extends_resolved true ∅) as (_ & _ & Hitems & _).
  - run 8.
  - reflexivity.
  - apply (Hitems (ex_scalar "integer") eq_refl).
    exists (Ok ("int64", ∅)). split; [run 8 | reflexivity].
Defined.

(** Without items the synthesis panics. *)
Example array_without_items :
  JsonSchema_GoType noFiles "Json" 3 ex_array_no_items true ∅
  = Panic (NoArrayItems (plain ex_array_no_items)).
Proof. vm_compute. reflexivity. Qed.

(** ** C10 *)

(** An array of [ex_T_x]: the synthesis of the array leaves ["JsonT"] in
    a registry that was empty. *)
Lemma C10_counterexample : ~ C10_as_worded.
Proof.
  intros H.
  assert (ex_registry_T_x = ∅) as Heq.
  { apply (H noFiles "Json" (ex_array ex_T_x) (plain (ex_array ex_T_x)) true ∅
             "[]JsonT" ex_registry_T_x).
    - run 8.
    - right. left. reflexivity.
    - run 8. }
  apply (f_equal (fun G => G !! "JsonT")) in Heq.
  vm_compute in Heq. discriminate Heq.
Qed.

(** The same array, by the theorem: the registry is the one that the
    synthesis of the items leaves. *)
Lemma C10_witness :
  exists items t0,
    Items (plain (ex_array ex_T_x)) = Some items /\
    "[]JsonT" = "[]" +:+ t0 /\
    Synthesizes noFiles "Json" items true ∅ (Ok (t0, ex_registry_T_x)).
Proof.
  apply (C10_registry_frame noFiles "Json" (ex_array ex_T_x)
           (plain (ex_array ex_T_x)) true ∅ "[]JsonT" ex_registry_T_x).
  - run 8.
  - run 8.
  - reflexivity.
Defined.

(** * The properties above on the example schemas *)

(** X3: a word without a space. *)
Lemma X3_witness : Capitalize "fooBar" = upperFirst "fooBar".
Proof.
  apply (X3_Capitalize_word "fooBar").
  apply (bool_decide_unpack _). vm_compute. reflexivity.
Defined.

Example Capitalize_fooBar : Capitalize "fooBar" = "FooBar".
Proof. vm_compute. reflexivity. Qed.

(** X4: three spaces. *)
Lemma X4_witness : Capitalize "   " = "".
Proof.
  apply (X4_Capitalize_empty "   ").
  apply (bool_decide_unpack _). vm_compute. reflexivity.
Defined.

(** X5: an array of [ex_T_x]. *)
Lemma X5_witness : TypeExpr (registered ex_registry_T_x) "Json" "[]JsonT".
Proof.
  apply (X5_result_is_type_expression noFiles "Json" (ex_array ex_T_x) true ∅
           "[]JsonT" ex_registry_T_x).
  run 8.
Defined.

(** X6: [ex_two] is synthesized with a registry that holds ["JsonT"]. *)
Lemma X6_witness :
  is_Some ((<["JsonTwo" := structBody ["a c"; "b"] ["string"; "int64"]]>
              ex_registry_T_x) !! "JsonT").
Proof.
  apply (X6_registry_keeps_names noFiles "Json" ex_two true ex_registry_T_x
           "JsonTwo").
  - run 8.
  - vm_compute. eexists. reflexivity.
Defined.

(** X7: the entry that [ex_T_x] leaves in the empty registry. *)
Lemma X7_witness :
  (∅ : gmap string string) !! "JsonT" = Some (structBody ["x"] ["string"]) \/
  Declared (registered ex_registry_T_x) "Json" "JsonT" (structBody ["x"] ["string"]).
Proof.
  apply (X7_registry_entries_declared noFiles "Json" ex_T_x true ∅ "JsonT"
           ex_registry_T_x).
  - run 8.
  - vm_compute. reflexivity.
Defined.

(** X8: [ex_T_x] with [collapse] true and false. *)
Lemma X8_witness :
  exists t',
    Synthesizes noFiles "Json" ex_T_x false ∅ (Ok (t', ex_registry_T_x)) /\
    ("JsonT" = t' \/ ex_registry_T_x !! "JsonT" = Some t').
Proof.
  apply (proj1 (X8_collapse_changes_expression_only noFiles "Json" ex_T_x ∅)).
  run 8.
Defined.

(** X9: the panic of an array without items. *)
Lemma X9_witness : synthesizerPanic (NoArrayItems (plain ex_array_no_items)).
Proof.
  apply (proj2 (X9_panics_classified noFiles "Json") ex_array_no_items true ∅).
  run 8.
Defined.

(** X10: the type ["String"]. *)
Lemma X10_witness :
  Synthesizes noFiles "Json" ex_unknown_keyword true ∅
    (Panic (UnknownTypeString "String")).
Proof.
  destruct (X10_unknown_type_string noFiles "Json" ex_unknown_keyword
              (plain ex_unknown_keyword) true ∅ "String") as [[_ H] _].
  - run 8.
  - reflexivity.
  - apply H. apply (bool_decide_unpack _). vm_compute. reflexivity.
Defined.

(** X11: the empty schema has no type. *)
Lemma X11_witness :
  Synthesizes noFiles "Json" zero true ∅ (Panic (UnknownType JNull)).
Proof.
  destruct (X11_unknown_type_shape noFiles "Json" zero (plain zero) true ∅)
    as [[_ H] _].
  - run 8.
  - apply H. split; intros ?; discriminate.
Defined.

(** X12: the only property is nil. *)
Lemma X12_witness :
  Synthesizes noFiles "Json" ex_nil_property true ∅ (Panic NilDereference).
Proof.
  destruct (X12_nil_property_fails noFiles "Json" ex_nil_property
              (plain ex_nil_property) true ∅ "a") as [_ H].
  - run 8.
  - reflexivity.
  - vm_compute. reflexivity.
  - apply H. intros k' [v Hk'].
    change (props (plain ex_nil_property))
      with ({[ "a" := None ]} : gmap string (option JsonSchema)) in Hk'.
    apply lookup_singleton_Some in Hk' as [<- _]. reflexivity.
Defined.

(** The schema [{"type": "object", "properties": {"a": null}}] decodes to
    [ex_nil_property]. *)
Example null_property_decodes :
  Unmarshal (JObject [("type", JString "object");
                      ("properties", JObject [("a", JNull)])]) zero
  = Some ex_nil_property.
Proof. vm_compute. reflexivity. Qed.

(** X13: a type list with ["array"], on a node that has items. *)
Lemma X13_witness :
  Synthesizes noFiles "Json" ex_list_array true ∅
    (Panic (NoArrayItems (plain (typeListNode "" (JString "array"))))).
Proof.
  destruct (X13_type_list_of_keyword noFiles "Json" ex_list_array
              (plain ex_list_array) true ∅ "array") as (_ & _ & H & _).
  - run 8.
  - reflexivity.
  - apply H. reflexivity.
Defined.

(** X14: the node that [ex_child], resolved, extends. *)
Lemma X14_witness : Resolves noFiles (plain ex_base) (Ok (plain ex_base)).
Proof.
  destruct (X14_resolved_node_shape noFiles ex_child ex_child_resolved)
    as (_ & _ & H & _).
  - run 8.
  - apply H. reflexivity.
Defined.

(** X15: [ex_grandchild] has the property ["a"] of [ex_base], two nodes
    up. *)
Lemma X15_witness : is_Some (props ex_grandchild_resolved !! "a").
Proof.
  destruct (X15_ancestors_are_inherited noFiles ex_grandchild
              ex_grandchild_resolved (plain ex_base)) as [H _].
  - run 8.
  - apply (Ancestor_up _ ex_child_resolved); [reflexivity|].
    apply Ancestor_parent. reflexivity.
  - apply H. vm_compute. eexists. reflexivity.
Defined.


(** X17: the node made of [{"type": "string"}]. *)
Lemma X17_witness :
  Resolves noFiles (plain (ex_scalar "string")) (Ok (plain (ex_scalar "string"))).
Proof.
  apply (X17_description_node_is_resolved noFiles
           (JObject [("type", JString "string")]) (plain (ex_scalar "string"))).
  exists 8. vm_compute. reflexivity.
Defined.

(** X18: the node made of [ex_nested_description]. *)
Lemma X18_witness :
  AdditionalInterface (plain (ex_scalar "object")) = JNull /\
  AdditionalProperties (plain (ex_scalar "object")) = None.
Proof.
  apply (X18_nested_additionalProperties_dropped noFiles 8 ex_nested_description
           (plain (ex_scalar "object"))).
  - reflexivity.
  - vm_compute. reflexivity.
Defined.

(** A map of maps of strings is given the type of a map of anything. *)
Example map_of_maps :
  JsonSchema_GoType noFiles "Json" 8
    (set_AdditionalInterface (JObject ex_nested_description) (ex_scalar "object"))
    true ∅
  = Ok ("map[string]interface{}", ∅).
Proof. vm_compute. reflexivity. Qed.

(** X19: [additionalProperties] is a string. *)
Lemma X19_witness :
  Resolves noFiles ex_bad_additional (Panic (UnknownSchemaInterface (JString "x"))).
Proof.
  apply (X19_bad_additionalProperties noFiles "Json" ex_bad_additional
           ex_bad_additional).
  - reflexivity.
  - exact I.
Defined.


(** A member named with the long s is the member [items]: the decoder
    sets the items of the node. *)
Example long_s_member_is_items :
  fieldOf ex_long_s_key = Some F_items /\
  (Items <$> LoadRef ex_decoder_files "fold.json" ex_titled)
  = Ok (Some (ex_scalar "string")).
Proof. split; vm_compute; reflexivity. Qed.

(** A number that no [float64] holds makes the decoding fail; a number too
    small for one is decoded. *)
Example number_out_of_range :
  LoadRef ex_decoder_files "big.json" zero = Panic (UnmarshalError "big.json") /\
  convertNumber "1e999" = false /\
  convertNumber "1.7976931348623157e308" = true /\
  convertNumber "1e-999" = true.
Proof. repeat split; vm_compute; reflexivity. Qed.

(** X21: the four lines printed for ["root.json"]. *)
Lemma X21_witness :
  exists t G,
    rootType ex_files "Json" 8 "root.json" = Ok (t, G) /\
    length ["package gen"; "";
            "type JsonFoo " +:+ structBody ["a"] ["string"]; ""]
    = 2 + 2 * size G /\
    forall line,
      line ∈ ["package gen"; "";
              "type JsonFoo " +:+ structBody ["a"] ["string"]; ""] ->
      line = "" \/
      (true = true /\ line = "package gen") \/
      exists name body,
        G !! name = Some body /\
        Declared (registered G) "Json" name body /\
        line = "type " +:+ name +:+ " " +:+ body.
Proof.
  apply (X21_main_declares_structs ex_files "Json" "gen" id 8 "root.json").
  vm_compute. reflexivity.
Defined.

(** X22: no file at all. *)
Lemma X22_witness :
  main noFiles "Json" "" id 8 "root.json" = Panic (RefNotFound "root.json").
Proof.
  apply (proj1 (X22_main_entry_document noFiles "Json" "" id 8 "root.json")).
  reflexivity.
Defined.

(** X23: [ex_two] has depth 2. *)
Lemma X23_witness :
  JsonSchema_LoadRef noFiles (2 * depth ex_two) ex_two <> OutOfFuel.
Proof.
  apply (X23_ends_without_references noFiles "Json" "" id ex_two).
  vm_compute. reflexivity.
Defined.

Example depth_of_ex_two : depth ex_two = 2.
Proof. vm_compute. reflexivity. Qed.

(** X24: [ex_two] without files and with the files [ex_files]. *)
Lemma X24_witness :
  Synthesizes noFiles "Json" ex_two true ∅
    (Ok ("JsonTwo", {[ "JsonTwo" := structBody ["a c"; "b"] ["string"; "int64"] ]}))
  <->
  Synthesizes ex_files "Json" ex_two true ∅
    (Ok ("JsonTwo", {[ "JsonTwo" := structBody ["a c"; "b"] ["string"; "int64"] ]})).
Proof.
  apply (X24_no_reference_no_file noFiles ex_files "Json" ex_two).
  vm_compute. reflexivity.
Defined.

(** X25: [ex_child] and [ex_child] resolved. *)
Lemma X25_witness :
  Synthesizes noFiles "Json" ex_child_resolved true ∅
    (Ok ("JsonBase", {[ "JsonBase" := structBody ["a"; "b"] ["string"; "int64"] ]})).
Proof.
  apply (X25_synthesis_of_resolved_node noFiles "Json" ex_child ex_child_resolved).
  - run 8.
  - run 8.
Defined.

(** X26: ["loop.json"] is an array of what ["loop.json"] holds. *)
Lemma X26_witness :
  ~ Synthesizes ex_loop_files "Json" (set_Ref "loop.json" zero) true ∅
      (Ok ("[]string", ∅)).
Proof.
  apply (proj2 (X26_reference_cycle_never_ends ex_loop_files "Json"
                  (set_Ref "loop.json" zero))
           (set_AdditionalProperties None
              (makeProperties
                 (set_Type (JString "array")
                    (set_Items (Some (set_Ref "loop.json" zero)) zero))))).
  - run 8.
  - reflexivity.
  - reflexivity.
Defined.

(** X27: [ex_T_y] writes ["JsonT"], to the registry that holds that name
    and to the empty one. *)
Lemma X27_witness :
  exists W,
    <["JsonT" := structBody ["y"] ["int64"]]> ex_registry_T_x
    = writes W ex_registry_T_x /\
    forall G0, Synthesizes noFiles "Json" ex_T_y true G0 (Ok ("JsonT", writes W G0)).
Proof.
  apply (proj1 (X27_registry_is_never_read noFiles "Json" ex_T_y true
                  ex_registry_T_x)).
  run 8.
Defined.

(** X28: the keys of [ex_two], and of [ex_two] with ["b"] written again. *)
Lemma X28_witness :
  SortedKeys (<["b" := Some (ex_scalar "string")]> (props ex_two))
  = SortedKeys (props ex_two).
Proof.
  apply (X28_SortedKeys_lists_the_keys (props ex_two)).
  vm_compute. eexists. reflexivity.
Defined.

Example keys_of_ex_two : SortedKeys (props ex_two) = ["a c"; "b"].
Proof. vm_compute. reflexivity. Qed.
